(** * RangeIQ: energy prediction and crowd aggregation, embedded in Rocq

    A shallow embedding of the prediction and aggregation core of the
    repository:

    - the vehicle types [@/types/vehicle] and the vehicle store [@/store]
      (vehicle state and its setters),
    - [src/services/prediction/energyPrediction.ts] (whole-route physics
      model, [predictTripEnergy]),
    - [api/src/models/index.ts] (records, geohash, segment hash, confidence),
    - the Cosmos DB service [api/src/services/cosmosDb] ([syncTrips],
      [saveTrip], [updateCrowdSegment]),
    - the prediction endpoint in [api/src/functions] ([predictConsumption]
      and its helpers).

    JavaScript numbers are modelled by [JsNum.num]: a real number, one of the
    two infinities, or NaN.  Arithmetic on finite values is exact (binary64
    rounding and overflow are abstracted away, and the two zeros are
    identified); division by zero and the propagation of the non-finite
    values follow IEEE 754 as JavaScript does. *)

From Stdlib Require Import Reals Lra Lia ZArith Zfloor Ascii String.
From stdpp Require Import gmap strings pretty.

(** * JavaScript numbers *)

Module JsNum.

Local Open Scope R_scope.

Inductive num : Type :=
| Fin (r : R)
| PInf
| NInf
| NaN.

Definition is_finite (a : num) : Prop :=
  match a with Fin _ => True | _ => False end.

Definition opp (a : num) : num :=
  match a with
  | Fin x => Fin (- x)
  | PInf => NInf
  | NInf => PInf
  | NaN => NaN
  end.

Definition add (a b : num) : num :=
  match a, b with
  | NaN, _ | _, NaN => NaN
  | Fin x, Fin y => Fin (x + y)
  | PInf, NInf | NInf, PInf => NaN
  | PInf, _ | _, PInf => PInf
  | NInf, _ | _, NInf => NInf
  end.

Definition sub (a b : num) : num := add a (opp b).

(** An infinity of the given sign times the finite value [r]. *)
Definition inf_times (positive : bool) (r : R) : num :=
  if Req_dec_T r 0 then NaN
  else if Rlt_dec 0 r then (if positive then PInf else NInf)
       else (if positive then NInf else PInf).

Definition mul (a b : num) : num :=
  match a, b with
  | NaN, _ | _, NaN => NaN
  | Fin x, Fin y => Fin (x * y)
  | Fin x, PInf | PInf, Fin x => inf_times true x
  | Fin x, NInf | NInf, Fin x => inf_times false x
  | PInf, PInf | NInf, NInf => PInf
  | PInf, NInf | NInf, PInf => NInf
  end.

Definition div (a b : num) : num :=
  match a, b with
  | NaN, _ | _, NaN => NaN
  | Fin x, Fin y =>
      if Req_dec_T y 0 then
        (if Req_dec_T x 0 then NaN else if Rlt_dec 0 x then PInf else NInf)
      else Fin (x / y)
  | Fin _, PInf | Fin _, NInf => Fin 0
  | PInf, Fin y => if Rlt_dec y 0 then NInf else PInf
  | NInf, Fin y => if Rlt_dec y 0 then PInf else NInf
  | _, _ => NaN
  end.

(** [a < b]; every comparison with NaN is false. *)
Definition ltb (a b : num) : bool :=
  match a, b with
  | NaN, _ | _, NaN => false
  | Fin x, Fin y => if Rlt_dec x y then true else false
  | Fin _, PInf => true
  | Fin _, NInf => false
  | PInf, _ => false
  | NInf, NInf => false
  | NInf, _ => true
  end.

(** [a <= b]. *)
Definition leb (a b : num) : bool :=
  match a, b with
  | NaN, _ | _, NaN => false
  | Fin x, Fin y => if Rle_dec x y then true else false
  | Fin _, PInf => true
  | Fin _, NInf => false
  | PInf, PInf => true
  | PInf, _ => false
  | NInf, _ => true
  end.

Definition gtb (a b : num) : bool := ltb b a.
Definition geb (a b : num) : bool := leb b a.

(** [a === b] on numbers. *)
Definition eqb (a b : num) : bool :=
  match a, b with
  | Fin x, Fin y => if Req_dec_T x y then true else false
  | PInf, PInf | NInf, NInf => true
  | _, _ => false
  end.

(** Truthiness of a number: everything but 0 and NaN. *)
Definition truthy (a : num) : bool :=
  match a with
  | Fin x => if Req_dec_T x 0 then false else true
  | NaN => false
  | _ => true
  end.

(** [a || b] on numbers. *)
Definition or_else (a b : num) : num := if truthy a then a else b.

Definition Math_max (a b : num) : num :=
  match a, b with
  | NaN, _ | _, NaN => NaN
  | _, _ => if ltb a b then b else a
  end.

Definition Math_min (a b : num) : num :=
  match a, b with
  | NaN, _ | _, NaN => NaN
  | _, _ => if ltb b a then b else a
  end.

(** [Math.round]: the nearest integer, ties towards +Infinity. *)
Definition Math_round (a : num) : num :=
  match a with
  | Fin x => Fin (IZR (Zfloor (x + / 2)))
  | _ => a
  end.

Definition Math_abs (a : num) : num :=
  match a with
  | Fin x => Fin (Rabs x)
  | NaN => NaN
  | _ => PInf
  end.

Definition Math_exp (a : num) : num :=
  match a with
  | Fin x => Fin (exp x)
  | PInf => PInf
  | NInf => Fin 0
  | NaN => NaN
  end.

(** The order on numbers as a proposition ([NaN] is related to nothing). *)
Definition le (a b : num) : Prop := leb a b = true.
Definition lt (a b : num) : Prop := ltb a b = true.

End JsNum.

Import JsNum.

Declare Scope num_scope.
Delimit Scope num_scope with num.
Bind Scope num_scope with num.
Infix "+" := add : num_scope.
Infix "-" := sub : num_scope.
Infix "*" := mul : num_scope.
Infix "/" := div : num_scope.
Infix "<?" := ltb : num_scope.
Infix "<=?" := leb : num_scope.
Infix ">?" := gtb : num_scope.
Infix ">=?" := geb : num_scope.
Infix "<=" := le : num_scope.
Infix "<" := lt : num_scope.

(** Case analysis on the real-number decisions left in a goal. *)
Ltac js_dec :=
  repeat match goal with
    | |- context [Req_dec_T ?a ?b] => destruct (Req_dec_T a b); try lra
    | |- context [Rlt_dec ?a ?b] => destruct (Rlt_dec a b); try lra
    | |- context [Rle_dec ?a ?b] => destruct (Rle_dec a b); try lra
    end.

Ltac js_unfold :=
  unfold le, lt, Math_max, Math_min, Math_round, Math_abs, or_else, truthy,
    gtb, geb, ltb, leb, eqb, div, mul, inf_times, sub, add, opp in *.

(** * Vehicle types ([@/types/vehicle]) *)

Module Vehicle.

Local Open Scope num_scope.

(** The catalogue data of a variant; of the fifteen fields only the ones read
    by the prediction code are kept. *)
Record NexonEVVariant := {
  id : string;
  batteryCapacity : num;   (* kWh *)
  baseConsumption : num    (* Wh/km *)
}.

Record RegenLevel := {
  level : Z;
  name : string;
  recoveryEfficiency : num
}.

Inductive HvacMode := hvac_off | hvac_cooling | hvac_heating.

Record VehicleState := {
  variant : NexonEVVariant;
  currentSoC : num;
  batteryHealth : num;
  batteryTemperature : num;
  regenLevel : RegenLevel;
  hvacOn : bool;
  hvacMode : HvacMode;
  hvacTemperature : num;
  tirePressure : num;
  payload : num;
  odometer : num;
  isConnected : bool
}.

Definition MR : NexonEVVariant :=
  {| id := "MR"; batteryCapacity := Fin 30; baseConsumption := Fin 130 |}.
Definition LR : NexonEVVariant :=
  {| id := "LR"; batteryCapacity := Fin 45; baseConsumption := Fin 140 |}.

Definition REGEN_LEVELS : list RegenLevel :=
  [ {| level := 0; name := "Off"; recoveryEfficiency := Fin 0 |};
    {| level := 1; name := "Low"; recoveryEfficiency := Fin 0.1 |};
    {| level := 2; name := "Medium"; recoveryEfficiency := Fin 0.18 |};
    {| level := 3; name := "High"; recoveryEfficiency := Fin 0.25 |} ].

Definition regen_medium : RegenLevel :=
  {| level := 2; name := "Medium"; recoveryEfficiency := Fin 0.18 |}.

Definition DEFAULT_VEHICLE_STATE : VehicleState :=
  {| variant := LR;
     currentSoC := Fin 80;
     batteryHealth := Fin 98;
     batteryTemperature := Fin 25;
     regenLevel := regen_medium;
     hvacOn := false;
     hvacMode := hvac_off;
     hvacTemperature := Fin 24;
     tirePressure := Fin 33;
     payload := Fin 75;
     odometer := Fin 0;
     isConnected := false |}.

Definition getAvailableEnergy (state : VehicleState) : num :=
  (batteryCapacity (variant state) * currentSoC state * batteryHealth state)
  / Fin 10000.

End Vehicle.

(** * Whole-route physics prediction
    ([src/services/prediction/energyPrediction.ts]) *)

Module EnergyPrediction.

Import Vehicle.
Local Open Scope num_scope.

(** The fields of [Route], [WeatherConditions] and [TrafficConditions] that
    [predictTripEnergy] reads. *)
Record Route := {
  totalDistance : num;        (* km *)
  totalElevationGain : num;   (* m *)
  totalElevationLoss : num;   (* m *)
  estimatedDuration : num     (* minutes *)
}.

Record WeatherConditions := {
  temperature : num;
  windSpeed : num
}.

Inductive TrafficDensity := free_flow | light | moderate | heavy | congested.

Record TrafficConditions := {
  density : TrafficDensity;
  averageSpeed : num
}.

Record ConsumptionBreakdown := {
  baseConsumptionWh : num;
  elevationCost : num;
  temperatureCost : num;
  speedCost : num;
  trafficCost : num;
  hvacCost : num;
  auxiliaryCost : num;
  regenRecovery : num;
  totalConsumption : num
}.

(** The result of a prediction, without the echoed inputs and the two
    per-point profiles. *)
Record TripPrediction := {
  startSoC : num;
  predictedEndSoC : num;
  predictedRange : num;
  energyConsumption : num;
  consumptionPerKm : num;
  canComplete : bool;
  marginOfSafety : num;
  breakdown : ConsumptionBreakdown
}.

Definition GRAVITY : num := Fin 9.81.
Definition NEXON_MASS_BASE : num := Fin 1560.

Definition TEMP_very_cold : num := Fin 0.7.
Definition TEMP_cold : num := Fin 0.85.
Definition TEMP_optimal : num := Fin 1.
Definition TEMP_hot : num := Fin 0.92.
Definition TEMP_very_hot : num := Fin 0.85.

Definition HVAC_POWER (mode : HvacMode) : num :=
  match mode with
  | hvac_cooling => Fin 2.5
  | hvac_heating => Fin 4
  | hvac_off => Fin 0
  end.

Definition TRAFFIC_CONSUMPTION_FACTOR (d : TrafficDensity) : num :=
  match d with
  | free_flow => Fin 1
  | light => Fin 1.05
  | moderate => Fin 1.12
  | heavy => Fin 1.25
  | congested => Fin 1.4
  end.

Definition getTemperatureEfficiency (tempC : num) : num :=
  if tempC <? Fin 0 then TEMP_very_cold
  else if tempC <? Fin 15 then TEMP_cold
  else if tempC <=? Fin 30 then TEMP_optimal
  else if tempC <=? Fin 40 then TEMP_hot
  else TEMP_very_hot.

(** Returns the pair (uphillEnergy, downhillRecovery). *)
Definition calculateElevationEnergy
    (elevationGainM elevationLossM vehicleMassKg regenEfficiency : num)
    : num * num :=
  let uphillEnergy := (vehicleMassKg * GRAVITY * elevationGainM) / Fin 3600 in
  let potentialDownhillEnergy :=
    (vehicleMassKg * GRAVITY * elevationLossM) / Fin 3600 in
  let downhillRecovery := potentialDownhillEnergy * regenEfficiency in
  (uphillEnergy, downhillRecovery).

Definition getSpeedConsumptionFactor (avgSpeedKmh : num) : num :=
  if avgSpeedKmh <=? Fin 30 then Fin 1.15
  else if avgSpeedKmh <=? Fin 50 then Fin 1
  else if avgSpeedKmh <=? Fin 70 then Fin 1
  else if avgSpeedKmh <=? Fin 90 then Fin 1.12
  else if avgSpeedKmh <=? Fin 110 then Fin 1.28
  else if avgSpeedKmh <=? Fin 130 then Fin 1.45
  else Fin 1.6.

Definition calculateHeadwind (travelSpeedKmh : num) (weather : WeatherConditions)
    : num :=
  windSpeed weather * Fin 0.5.

Definition predictTripEnergy (route : Route) (vehicle : VehicleState)
    (weather : option WeatherConditions) (traffic : option TrafficConditions)
    : TripPrediction :=
  let distanceKm := totalDistance route in
  let baseConsumptionWhKm := baseConsumption (variant vehicle) in
  let totalMassKg := NEXON_MASS_BASE + payload vehicle in
  let durationHours := estimatedDuration route / Fin 60 in
  let avgSpeedKmh :=
    match traffic with
    | Some t => or_else (averageSpeed t) (distanceKm / durationHours)
    | None => distanceKm / durationHours
    end in
  (* 1. base consumption *)
  let baseWh := baseConsumptionWhKm * distanceKm in
  (* 2. elevation cost *)
  let '(uphillEnergy, downhillRecovery) :=
    calculateElevationEnergy (totalElevationGain route)
      (totalElevationLoss route) totalMassKg
      (recoveryEfficiency (regenLevel vehicle)) in
  let elevationCostWh := uphillEnergy * Fin 1000 in
  let regenRecoveryWh := downhillRecovery * Fin 1000 in
  (* 3. temperature impact *)
  let ambientTemp :=
    match weather with Some w => temperature w | None => Fin 25 end in
  let tempEfficiency := getTemperatureEfficiency ambientTemp in
  let tempCostWh := baseWh * (Fin 1 - tempEfficiency) in
  (* 4. speed impact *)
  let speedFactor := getSpeedConsumptionFactor avgSpeedKmh in
  let speedCostWh := baseWh * (speedFactor - Fin 1) in
  (* 5. traffic impact *)
  let trafficFactor :=
    match traffic with
    | Some t => TRAFFIC_CONSUMPTION_FACTOR (density t)
    | None => Fin 1
    end in
  let trafficCostWh := baseWh * (trafficFactor - Fin 1) in
  (* 6. HVAC cost *)
  let hvacPowerKw :=
    if hvacOn vehicle then HVAC_POWER (hvacMode vehicle) else Fin 0 in
  let hvacCostWh := hvacPowerKw * durationHours * Fin 1000 in
  (* 7. auxiliary systems *)
  let auxiliaryCostWh := Fin 0.15 * durationHours * Fin 1000 in
  (* 8. wind resistance adjustment *)
  let headwind :=
    match weather with
    | Some w => calculateHeadwind avgSpeedKmh w
    | None => Fin 0
    end in
  let windAdjustmentWh :=
    if headwind >? Fin 10 then baseWh * Fin 0.08 * (headwind / Fin 30)
    else Fin 0 in
  let totalConsumptionWh :=
    baseWh + elevationCostWh + tempCostWh + speedCostWh + trafficCostWh
    + hvacCostWh + auxiliaryCostWh + windAdjustmentWh - regenRecoveryWh in
  let totalConsumptionKwh := totalConsumptionWh / Fin 1000 in
  let consumptionPerKm' := totalConsumptionWh / distanceKm in
  let availableEnergyKwh := getAvailableEnergy vehicle in
  let energyUsedKwh := totalConsumptionKwh in
  let usableBatteryKwh :=
    batteryCapacity (variant vehicle) * (batteryHealth vehicle / Fin 100) in
  let endSoCPercent :=
    Math_max (Fin 0)
      (currentSoC vehicle - (energyUsedKwh / usableBatteryKwh) * Fin 100) in
  let remainingEnergyKwh := availableEnergyKwh - energyUsedKwh in
  let remainingRange :=
    Math_max (Fin 0) (remainingEnergyKwh / (consumptionPerKm' / Fin 1000)) in
  let canComplete' := endSoCPercent >=? Fin 5 in
  {| startSoC := currentSoC vehicle;
     predictedEndSoC := Math_round endSoCPercent;
     predictedRange := Math_round remainingRange;
     energyConsumption := totalConsumptionKwh;
     consumptionPerKm := consumptionPerKm';
     canComplete := canComplete';
     marginOfSafety := remainingRange;
     breakdown :=
       {| baseConsumptionWh := baseWh;
          elevationCost := elevationCostWh;
          temperatureCost := tempCostWh;
          speedCost := speedCostWh;
          trafficCost := trafficCostWh;
          hvacCost := hvacCostWh;
          auxiliaryCost := auxiliaryCostWh;
          regenRecovery := regenRecoveryWh;
          totalConsumption := totalConsumptionWh |} |}.

End EnergyPrediction.

(** * 32-bit integer operators of JavaScript *)

Module Int32.

Local Open Scope Z_scope.

(** [ToInt32]: wrap into [-2^31, 2^31). *)
Definition to_int32 (z : Z) : Z := (z + 2 ^ 31) mod 2 ^ 32 - 2 ^ 31.

(** [a << b]. *)
Definition shl (a b : Z) : Z := to_int32 (Z.shiftl (to_int32 a) (b mod 32)).

(** [a | b]. *)
Definition bor (a b : Z) : Z := Z.lor (to_int32 a) (to_int32 b).

(** [a & b]. *)
Definition band (a b : Z) : Z := Z.land (to_int32 a) (to_int32 b).

End Int32.

(** * Data models and utilities ([api/src/models/index.ts]) *)

Module Models.

Import Int32.

(** ** Records *)

Module VehicleConfig.
Record t := {
  variantId : string;
  batteryHealth : num;
  manufacturingYear : Z;
  odometer : num;
  defaultRegenLevel : Z;
  defaultTirePressure : num;
  defaultPayload : num
}.
End VehicleConfig.

Module UserPreferences.
Record t := {
  units : string;
  temperatureUnit : string;
  shareAnonymousData : bool;
  offlineMapsEnabled : bool;
  preferredRegion : string;
  notificationsEnabled : bool
}.
End UserPreferences.

Module UserProfile.
Record t := {
  id : string;
  userId : string;
  vehicleConfig : VehicleConfig.t;
  preferences : UserPreferences.t;
  createdAt : string;
  updatedAt : string
}.
End UserProfile.

Module Coordinate.
Record t := {
  lat : num;
  lng : num;
  elevation : option num
}.
End Coordinate.

Module TripVehicleState.
Record t := {
  variantId : string;
  regenLevel : Z;
  hvacOn : bool;
  hvacMode : string;
  hvacTemperature : num;
  payload : num;
  tirePressure : num;
  batteryHealth : num
}.
End TripVehicleState.

Module TripSegment.
Record t := {
  startIndex : Z;
  endIndex : Z;
  geohash : string;
  distance : num;
  elevationChange : num;
  avgSpeed : num;
  whPerKm : num;
  roadType : string;
  trafficLevel : string
}.
End TripSegment.

(** A trip record.  The route, weather and consumption snapshots are carried
    along untouched by the code below and are left out. *)
Module Trip.
Record t := {
  id : string;
  tripId : string;
  userId : string;
  startTime : string;
  endTime : string;
  distance : num;
  energyUsed : num;
  startSoC : num;
  endSoC : num;
  vehicleState : TripVehicleState.t;
  segments : option (list TripSegment.t);
  createdAt : string;
  synced : bool
}.
End Trip.

Module VariantStats.
Record t := {
  avgWhPerKm : num;
  sampleCount : num
}.
End VariantStats.

Module RangeStats.
Record t := { avg : num; count : num }.
End RangeStats.

Module RegenStats.
Record t := {
  avgWhPerKm : num;
  avgRecovery : num;
  sampleCount : num
}.
End RegenStats.

Module AggregatedConsumption.
Record t := {
  avgWhPerKm : num;
  minWhPerKm : num;
  maxWhPerKm : num;
  stdDeviation : num;
  byVariant : gmap string VariantStats.t;
  byTemperatureRange_cold : RangeStats.t;
  byTemperatureRange_moderate : RangeStats.t;
  byTemperatureRange_hot : RangeStats.t;
  byRegenLevel : gmap Z RegenStats.t
}.
End AggregatedConsumption.

Module TrafficPattern.
Record t := {
  dayOfWeek : Z;
  hourOfDay : Z;
  avgTrafficLevel : num;
  avgSpeedKmh : num;
  sampleCount : num
}.
End TrafficPattern.

Module CrowdSegment.
Record t := {
  id : string;
  geohash : string;
  segmentHash : string;
  fromGeohash : string;
  toGeohash : string;
  distance : num;
  elevationChange : num;
  roadType : string;
  aggregatedData : AggregatedConsumption.t;
  trafficPatterns : list TrafficPattern.t;
  sampleCount : num;
  lastUpdated : string;
  confidence : num
}.
End CrowdSegment.

Module SyncTripsRequest.
Record t := {
  userId : string;
  trips : list Trip.t
}.
End SyncTripsRequest.

Module SyncTripsResponse.
Record t := {
  syncedCount : nat;
  newSegmentsCreated : nat;
  crowdUpdatesApplied : nat;
  syncTimestamp : string
}.
End SyncTripsResponse.

(** ** Geohash *)

Definition base32 : string := "0123456789bcdefghjkmnpqrstuvwxyz".

(** [s[i]] for an integer index: [None] stands for [undefined]. *)
Definition char_at (s : string) (i : Z) : option ascii :=
  if (i <? 0)%Z then None else String.get (Z.to_nat i) s.

(** [hash += s[i]]: appending [undefined] appends its name. *)
Definition append_char_at (hash s : string) (i : Z) : string :=
  match char_at s i with
  | Some c => hash +:+ String c EmptyString
  | None => hash +:+ "undefined"
  end.

(** The variables of the loop of [calculateGeohash]. *)
Record GeohashState := {
  minLat : num; maxLat : num;
  minLng : num; maxLng : num;
  hash : string;
  bit : Z;
  ch : Z;
  isLng : bool
}.

Definition geohash_init : GeohashState :=
  {| minLat := Fin (-90); maxLat := Fin 90;
     minLng := Fin (-180); maxLng := Fin 180;
     hash := ""; bit := 0; ch := 0; isLng := true |}.

(** The bisection of one loop iteration: the new bounds and character bits. *)
Definition geohash_bisect (lat lng : num) (st : GeohashState)
    : num * num * num * num * Z :=
  if isLng st then
    let mid := ((minLng st + maxLng st) / Fin 2)%num in
    if (lng >=? mid)%num
    then (minLat st, maxLat st, mid, maxLng st, bor (shl (ch st) 1) 1)
    else (minLat st, maxLat st, minLng st, mid, shl (ch st) 1)
  else
    let mid := ((minLat st + maxLat st) / Fin 2)%num in
    if (lat >=? mid)%num
    then (mid, maxLat st, minLng st, maxLng st, bor (shl (ch st) 1) 1)
    else (minLat st, mid, minLng st, maxLng st, shl (ch st) 1).

(** One iteration of the [while] loop. *)
Definition geohash_step (lat lng : num) (st : GeohashState) : GeohashState :=
  let '(minLat', maxLat', minLng', maxLng', ch') := geohash_bisect lat lng st in
  let isLng' := negb (isLng st) in
  let bit' := (bit st + 1)%Z in
  if (bit' =? 5)%Z then
    {| minLat := minLat'; maxLat := maxLat';
       minLng := minLng'; maxLng := maxLng';
       hash := append_char_at (hash st) base32 ch';
       bit := 0; ch := 0; isLng := isLng' |}
  else
    {| minLat := minLat'; maxLat := maxLat';
       minLng := minLng'; maxLng := maxLng';
       hash := hash st;
       bit := bit'; ch := ch'; isLng := isLng' |}.

(** The [while (hash.length < precision)] loop, run for at most [fuel]
    iterations; [None] when the fuel is used up before the loop exits. *)
Fixpoint geohash_loop (fuel : nat) (lat lng : num) (precision : Z)
    (st : GeohashState) : option string :=
  if (Z.of_nat (String.length (hash st)) <? precision)%Z then
    match fuel with
    | O => None
    | S fuel' => geohash_loop fuel' lat lng precision (geohash_step lat lng st)
    end
  else Some (hash st).

(** [calculateGeohash(lat, lng, precision)] for an integer precision: five
    iterations are granted per requested character. *)
Definition calculateGeohash (lat lng : num) (precision : Z) : option string :=
  geohash_loop (5 * Z.to_nat precision) lat lng precision geohash_init.

Definition in_alphabet (c : ascii) : bool :=
  existsb (Ascii.eqb c) (list_ascii_of_string base32).

Definition uses_alphabet (s : string) : bool :=
  forallb in_alphabet (list_ascii_of_string s).

(** ** Segment hash *)

Definition digits36 : string := "0123456789abcdefghijklmnopqrstuvwxyz".

Fixpoint toString36_go (fuel : nat) (n : Z) (acc : string) : string :=
  match fuel with
  | O => acc
  | S fuel' =>
      if (n =? 0)%Z then acc
      else toString36_go fuel' (n / 36)%Z
             (match char_at digits36 (n mod 36)%Z with
              | Some c => String c acc
              | None => acc
              end)
  end.

(** [n.toString(36)] for an integer [0 <= n <= 2^31] (at most 6 digits). *)
Definition toString36 (n : Z) : string :=
  if (n =? 0)%Z then "0" else toString36_go 7 n "".

Definition charCode (c : ascii) : Z := Z.of_nat (nat_of_ascii c).

Definition createSegmentHash (fromGeohash toGeohash : string) : string :=
  let combined := fromGeohash +:+ "-" +:+ toGeohash in
  let h :=
    fold_left
      (fun hash c =>
         let hash1 := (shl hash 5 - hash + charCode c)%Z in
         band hash1 hash1)
      (list_ascii_of_string combined) 0%Z in
  toString36 (Z.abs h).

(** ** Confidence *)

Definition calculateConfidence (sampleCount stdDeviation : num) : num :=
  let sampleConfidence :=
    (Fin 1 - Math_exp (opp sampleCount / Fin 50))%num in
  let varianceMultiplier :=
    Math_max (Fin 0.3) (Fin 1 - stdDeviation / Fin 100)%num in
  (Math_round (sampleConfidence * varianceMultiplier * Fin 100) / Fin 100)%num.

End Models.

(** * Trip sync and crowd aggregation ([api/src/services/cosmosDb]) *)

Module CosmosDb.

Import Models.

(** What a call can throw: a store failure carrying a status code, or an
    [Error] raised by the service itself. *)
Inductive Exn :=
| StoreError (code : Z)
| ServiceError (msg : string).

(** A container maps (item id, partition key) to the stored item. *)
Abbreviation Container A := (gmap (string * string) A).

Record Db := {
  usersContainer : Container UserProfile.t;
  tripsContainer : Container Trip.t;
  crowdContainer : Container CrowdSegment.t
}.

Definition empty_db : Db :=
  {| usersContainer := ∅; tripsContainer := ∅; crowdContainer := ∅ |}.

(** The wall clock read by [new Date()]. *)
Record Clock := {
  iso : string;   (* toISOString() *)
  year : Z        (* getFullYear() *)
}.

(** [container.item(id, pk).read()].  A point read of an absent item does
    not throw: it resolves with [resource: undefined].  The store has no
    failures of its own, so no read throws; the [catch] blocks of the
    services are kept as they are written. *)
Definition item_read {A} (c : Container A) (id pk : string)
    : Exn + option A :=
  inr (c !! (id, pk)).

(** Computations over the database that may throw. *)
Definition M (A : Type) : Type := Db -> Exn + (A * Db).

Definition ret {A} (a : A) : M A := fun db => inr (a, db).
Definition throw {A} (e : Exn) : M A := fun _ => inl e.
Definition bind {A B} (m : M A) (k : A -> M B) : M B :=
  fun db => match m db with
            | inl e => inl e
            | inr (a, db') => k a db'
            end.

Notation "'let!' x ':=' m 'in' k" := (bind m (fun x => k))
  (at level 10, x name, m at level 100, k at level 200).

Definition defaultProfile (userId : string) (now : Clock) : UserProfile.t :=
  {| UserProfile.id := userId;
     UserProfile.userId := userId;
     UserProfile.vehicleConfig :=
       {| VehicleConfig.variantId := "nexon_ev_mr";
          VehicleConfig.batteryHealth := Fin 100;
          VehicleConfig.manufacturingYear := year now;
          VehicleConfig.odometer := Fin 0;
          VehicleConfig.defaultRegenLevel := 2;
          VehicleConfig.defaultTirePressure := Fin 35;
          VehicleConfig.defaultPayload := Fin 150 |};
     UserProfile.preferences :=
       {| UserPreferences.units := "metric";
          UserPreferences.temperatureUnit := "celsius";
          UserPreferences.shareAnonymousData := true;
          UserPreferences.offlineMapsEnabled := false;
          UserPreferences.preferredRegion := "maharashtra";
          UserPreferences.notificationsEnabled := false |};
     UserProfile.createdAt := iso now;
     UserProfile.updatedAt := iso now |}.

Definition getOrCreateUser (userId : string) (now : Clock) : M UserProfile.t :=
  fun db =>
    match item_read (usersContainer db) userId userId with
    | inr (Some resource) => inr (resource, db)
    | inr None | inl (StoreError 404) =>
        let newProfile := defaultProfile userId now in
        inr (newProfile,
             {| usersContainer :=
                  <[(UserProfile.id newProfile, UserProfile.userId newProfile)
                    := newProfile]> (usersContainer db);
                tripsContainer := tripsContainer db;
                crowdContainer := crowdContainer db |})
    | inl e => inl e
    end.

Definition saveTrip (trip : Trip.t) (now : Clock) : M Trip.t :=
  fun db =>
    let tripWithMeta :=
      {| Trip.id := Trip.id trip;
         Trip.tripId := Trip.tripId trip;
         Trip.userId := Trip.userId trip;
         Trip.startTime := Trip.startTime trip;
         Trip.endTime := Trip.endTime trip;
         Trip.distance := Trip.distance trip;
         Trip.energyUsed := Trip.energyUsed trip;
         Trip.startSoC := Trip.startSoC trip;
         Trip.endSoC := Trip.endSoC trip;
         Trip.vehicleState := Trip.vehicleState trip;
         Trip.segments := Trip.segments trip;
         Trip.createdAt := iso now;
         Trip.synced := true |} in
    inr (tripWithMeta,
         {| usersContainer := usersContainer db;
            tripsContainer :=
              <[(Trip.id tripWithMeta, Trip.userId tripWithMeta)
                := tripWithMeta]> (tripsContainer db);
            crowdContainer := crowdContainer db |}).

(** The id under which a trip segment is aggregated:
    [`${segment.geohash}-${segment.startIndex}`]. *)
Definition segmentId (segment : TripSegment.t) : string :=
  TripSegment.geohash segment +:+ "-" +:+ pretty (TripSegment.startIndex segment).

(** The item key of the aggregate of a trip segment. *)
Definition segmentKey (segment : TripSegment.t) : string * string :=
  (segmentId segment, TripSegment.geohash segment).

(** The per-variant update of the [if (existing)] branch. *)
Definition updateByVariant (byVariant : gmap string VariantStats.t)
    (variantId : string) (whPerKm : num) : gmap string VariantStats.t :=
  match byVariant !! variantId with
  | None =>
      <[variantId := {| VariantStats.avgWhPerKm := whPerKm;
                        VariantStats.sampleCount := Fin 1 |}]> byVariant
  | Some variantData =>
      <[variantId :=
          {| VariantStats.avgWhPerKm :=
               (VariantStats.avgWhPerKm variantData
                + (whPerKm - VariantStats.avgWhPerKm variantData)
                  / (VariantStats.sampleCount variantData + Fin 1))%num;
             VariantStats.sampleCount :=
               (VariantStats.sampleCount variantData + Fin 1)%num |}]> byVariant
  end.

(** The record written back by the [if (existing)] branch. *)
Definition updateExisting (existing : CrowdSegment.t) (segment : TripSegment.t)
    (trip : Trip.t) (now : Clock) : CrowdSegment.t :=
  let data := CrowdSegment.aggregatedData existing in
  let newCount := (CrowdSegment.sampleCount existing + Fin 1)%num in
  let variantId := TripVehicleState.variantId (Trip.vehicleState trip) in
  let whPerKm := TripSegment.whPerKm segment in
  let newAvg :=
    (AggregatedConsumption.avgWhPerKm data
     + (whPerKm - AggregatedConsumption.avgWhPerKm data) / newCount)%num in
  {| CrowdSegment.id := CrowdSegment.id existing;
     CrowdSegment.geohash := CrowdSegment.geohash existing;
     CrowdSegment.segmentHash := CrowdSegment.segmentHash existing;
     CrowdSegment.fromGeohash := CrowdSegment.fromGeohash existing;
     CrowdSegment.toGeohash := CrowdSegment.toGeohash existing;
     CrowdSegment.distance := CrowdSegment.distance existing;
     CrowdSegment.elevationChange := CrowdSegment.elevationChange existing;
     CrowdSegment.roadType := CrowdSegment.roadType existing;
     CrowdSegment.aggregatedData :=
       {| AggregatedConsumption.avgWhPerKm :=
            (Math_round (newAvg * Fin 100) / Fin 100)%num;
          AggregatedConsumption.minWhPerKm :=
            Math_min (AggregatedConsumption.minWhPerKm data) whPerKm;
          AggregatedConsumption.maxWhPerKm :=
            Math_max (AggregatedConsumption.maxWhPerKm data) whPerKm;
          AggregatedConsumption.stdDeviation :=
            AggregatedConsumption.stdDeviation data;
          AggregatedConsumption.byVariant :=
            updateByVariant (AggregatedConsumption.byVariant data)
              variantId whPerKm;
          AggregatedConsumption.byTemperatureRange_cold :=
            AggregatedConsumption.byTemperatureRange_cold data;
          AggregatedConsumption.byTemperatureRange_moderate :=
            AggregatedConsumption.byTemperatureRange_moderate data;
          AggregatedConsumption.byTemperatureRange_hot :=
            AggregatedConsumption.byTemperatureRange_hot data;
          AggregatedConsumption.byRegenLevel :=
            AggregatedConsumption.byRegenLevel data |};
     CrowdSegment.trafficPatterns := CrowdSegment.trafficPatterns existing;
     CrowdSegment.sampleCount := newCount;
     CrowdSegment.lastUpdated := iso now;
     CrowdSegment.confidence :=
       calculateConfidence newCount (AggregatedConsumption.stdDeviation data) |}.

(** The record created in the [catch] branch. *)
Definition newSegment (segment : TripSegment.t) (trip : Trip.t) (now : Clock)
    : CrowdSegment.t :=
  let whPerKm := TripSegment.whPerKm segment in
  let geohash := TripSegment.geohash segment in
  {| CrowdSegment.id := segmentId segment;
     CrowdSegment.geohash := geohash;
     CrowdSegment.segmentHash := createSegmentHash geohash geohash;
     CrowdSegment.fromGeohash := geohash;
     CrowdSegment.toGeohash := geohash;
     CrowdSegment.distance := TripSegment.distance segment;
     CrowdSegment.elevationChange := TripSegment.elevationChange segment;
     CrowdSegment.roadType := TripSegment.roadType segment;
     CrowdSegment.aggregatedData :=
       {| AggregatedConsumption.avgWhPerKm := whPerKm;
          AggregatedConsumption.minWhPerKm := whPerKm;
          AggregatedConsumption.maxWhPerKm := whPerKm;
          AggregatedConsumption.stdDeviation := Fin 0;
          AggregatedConsumption.byVariant :=
            {[ TripVehicleState.variantId (Trip.vehicleState trip) :=
                 {| VariantStats.avgWhPerKm := whPerKm;
                    VariantStats.sampleCount := Fin 1 |} ]};
          AggregatedConsumption.byTemperatureRange_cold :=
            {| RangeStats.avg := Fin 0; RangeStats.count := Fin 0 |};
          AggregatedConsumption.byTemperatureRange_moderate :=
            {| RangeStats.avg := Fin 0; RangeStats.count := Fin 0 |};
          AggregatedConsumption.byTemperatureRange_hot :=
            {| RangeStats.avg := Fin 0; RangeStats.count := Fin 0 |};
          AggregatedConsumption.byRegenLevel := ∅ |};
     CrowdSegment.trafficPatterns := [];
     CrowdSegment.sampleCount := Fin 1;
     CrowdSegment.lastUpdated := iso now;
     CrowdSegment.confidence := Fin 0.1 |}.

(** [crowdContainer.items.upsert(item)] and [.create(item)]: the item lands
    under its own id and partition key ([/geohash]). *)
Definition crowd_put (item : CrowdSegment.t) (db : Db) : Db :=
  {| usersContainer := usersContainer db;
     tripsContainer := tripsContainer db;
     crowdContainer :=
       <[(CrowdSegment.id item, CrowdSegment.geohash item) := item]>
         (crowdContainer db) |}.

(** Returns the pair (created, updated). *)
Definition updateCrowdSegment (segment : TripSegment.t) (trip : Trip.t)
    (now : Clock) : M (bool * bool) :=
  fun db =>
    match item_read (crowdContainer db) (segmentId segment)
            (TripSegment.geohash segment) with
    | inr (Some existing) =>
        inr ((false, true), crowd_put (updateExisting existing segment trip now) db)
    | inr None => inr ((false, false), db)
    | inl (StoreError 404) =>
        inr ((true, false), crowd_put (newSegment segment trip now) db)
    | inl e => inl e
    end.

(** The counters of [syncTrips]. *)
Record Counters := {
  syncedCount : nat;
  newSegmentsCreated : nat;
  crowdUpdatesApplied : nat
}.

(** The inner loop over [trip.segments]. *)
Fixpoint syncSegments (segments : list TripSegment.t) (trip : Trip.t)
    (now : Clock) (c : Counters) : M Counters :=
  match segments with
  | [] => ret c
  | segment :: rest =>
      let! result := updateCrowdSegment segment trip now in
      let '(created, updated) := result in
      syncSegments rest trip now
        {| syncedCount := syncedCount c;
           newSegmentsCreated :=
             if created then S (newSegmentsCreated c) else newSegmentsCreated c;
           crowdUpdatesApplied :=
             if updated then S (crowdUpdatesApplied c)
             else crowdUpdatesApplied c |}
  end.

(** The body of the loop over [request.trips]. *)
Definition syncTrip (userId : string) (trip : Trip.t) (now : Clock)
    (c : Counters) : M Counters :=
  let! _ := saveTrip
    {| Trip.id := Trip.id trip;
       Trip.tripId := Trip.tripId trip;
       Trip.userId := userId;
       Trip.startTime := Trip.startTime trip;
       Trip.endTime := Trip.endTime trip;
       Trip.distance := Trip.distance trip;
       Trip.energyUsed := Trip.energyUsed trip;
       Trip.startSoC := Trip.startSoC trip;
       Trip.endSoC := Trip.endSoC trip;
       Trip.vehicleState := Trip.vehicleState trip;
       Trip.segments := Trip.segments trip;
       Trip.createdAt := Trip.createdAt trip;
       Trip.synced := Trip.synced trip |} now in
  let c1 := {| syncedCount := S (syncedCount c);
               newSegmentsCreated := newSegmentsCreated c;
               crowdUpdatesApplied := crowdUpdatesApplied c |} in
  let! user := getOrCreateUser userId now in
  if UserPreferences.shareAnonymousData (UserProfile.preferences user) then
    match Trip.segments trip with
    | Some segments => syncSegments segments trip now c1
    | None => ret c1
    end
  else ret c1.

Fixpoint syncTripsLoop (userId : string) (trips : list Trip.t) (now : Clock)
    (c : Counters) : M Counters :=
  match trips with
  | [] => ret c
  | trip :: rest =>
      let! c' := syncTrip userId trip now c in
      syncTripsLoop userId rest now c'
  end.

Definition syncTrips (request : SyncTripsRequest.t) (now : Clock)
    : M SyncTripsResponse.t :=
  let! c := syncTripsLoop (SyncTripsRequest.userId request)
              (SyncTripsRequest.trips request) now
              {| syncedCount := 0; newSegmentsCreated := 0;
                 crowdUpdatesApplied := 0 |} in
  ret {| SyncTripsResponse.syncedCount := syncedCount c;
         SyncTripsResponse.newSegmentsCreated := newSegmentsCreated c;
         SyncTripsResponse.crowdUpdatesApplied := crowdUpdatesApplied c;
         SyncTripsResponse.syncTimestamp := iso now |}.

End CosmosDb.

(** * The prediction endpoint ([predictConsumption] in [api/src/functions]) *)

Module Predict.

Import Models.
Local Open Scope num_scope.

Record VariantSpec := {
  batteryCapacity : num;
  baseConsumption : num;
  motorEfficiency : num
}.

Definition nexon_ev_mr : VariantSpec :=
  {| batteryCapacity := Fin 30.2; baseConsumption := Fin 130;
     motorEfficiency := Fin 0.92 |}.
Definition nexon_ev_lr : VariantSpec :=
  {| batteryCapacity := Fin 40.5; baseConsumption := Fin 140;
     motorEfficiency := Fin 0.91 |}.

Definition VARIANTS (variantId : string) : option VariantSpec :=
  if decide (variantId = "nexon_ev_mr") then Some nexon_ev_mr
  else if decide (variantId = "nexon_ev_lr") then Some nexon_ev_lr
  else None.

(** The table [REGEN_EFFICIENCY]; [None] is a key the table does not have. *)
Definition REGEN_EFFICIENCY (level : Z) : option num :=
  match level with
  | 0%Z => Some (Fin 0)
  | 1%Z => Some (Fin 0.1)
  | 2%Z => Some (Fin 0.18)
  | 3%Z => Some (Fin 0.25)
  | _ => None
  end.

(** [VARIANTS[variantId] || VARIANTS.nexon_ev_mr]. *)
Definition selectVariant (vehicleState : TripVehicleState.t) : VariantSpec :=
  match VARIANTS (TripVehicleState.variantId vehicleState) with
  | Some v => v
  | None => nexon_ev_mr
  end.

(** [REGEN_EFFICIENCY[regenLevel] || 0.18]: a missing entry and a falsy entry
    both yield the default. *)
Definition selectRegenEfficiency (vehicleState : TripVehicleState.t) : num :=
  match REGEN_EFFICIENCY (TripVehicleState.regenLevel vehicleState) with
  | Some e => or_else e (Fin 0.18)
  | None => Fin 0.18
  end.

Definition calculateModelPrediction (from to : Coordinate.t)
    (vehicleState : TripVehicleState.t) (variant : VariantSpec) : num :=
  let consumption := baseConsumption variant in
  let consumption :=
    if TripVehicleState.payload vehicleState >? Fin 150
    then consumption
         * (Fin 1 + ((TripVehicleState.payload vehicleState - Fin 150) / Fin 10)
                    * Fin 0.005)
    else consumption in
  let consumption :=
    if TripVehicleState.tirePressure vehicleState <? Fin 35
    then consumption
         * (Fin 1 + (Fin 35 - TripVehicleState.tirePressure vehicleState)
                    * Fin 0.01)
    else consumption in
  if TripVehicleState.batteryHealth vehicleState <? Fin 100
  then consumption * (Fin 100 / TripVehicleState.batteryHealth vehicleState)
  else consumption.

Definition calculateHvacConsumption (vehicleState : TripVehicleState.t) : num :=
  if negb (TripVehicleState.hvacOn vehicleState) then Fin 0
  else
    let baseHvac :=
      if decide (TripVehicleState.hvacMode vehicleState = "heating")
      then Fin 25 else Fin 20 in
    let ambientTemp := Fin 28 in
    let tempDiff :=
      Math_abs (TripVehicleState.hvacTemperature vehicleState - ambientTemp) in
    baseHvac * (Fin 1 + tempDiff * Fin 0.02).

Definition calculateElevationEnergy (elevChange distance regenEfficiency : num)
    : num :=
  let mass := Fin 1600 in
  let g := Fin 9.81 in
  let potentialEnergy := (mass * g * elevChange) / Fin 3600 in
  if elevChange >? Fin 0 then potentialEnergy / Fin 0.85
  else potentialEnergy * regenEfficiency.

(** [new Map(crowdSegments.map((s) => [s.geohash, s]))]: of several records
    with one geohash the last one stays. *)
Definition crowdDataMap (crowdSegments : list CrowdSegment.t)
    : gmap string CrowdSegment.t :=
  fold_left (fun m s => <[CrowdSegment.geohash s := s]> m) crowdSegments ∅.

(** The elevation part of the loop body of [predictConsumption], on the
    running pair (elevationImpact, regenRecovery). *)
Definition elevationStep (from to : Coordinate.t) (distance regenEfficiency : num)
    (acc : num * num) : num * num :=
  let '(elevationImpact, regenRecovery) := acc in
  match Coordinate.elevation from, Coordinate.elevation to with
  | Some fromElevation, Some toElevation =>
      let elevChange := toElevation - fromElevation in
      let elevEnergy :=
        calculateElevationEnergy elevChange distance regenEfficiency in
      (elevationImpact + elevEnergy,
       if elevEnergy <? Fin 0 then regenRecovery + Math_abs elevEnergy
       else regenRecovery)
  | _, _ => acc
  end.

End Predict.

(** * The vehicle store ([useVehicleStore] of [@/store]) *)

Module VehicleStore.

Import Vehicle.

(** [Partial<VehicleState>]: an absent field is [None]. *)
Module PartialVehicleState.
Record t := {
  variant : option NexonEVVariant;
  currentSoC : option num;
  batteryHealth : option num;
  batteryTemperature : option num;
  regenLevel : option RegenLevel;
  hvacOn : option bool;
  hvacMode : option HvacMode;
  hvacTemperature : option num;
  tirePressure : option num;
  payload : option num;
  odometer : option num;
  isConnected : option bool
}.
Definition empty : t :=
  {| variant := None; currentSoC := None; batteryHealth := None;
     batteryTemperature := None; regenLevel := None; hvacOn := None;
     hvacMode := None; hvacTemperature := None; tirePressure := None;
     payload := None; odometer := None; isConnected := None |}.
End PartialVehicleState.

(** [{ ...state, ...data }] *)
Definition merge (state : VehicleState) (data : PartialVehicleState.t)
    : VehicleState :=
  {| variant := default (variant state) (PartialVehicleState.variant data);
     currentSoC :=
       default (currentSoC state) (PartialVehicleState.currentSoC data);
     batteryHealth :=
       default (batteryHealth state) (PartialVehicleState.batteryHealth data);
     batteryTemperature :=
       default (batteryTemperature state)
         (PartialVehicleState.batteryTemperature data);
     regenLevel :=
       default (regenLevel state) (PartialVehicleState.regenLevel data);
     hvacOn := default (hvacOn state) (PartialVehicleState.hvacOn data);
     hvacMode := default (hvacMode state) (PartialVehicleState.hvacMode data);
     hvacTemperature :=
       default (hvacTemperature state)
         (PartialVehicleState.hvacTemperature data);
     tirePressure :=
       default (tirePressure state) (PartialVehicleState.tirePressure data);
     payload := default (payload state) (PartialVehicleState.payload data);
     odometer := default (odometer state) (PartialVehicleState.odometer data);
     isConnected :=
       default (isConnected state) (PartialVehicleState.isConnected data) |}.

(** Every action of the store; [set(partial)] is [merge]. *)
Definition setVariant (v : NexonEVVariant) (state : VehicleState) :=
  merge state
    {| PartialVehicleState.variant := Some v;
       PartialVehicleState.currentSoC := None;
       PartialVehicleState.batteryHealth := None;
       PartialVehicleState.batteryTemperature := None;
       PartialVehicleState.regenLevel := None;
       PartialVehicleState.hvacOn := None;
       PartialVehicleState.hvacMode := None;
       PartialVehicleState.hvacTemperature := None;
       PartialVehicleState.tirePressure := None;
       PartialVehicleState.payload := None;
       PartialVehicleState.odometer := None;
       PartialVehicleState.isConnected := None |}.

Definition setSoC (soc : num) (state : VehicleState) :=
  merge state
    {| PartialVehicleState.variant := None;
       PartialVehicleState.currentSoC :=
         Some (Math_max (Fin 0) (Math_min (Fin 100) soc));
       PartialVehicleState.batteryHealth := None;
       PartialVehicleState.batteryTemperature := None;
       PartialVehicleState.regenLevel := None;
       PartialVehicleState.hvacOn := None;
       PartialVehicleState.hvacMode := None;
       PartialVehicleState.hvacTemperature := None;
       PartialVehicleState.tirePressure := None;
       PartialVehicleState.payload := None;
       PartialVehicleState.odometer := None;
       PartialVehicleState.isConnected := None |}.

Definition setBatteryHealth (health : num) (state : VehicleState) :=
  merge state
    {| PartialVehicleState.variant := None;
       PartialVehicleState.currentSoC := None;
       PartialVehicleState.batteryHealth :=
         Some (Math_max (Fin 0) (Math_min (Fin 100) health));
       PartialVehicleState.batteryTemperature := None;
       PartialVehicleState.regenLevel := None;
       PartialVehicleState.hvacOn := None;
       PartialVehicleState.hvacMode := None;
       PartialVehicleState.hvacTemperature := None;
       PartialVehicleState.tirePressure := None;
       PartialVehicleState.payload := None;
       PartialVehicleState.odometer := None;
       PartialVehicleState.isConnected := None |}.

Definition setBatteryTemperature (temp : num) (state : VehicleState) :=
  merge state
    {| PartialVehicleState.variant := None;
       PartialVehicleState.currentSoC := None;
       PartialVehicleState.batteryHealth := None;
       PartialVehicleState.batteryTemperature := Some temp;
       PartialVehicleState.regenLevel := None;
       PartialVehicleState.hvacOn := None;
       PartialVehicleState.hvacMode := None;
       PartialVehicleState.hvacTemperature := None;
       PartialVehicleState.tirePressure := None;
       PartialVehicleState.payload := None;
       PartialVehicleState.odometer := None;
       PartialVehicleState.isConnected := None |}.

Definition setRegenLevel (l : RegenLevel) (state : VehicleState) :=
  merge state
    {| PartialVehicleState.variant := None;
       PartialVehicleState.currentSoC := None;
       PartialVehicleState.batteryHealth := None;
       PartialVehicleState.batteryTemperature := None;
       PartialVehicleState.regenLevel := Some l;
       PartialVehicleState.hvacOn := None;
       PartialVehicleState.hvacMode := None;
       PartialVehicleState.hvacTemperature := None;
       PartialVehicleState.tirePressure := None;
       PartialVehicleState.payload := None;
       PartialVehicleState.odometer := None;
       PartialVehicleState.isConnected := None |}.

(** [setHvac(on, mode = "off", temp = 24)]: an omitted argument is [None]. *)
Definition setHvac (on : bool) (mode : option HvacMode) (temp : option num)
    (state : VehicleState) :=
  let mode := default hvac_off mode in
  let temp := default (Fin 24) temp in
  merge state
    {| PartialVehicleState.variant := None;
       PartialVehicleState.currentSoC := None;
       PartialVehicleState.batteryHealth := None;
       PartialVehicleState.batteryTemperature := None;
       PartialVehicleState.regenLevel := None;
       PartialVehicleState.hvacOn := Some on;
       PartialVehicleState.hvacMode :=
         Some (if on
               then match mode with hvac_off => hvac_cooling | _ => mode end
               else hvac_off);
       PartialVehicleState.hvacTemperature := Some temp;
       PartialVehicleState.tirePressure := None;
       PartialVehicleState.payload := None;
       PartialVehicleState.odometer := None;
       PartialVehicleState.isConnected := None |}.

Definition setTirePressure (pressure : num) (state : VehicleState) :=
  merge state
    {| PartialVehicleState.variant := None;
       PartialVehicleState.currentSoC := None;
       PartialVehicleState.batteryHealth := None;
       PartialVehicleState.batteryTemperature := None;
       PartialVehicleState.regenLevel := None;
       PartialVehicleState.hvacOn := None;
       PartialVehicleState.hvacMode := None;
       PartialVehicleState.hvacTemperature := None;
       PartialVehicleState.tirePressure := Some pressure;
       PartialVehicleState.payload := None;
       PartialVehicleState.odometer := None;
       PartialVehicleState.isConnected := None |}.

Definition setPayload (kg : num) (state : VehicleState) :=
  merge state
    {| PartialVehicleState.variant := None;
       PartialVehicleState.currentSoC := None;
       PartialVehicleState.batteryHealth := None;
       PartialVehicleState.batteryTemperature := None;
       PartialVehicleState.regenLevel := None;
       PartialVehicleState.hvacOn := None;
       PartialVehicleState.hvacMode := None;
       PartialVehicleState.hvacTemperature := None;
       PartialVehicleState.tirePressure := None;
       PartialVehicleState.payload := Some (Math_max (Fin 0) kg);
       PartialVehicleState.odometer := None;
       PartialVehicleState.isConnected := None |}.

Definition setConnected (connected : bool) (state : VehicleState) :=
  merge state
    {| PartialVehicleState.variant := None;
       PartialVehicleState.currentSoC := None;
       PartialVehicleState.batteryHealth := None;
       PartialVehicleState.batteryTemperature := None;
       PartialVehicleState.regenLevel := None;
       PartialVehicleState.hvacOn := None;
       PartialVehicleState.hvacMode := None;
       PartialVehicleState.hvacTemperature := None;
       PartialVehicleState.tirePressure := None;
       PartialVehicleState.payload := None;
       PartialVehicleState.odometer := None;
       PartialVehicleState.isConnected := Some connected |}.

Definition updateFromOBD (data : PartialVehicleState.t) (state : VehicleState) :=
  merge state data.

Definition reset (state : VehicleState) : VehicleState := DEFAULT_VEHICLE_STATE.

(** A call of one of the store's actions. *)
Inductive Action :=
| SetVariant (v : NexonEVVariant)
| SetSoC (soc : num)
| SetBatteryHealth (health : num)
| SetBatteryTemperature (temp : num)
| SetRegenLevel (l : RegenLevel)
| SetHvac (on : bool) (mode : option HvacMode) (temp : option num)
| SetTirePressure (pressure : num)
| SetPayload (kg : num)
| SetConnected (connected : bool)
| UpdateFromOBD (data : PartialVehicleState.t)
| Reset.

Definition act (a : Action) (state : VehicleState) : VehicleState :=
  match a with
  | SetVariant v => setVariant v state
  | SetSoC soc => setSoC soc state
  | SetBatteryHealth health => setBatteryHealth health state
  | SetBatteryTemperature temp => setBatteryTemperature temp state
  | SetRegenLevel l => setRegenLevel l state
  | SetHvac on mode temp => setHvac on mode temp state
  | SetTirePressure pressure => setTirePressure pressure state
  | SetPayload kg => setPayload kg state
  | SetConnected connected => setConnected connected state
  | UpdateFromOBD data => updateFromOBD data state
  | Reset => reset state
  end.

(** The ranges the clamping setters enforce. *)
Definition in_range (lo hi a : num) : Prop := (lo <= a)%num /\ (a <= hi)%num.

Definition clamped (state : VehicleState) : Prop :=
  in_range (Fin 0) (Fin 100) (currentSoC state)
  /\ in_range (Fin 0) (Fin 100) (batteryHealth state)
  /\ (Fin 0 <= payload state)%num.

End VehicleStore.

(** * Vocabulary of the statements *)

Module Props.

Import Vehicle EnergyPrediction Models CosmosDb.
Local Open Scope R_scope.

(** ** Prediction inputs *)

(** All numeric inputs of a prediction are finite numbers. *)
Definition finite_route (route : Route) : Prop :=
  is_finite (totalDistance route) /\ is_finite (totalElevationGain route)
  /\ is_finite (totalElevationLoss route) /\ is_finite (estimatedDuration route).

Definition finite_vehicle (vehicle : VehicleState) : Prop :=
  is_finite (batteryCapacity (variant vehicle))
  /\ is_finite (baseConsumption (variant vehicle))
  /\ is_finite (currentSoC vehicle) /\ is_finite (batteryHealth vehicle)
  /\ is_finite (recoveryEfficiency (regenLevel vehicle))
  /\ is_finite (payload vehicle).

Definition finite_weather (weather : option WeatherConditions) : Prop :=
  match weather with
  | Some w => is_finite (temperature w) /\ is_finite (windSpeed w)
  | None => True
  end.

(** ** Geohash *)

(** The loop of [calculateGeohash] after [q] characters and [b] further
    bits. *)
Definition geohash_inv (st : GeohashState) (q b : nat) : Prop :=
  String.length (hash st) = q /\ uses_alphabet (hash st) = true
  /\ bit st = Z.of_nat b /\ (b < 5)%nat /\ (0 <= ch st < 2 ^ Z.of_nat b)%Z.

(** ** Confidence on finite arguments *)

Definition sampleConfidenceR (n : R) : R := 1 - exp (- n / 50).

Definition varianceMultiplierR (s : R) : R := Rmax 0.3 (1 - s / 100).

Definition confidenceR (n s : R) : R :=
  IZR (Zfloor (sampleConfidenceR n * varianceMultiplierR s * 100 + / 2)) / 100.

(** ** The crowd store *)

(** [Math.round(u * 100) / 100] on a finite value. *)
Definition round2R (u : R) : R := IZR (Zfloor (u * 100 + / 2)) / 100.

(** Every aggregate sits under its own id and partition key, and carries a
    finite sample count. *)
Definition store_ok (db : Db) : Prop :=
  forall k e,
    crowdContainer db !! k = Some e ->
    (CrowdSegment.id e, CrowdSegment.geohash e) = k
    /\ is_finite (CrowdSegment.sampleCount e).

(** The number of samples aggregated under key [k]; 0 when there is no
    record. *)
Definition samplesAt (db : Db) (k : string * string) : R :=
  match crowdContainer db !! k with
  | Some e => match CrowdSegment.sampleCount e with Fin n => n | _ => 0 end
  | None => 0
  end.

(** How many of the given trip segments are aggregated under key [k]. *)
Fixpoint occurrences (k : string * string) (segments : list TripSegment.t)
    : nat :=
  match segments with
  | [] => 0
  | segment :: rest =>
      ((if decide (segmentKey segment = k) then 1 else 0)
       + occurrences k rest)%nat
  end.

(** All segments submitted in a batch, in order. *)
Definition batchSegments (trips : list Trip.t) : list TripSegment.t :=
  flat_map (fun trip => default [] (Trip.segments trip)) trips.

(** The user has opted into sharing; a user without a profile gets the
    default profile, which shares. *)
Definition shares (db : Db) (userId : string) : Prop :=
  match usersContainer db !! (userId, userId) with
  | Some user =>
      UserPreferences.shareAnonymousData (UserProfile.preferences user) = true
  | None => True
  end.

(** Feeding samples one at a time through [updateCrowdSegment]. *)
Fixpoint ingestAll (samples : list (TripSegment.t * Trip.t)) (now : Clock)
    (db : Db) : Exn + Db :=
  match samples with
  | [] => inr db
  | (segment, trip) :: rest =>
      match updateCrowdSegment segment trip now db with
      | inl e => inl e
      | inr (_, db') => ingestAll rest now db'
      end
  end.

Definition sampleValue (segment : TripSegment.t) : R :=
  match TripSegment.whPerKm segment with Fin x => x | _ => 0 end.

Fixpoint sumSamples (samples : list (TripSegment.t * Trip.t)) : R :=
  match samples with
  | [] => 0
  | (segment, _) :: rest => sampleValue segment + sumSamples rest
  end.

(** A sample for the aggregate under key [k], with a finite value. *)
Definition for_key (k : string * string) (sample : TripSegment.t * Trip.t)
    : Prop :=
  segmentKey (fst sample) = k /\ is_finite (TripSegment.whPerKm (fst sample)).

(** The state of one aggregate that holds [n] samples adding up to [total],
    [m] updates after its average was exact: the stored average times [n] is
    within the accumulated rounding of the sum. *)
Definition aggregate_of (db : Db) (k : string * string) (n m : nat)
    (total : R) : Prop :=
  exists e a,
    crowdContainer db !! k = Some e
    /\ (CrowdSegment.id e, CrowdSegment.geohash e) = k
    /\ CrowdSegment.sampleCount e = Fin (INR n)
    /\ AggregatedConsumption.avgWhPerKm (CrowdSegment.aggregatedData e) = Fin a
    /\ - (0.005 * (INR m * INR n)) <= INR n * a - total
       <= 0.005 * (INR m * INR n).

(** ** The vehicle store *)

Import VehicleStore.

(** The store's actions that validate what they write, called on a number
    (not NaN). *)
Definition validated (a : Action) : Prop :=
  match a with
  | SetSoC x | SetBatteryHealth x | SetPayload x => x <> NaN
  | UpdateFromOBD _ => False
  | _ => True
  end.

End Props.

(** * Concrete inputs *)

Module Scenarios.

Import Vehicle EnergyPrediction Models CosmosDb.

(** A climb of 100 m with a 50 m descent over 10 km, a 1000 m descent over
    1 km, and a route of length zero that takes 10 minutes. *)
Definition climb : Route :=
  {| totalDistance := Fin 10; totalElevationGain := Fin 100;
     totalElevationLoss := Fin 50; estimatedDuration := Fin 15 |}.

Definition descent : Route :=
  {| totalDistance := Fin 1; totalElevationGain := Fin 0;
     totalElevationLoss := Fin 1000; estimatedDuration := Fin 1 |}.

Definition standstill : Route :=
  {| totalDistance := Fin 0; totalElevationGain := Fin 0;
     totalElevationLoss := Fin 0; estimatedDuration := Fin 10 |}.

Definition noon : Clock := {| iso := "2024-05-01T12:00:00.000Z"; year := 2024 |}.

(** A trip segment in cell [tdr1wx] starting at the given route index, with
    the given observed Wh/km. *)
Definition segmentAt (startIndex : Z) (whPerKm : R) : TripSegment.t :=
  {| TripSegment.startIndex := startIndex;
     TripSegment.endIndex := startIndex + 1;
     TripSegment.geohash := "tdr1wx";
     TripSegment.distance := Fin 1.2;
     TripSegment.elevationChange := Fin 0;
     TripSegment.avgSpeed := Fin 40;
     TripSegment.whPerKm := Fin whPerKm;
     TripSegment.roadType := "city";
     TripSegment.trafficLevel := "light" |}.

Definition requestState (regenLevel : Z) : TripVehicleState.t :=
  {| TripVehicleState.variantId := "nexon_ev_mr";
     TripVehicleState.regenLevel := regenLevel;
     TripVehicleState.hvacOn := false;
     TripVehicleState.hvacMode := "off";
     TripVehicleState.hvacTemperature := Fin 24;
     TripVehicleState.payload := Fin 150;
     TripVehicleState.tirePressure := Fin 35;
     TripVehicleState.batteryHealth := Fin 100 |}.

Definition tripOf (id : string) (segments : list TripSegment.t) : Trip.t :=
  {| Trip.id := id;
     Trip.tripId := id;
     Trip.userId := "u1";
     Trip.startTime := "2024-05-01T08:00:00.000Z";
     Trip.endTime := "2024-05-01T08:30:00.000Z";
     Trip.distance := Fin 12;
     Trip.energyUsed := Fin 1.8;
     Trip.startSoC := Fin 80;
     Trip.endSoC := Fin 74;
     Trip.vehicleState := requestState 2;
     Trip.segments := Some segments;
     Trip.createdAt := "";
     Trip.synced := false |}.

Definition commute : Trip.t := tripOf "trip-1" [segmentAt 0 150].

Definition commuteRequest : SyncTripsRequest.t :=
  {| SyncTripsRequest.userId := "u1"; SyncTripsRequest.trips := [commute] |}.

(** The aggregate of one sample of 150 Wh/km for the first leg in cell
    [tdr1wx], and a store that holds this aggregate and nothing else. *)
Definition firstSample : CrowdSegment.t :=
  newSegment (segmentAt 0 150) commute noon.

Definition cellStore : Db := crowd_put firstSample empty_db.

(** A point 100 m up and a point at sea level. *)
Definition summit : Coordinate.t :=
  {| Coordinate.lat := Fin 18.52; Coordinate.lng := Fin 73.86;
     Coordinate.elevation := Some (Fin 100) |}.

Definition valley : Coordinate.t :=
  {| Coordinate.lat := Fin 18.53; Coordinate.lng := Fin 73.87;
     Coordinate.elevation := Some (Fin 0) |}.

(** An OBD reading that reports a state of charge of 150. *)
Definition obdReading : VehicleStore.PartialVehicleState.t :=
  {| VehicleStore.PartialVehicleState.variant := None;
     VehicleStore.PartialVehicleState.currentSoC := Some (Fin 150);
     VehicleStore.PartialVehicleState.batteryHealth := None;
     VehicleStore.PartialVehicleState.batteryTemperature := None;
     VehicleStore.PartialVehicleState.regenLevel := None;
     VehicleStore.PartialVehicleState.hvacOn := None;
     VehicleStore.PartialVehicleState.hvacMode := None;
     VehicleStore.PartialVehicleState.hvacTemperature := None;
     VehicleStore.PartialVehicleState.tirePressure := None;
     VehicleStore.PartialVehicleState.payload := None;
     VehicleStore.PartialVehicleState.odometer := None;
     VehicleStore.PartialVehicleState.isConnected := None |}.

End Scenarios.

(** * Further functions of [Math] *)

Module JsMath.

Local Open Scope R_scope.

Definition Math_PI : num := Fin PI.

(** [Math.ceil]. *)
Definition Math_ceil (a : num) : num :=
  match a with
  | Fin x => Fin (IZR (Zceil x))
  | _ => a
  end.

Definition Math_sin (a : num) : num :=
  match a with
  | Fin x => Fin (sin x)
  | _ => NaN
  end.

Definition Math_cos (a : num) : num :=
  match a with
  | Fin x => Fin (cos x)
  | _ => NaN
  end.

Definition Math_sqrt (a : num) : num :=
  match a with
  | Fin x => if Rlt_dec x 0 then NaN else Fin (sqrt x)
  | PInf => PInf
  | _ => NaN
  end.

(** [x ** 2]. *)
Definition pow2 (a : num) : num := (a * a)%num.

(** The angle of the point [(x, y)], in (-PI, PI]. *)
Definition atan2R (y x : R) : R :=
  if Rlt_dec 0 x then atan (y / x)
  else if Rlt_dec x 0 then
    (if Rle_dec 0 y then atan (y / x) + PI else atan (y / x) - PI)
  else if Rlt_dec 0 y then PI / 2
  else if Rlt_dec y 0 then - PI / 2
  else 0.

Definition Math_atan2 (y x : num) : num :=
  match y, x with
  | NaN, _ | _, NaN => NaN
  | Fin y, Fin x => Fin (atan2R y x)
  | Fin y, PInf => Fin 0
  | Fin y, NInf => Fin (if Rlt_dec y 0 then - PI else PI)
  | PInf, Fin _ => Fin (PI / 2)
  | NInf, Fin _ => Fin (- PI / 2)
  | PInf, PInf => Fin (PI / 4)
  | PInf, NInf => Fin (3 * PI / 4)
  | NInf, PInf => Fin (- PI / 4)
  | NInf, NInf => Fin (- (3 * PI / 4))
  end.

End JsMath.

(** * Range estimates of the vehicle types and the vehicle store *)

Module VehicleRange.

Import Vehicle.
Local Open Scope num_scope.

(** [getSimpleRangeEstimate] of [@/types/vehicle]. *)
Definition getSimpleRangeEstimate (state : VehicleState) : num :=
  let availableEnergy := getAvailableEnergy state in
  let consumptionPerKm := baseConsumption (variant state) / Fin 1000 in
  Math_round (availableEnergy / consumptionPerKm).

(** The computed members [getAvailableEnergy] and [getSimpleRange] of the
    store, on the state that [get()] returns. *)
Definition store_getAvailableEnergy (state : VehicleState) : num :=
  getAvailableEnergy state.

Definition getSimpleRange (state : VehicleState) : num :=
  let availableEnergy := getAvailableEnergy state in
  let consumptionPerKm := baseConsumption (variant state) / Fin 1000 in
  Math_round (availableEnergy / consumptionPerKm).

End VehicleRange.

(** * The profiles of a trip prediction
    ([src/services/prediction/energyPrediction.ts]) *)

Module RouteProfile.

Import Vehicle EnergyPrediction Models JsMath.
Local Open Scope num_scope.

Module RouteSegment.
Record t := {
  start : Coordinate.t;
  end_ : Coordinate.t;
  distance : num;          (* meters *)
  elevationGain : num;
  elevationLoss : num;
  averageGradient : num;
  roadType : string;
  curvature : num;
  speedLimit : option num
}.
End RouteSegment.

(** A [Route] with its geometry; [totals] holds the four numeric fields that
    [predictTripEnergy] reads. *)
Record RouteGeometry := {
  origin : Coordinate.t;
  destination : Coordinate.t;
  segments : list RouteSegment.t;
  totals : Route
}.

Module ElevationPoint.
Record t := {
  distance : num;    (* km from start *)
  elevation : num;
  gradient : num
}.
End ElevationPoint.

Module RangePoint.
Record t := {
  distance : num;
  predictedSoC : num;
  predictedRange : num
}.
End RangePoint.

(** [x ?? 0] on an optional number. *)
Definition or_zero (x : option num) : num := default (Fin 0) x.

(** The body of the [forEach] of [generateElevationProfile], on the pair
    (cumulativeDistance, points). *)
Definition profileStep (acc : num * list ElevationPoint.t)
    (segment : RouteSegment.t) : num * list ElevationPoint.t :=
  let '(cumulativeDistance, points) := acc in
  let cumulativeDistance :=
    cumulativeDistance + RouteSegment.distance segment / Fin 1000 in
  (cumulativeDistance,
   points ++
     [ {| ElevationPoint.distance := cumulativeDistance;
          ElevationPoint.elevation :=
            or_zero (Coordinate.elevation (RouteSegment.end_ segment));
          ElevationPoint.gradient := RouteSegment.averageGradient segment |} ]).

Definition generateElevationProfile (route : RouteGeometry)
    : list ElevationPoint.t :=
  let points :=
    [ {| ElevationPoint.distance := Fin 0;
         ElevationPoint.elevation := or_zero (Coordinate.elevation (origin route));
         ElevationPoint.gradient := Fin 0 |} ] in
  snd (fold_left profileStep (segments route) (Fin 0, points)).

(** The point that iteration [i] of the loop of [generateRangePoints]
    pushes. *)
Definition rangePoint (i numPoints totalDistance startSoC consumptionPerKm
    batteryCapacityKwh : num) : RangePoint.t :=
  let distance := (i / numPoints) * totalDistance in
  let energyUsedKwh := (distance * consumptionPerKm) / Fin 1000 in
  let socUsed := (energyUsedKwh / batteryCapacityKwh) * Fin 100 in
  let currentSoC := Math_max (Fin 0) (startSoC - socUsed) in
  let remainingEnergy := (currentSoC / Fin 100) * batteryCapacityKwh in
  let remainingRange := remainingEnergy / (consumptionPerKm / Fin 1000) in
  {| RangePoint.distance := distance;
     RangePoint.predictedSoC := Math_round currentSoC;
     RangePoint.predictedRange := Math_round remainingRange |}.

(** The loop [for (let i = 0; i <= numPoints; i++)] from counter [i] on, run
    for at most [fuel] iterations; [None] when the fuel is used up before the
    loop exits. *)
Fixpoint rangePointsLoop (fuel i : nat) (numPoints totalDistance startSoC
    consumptionPerKm batteryCapacityKwh : num) : option (list RangePoint.t) :=
  if Fin (INR i) <=? numPoints then
    match fuel with
    | O => None
    | S fuel' =>
        match rangePointsLoop fuel' (S i) numPoints totalDistance startSoC
                consumptionPerKm batteryCapacityKwh with
        | Some rest =>
            Some (rangePoint (Fin (INR i)) numPoints totalDistance startSoC
                    consumptionPerKm batteryCapacityKwh :: rest)
        | None => None
        end
    end
  else Some [].

(** [numPoints] is at most 20, so 21 iterations are granted. *)
Definition generateRangePoints (route : Route) (startSoC consumptionPerKm
    batteryCapacityKwh : num) : option (list RangePoint.t) :=
  let totalDistance := totalDistance route in
  let numPoints := Math_min (Fin 20) (Math_ceil totalDistance) in
  rangePointsLoop 21 0 numPoints totalDistance startSoC consumptionPerKm
    batteryCapacityKwh.

(** The fields [elevationProfile] and [rangeAtPoints] of the result of
    [predictTripEnergy]. *)
Definition elevationProfile (route : RouteGeometry) : list ElevationPoint.t :=
  generateElevationProfile route.

Definition rangeAtPoints (route : Route) (vehicle : VehicleState)
    (weather : option WeatherConditions) (traffic : option TrafficConditions)
    : option (list RangePoint.t) :=
  let usableBatteryKwh :=
    batteryCapacity (variant vehicle) * (batteryHealth vehicle / Fin 100) in
  generateRangePoints route (currentSoC vehicle)
    (consumptionPerKm (predictTripEnergy route vehicle weather traffic))
    usableBatteryKwh.

(** [getSimpleRangeEstimate] of the prediction service. *)
Definition getSimpleRangeEstimate (vehicle : VehicleState) : num :=
  let availableEnergy := getAvailableEnergy vehicle in
  let consumption := baseConsumption (variant vehicle) / Fin 1000 in
  let consumption :=
    if hvacOn vehicle
    then consumption
         * (match hvacMode vehicle with
            | hvac_heating => Fin 1.25
            | _ => Fin 1.15
            end)
    else consumption in
  Math_round (availableEnergy / consumption).

End RouteProfile.

(** * Profile updates and crowd queries ([api/src/services/cosmosDb]) *)

Module CosmosQueries.

Import Models CosmosDb.

(** [Partial<UserProfile>], [Partial<VehicleConfig>] and
    [Partial<UserPreferences>]: an absent field is [None]. *)
Module PartialUserProfile.
Record t := {
  id : option string;
  userId : option string;
  vehicleConfig : option VehicleConfig.t;
  preferences : option UserPreferences.t;
  createdAt : option string;
  updatedAt : option string
}.
Definition empty : t :=
  {| id := None; userId := None; vehicleConfig := None; preferences := None;
     createdAt := None; updatedAt := None |}.
End PartialUserProfile.

Module PartialVehicleConfig.
Record t := {
  variantId : option string;
  batteryHealth : option num;
  manufacturingYear : option Z;
  odometer : option num;
  defaultRegenLevel : option Z;
  defaultTirePressure : option num;
  defaultPayload : option num
}.
End PartialVehicleConfig.

Module PartialUserPreferences.
Record t := {
  units : option string;
  temperatureUnit : option string;
  shareAnonymousData : option bool;
  offlineMapsEnabled : option bool;
  preferredRegion : option string;
  notificationsEnabled : option bool
}.
End PartialUserPreferences.

(** [usersContainer.items.upsert(item)]: the item lands under its own id and
    partition key ([/userId]). *)
Definition users_put (item : UserProfile.t) (db : Db) : Db :=
  {| usersContainer :=
       <[(UserProfile.id item, UserProfile.userId item) := item]>
         (usersContainer db);
     tripsContainer := tripsContainer db;
     crowdContainer := crowdContainer db |}.

Definition updateUser (userId : string) (updates : PartialUserProfile.t)
    (now : Clock) : M UserProfile.t :=
  let! current := getOrCreateUser userId now in
  let updated :=
    {| UserProfile.id := userId;
       UserProfile.userId := userId;
       UserProfile.vehicleConfig :=
         default (UserProfile.vehicleConfig current)
           (PartialUserProfile.vehicleConfig updates);
       UserProfile.preferences :=
         default (UserProfile.preferences current)
           (PartialUserProfile.preferences updates);
       UserProfile.createdAt :=
         default (UserProfile.createdAt current)
           (PartialUserProfile.createdAt updates);
       UserProfile.updatedAt := iso now |} in
  fun db => inr (updated, users_put updated db).

(** [SELECT * FROM c WHERE c.geohash IN (...)], fetched completely.  The
    order of the result is the store's. *)
Definition getCrowdData (geohashes : list string) : M (list CrowdSegment.t) :=
  fun db =>
    if decide (length geohashes = 0%nat) then inr ([], db)
    else
      inr (filter (fun s => CrowdSegment.geohash s ∈ geohashes)
             (map snd (map_to_list (crowdContainer db))),
           db).

(** [[...new Set(l)]]: the first occurrence of every element, in order. *)
Fixpoint unique_from (seen l : list string) : list string :=
  match l with
  | [] => []
  | x :: rest =>
      if decide (x ∈ seen) then unique_from seen rest
      else x :: unique_from (x :: seen) rest
  end.

Definition unique (l : list string) : list string := unique_from [] l.

(** [calculateGeohash(lat, lng, 6)].  The call returns within its fuel (see
    [geohash6_returns] below), so the default is never taken. *)
Definition geohash6 (lat lng : num) : string :=
  default EmptyString (calculateGeohash lat lng 6).

Definition getRouteSegments (coordinates : list Coordinate.t)
    : M (list CrowdSegment.t) :=
  let geohashes :=
    map (fun c => geohash6 (Coordinate.lat c) (Coordinate.lng c)) coordinates in
  let uniqueGeohashes := unique geohashes in
  getCrowdData uniqueGeohashes.

End CosmosQueries.

(** * The HTTP handlers ([api/src/functions]) *)

Module Http.

Import CosmosDb.

(** What a handler answers: status 200 with a body, 400 or 404 with an error
    message, or 500 from its [catch] block. *)
Inductive Response (A : Type) : Type :=
| Ok (jsonBody : A)
| BadRequest (error : string)
| NotFound (error : string)
| InternalServerError.

Arguments Ok {A} jsonBody.
Arguments BadRequest {A} error.
Arguments NotFound {A} error.
Arguments InternalServerError {A}.

Definition status {A} (r : Response A) : Z :=
  match r with
  | Ok _ => 200
  | BadRequest _ => 400
  | NotFound _ => 404
  | InternalServerError => 500
  end.

(** [try { ... } catch { return 500 }] around a handler body.  Nothing in the
    store model fails after a write, so a body that throws has left the
    database as it found it. *)
Definition handle {A} (body : M (Response A)) (db : Db) : Response A * Db :=
  match body db with
  | inr (r, db') => (r, db')
  | inl _ => (InternalServerError, db)
  end.

(** An optional string under [if (!s)]: [None] when it is absent or empty
    (falsy), the string otherwise. *)
Definition present (s : option string) : option string :=
  match s with
  | Some s => if decide (s = EmptyString) then None else Some s
  | None => None
  end.

End Http.

(** The handlers take the body as [await request.json()] has produced it, an
    object of the expected shape.  A body that is not JSON makes that call
    throw, which the [catch] of the handler answers with 500; that path is
    not part of the model. *)
Module UserApi.

Import Models CosmosDb CosmosQueries Http.

Definition getUser (userId : option string) (now : Clock)
    : Db -> Response UserProfile.t * Db :=
  handle
    (match present userId with
     | Some uid =>
         let! user := getOrCreateUser uid now in
         ret (Ok user)
     | None => ret (BadRequest "Missing userId parameter")
     end).

(** [delete body.id; delete body.userId]. *)
Definition withoutIds (body : PartialUserProfile.t) : PartialUserProfile.t :=
  {| PartialUserProfile.id := None;
     PartialUserProfile.userId := None;
     PartialUserProfile.vehicleConfig := PartialUserProfile.vehicleConfig body;
     PartialUserProfile.preferences := PartialUserProfile.preferences body;
     PartialUserProfile.createdAt := PartialUserProfile.createdAt body;
     PartialUserProfile.updatedAt := PartialUserProfile.updatedAt body |}.

Definition updateUserHandler (userId : option string)
    (body : PartialUserProfile.t) (now : Clock)
    : Db -> Response UserProfile.t * Db :=
  handle
    (match present userId with
     | Some uid =>
         let! updated := updateUser uid (withoutIds body) now in
         ret (Ok updated)
     | None => ret (BadRequest "Missing userId parameter")
     end).

(** [{ ...current.vehicleConfig, ...vehicleConfig }] *)
Definition mergeVehicleConfig (current : VehicleConfig.t)
    (vehicleConfig : PartialVehicleConfig.t) : VehicleConfig.t :=
  {| VehicleConfig.variantId :=
       default (VehicleConfig.variantId current)
         (PartialVehicleConfig.variantId vehicleConfig);
     VehicleConfig.batteryHealth :=
       default (VehicleConfig.batteryHealth current)
         (PartialVehicleConfig.batteryHealth vehicleConfig);
     VehicleConfig.manufacturingYear :=
       default (VehicleConfig.manufacturingYear current)
         (PartialVehicleConfig.manufacturingYear vehicleConfig);
     VehicleConfig.odometer :=
       default (VehicleConfig.odometer current)
         (PartialVehicleConfig.odometer vehicleConfig);
     VehicleConfig.defaultRegenLevel :=
       default (VehicleConfig.defaultRegenLevel current)
         (PartialVehicleConfig.defaultRegenLevel vehicleConfig);
     VehicleConfig.defaultTirePressure :=
       default (VehicleConfig.defaultTirePressure current)
         (PartialVehicleConfig.defaultTirePressure vehicleConfig);
     VehicleConfig.defaultPayload :=
       default (VehicleConfig.defaultPayload current)
         (PartialVehicleConfig.defaultPayload vehicleConfig) |}.

(** [{ ...current.preferences, ...preferences }] *)
Definition mergePreferences (current : UserPreferences.t)
    (preferences : PartialUserPreferences.t) : UserPreferences.t :=
  {| UserPreferences.units :=
       default (UserPreferences.units current)
         (PartialUserPreferences.units preferences);
     UserPreferences.temperatureUnit :=
       default (UserPreferences.temperatureUnit current)
         (PartialUserPreferences.temperatureUnit preferences);
     UserPreferences.shareAnonymousData :=
       default (UserPreferences.shareAnonymousData current)
         (PartialUserPreferences.shareAnonymousData preferences);
     UserPreferences.offlineMapsEnabled :=
       default (UserPreferences.offlineMapsEnabled current)
         (PartialUserPreferences.offlineMapsEnabled preferences);
     UserPreferences.preferredRegion :=
       default (UserPreferences.preferredRegion current)
         (PartialUserPreferences.preferredRegion preferences);
     UserPreferences.notificationsEnabled :=
       default (UserPreferences.notificationsEnabled current)
         (PartialUserPreferences.notificationsEnabled preferences) |}.

Definition updateVehicleConfig (userId : option string)
    (vehicleConfig : PartialVehicleConfig.t) (now : Clock)
    : Db -> Response VehicleConfig.t * Db :=
  handle
    (match present userId with
     | Some uid =>
         let! current := getOrCreateUser uid now in
         let! updated :=
           updateUser uid
             {| PartialUserProfile.id := None;
                PartialUserProfile.userId := None;
                PartialUserProfile.vehicleConfig :=
                  Some (mergeVehicleConfig (UserProfile.vehicleConfig current)
                          vehicleConfig);
                PartialUserProfile.preferences := None;
                PartialUserProfile.createdAt := None;
                PartialUserProfile.updatedAt := None |} now in
         ret (Ok (UserProfile.vehicleConfig updated))
     | None => ret (BadRequest "Missing userId parameter")
     end).

Definition updatePreferences (userId : option string)
    (preferences : PartialUserPreferences.t) (now : Clock)
    : Db -> Response UserPreferences.t * Db :=
  handle
    (match present userId with
     | Some uid =>
         let! current := getOrCreateUser uid now in
         let! updated :=
           updateUser uid
             {| PartialUserProfile.id := None;
                PartialUserProfile.userId := None;
                PartialUserProfile.vehicleConfig := None;
                PartialUserProfile.preferences :=
                  Some (mergePreferences (UserProfile.preferences current)
                          preferences);
                PartialUserProfile.createdAt := None;
                PartialUserProfile.updatedAt := None |} now in
         ret (Ok (UserProfile.preferences updated))
     | None => ret (BadRequest "Missing userId parameter")
     end).

End UserApi.

Module TripsApi.

Import Models CosmosDb Http.

(** The parsed body of [POST /api/trips/sync]; a missing member is [None]. *)
Module SyncTripsBody.
Record t := {
  userId : option string;
  trips : option (list Trip.t)
}.
End SyncTripsBody.

Definition syncTripsHandler (body : SyncTripsBody.t) (now : Clock)
    : Db -> Response SyncTripsResponse.t * Db :=
  handle
    (match present (SyncTripsBody.userId body), SyncTripsBody.trips body with
     | Some userId, Some trips =>
         let! result :=
           syncTrips {| SyncTripsRequest.userId := userId;
                        SyncTripsRequest.trips := trips |} now in
         ret (Ok result)
     | _, _ => ret (BadRequest "Missing userId or trips in request body")
     end).

End TripsApi.

Module CrowdApi.

Import Models CosmosDb CosmosQueries Http.
Local Open Scope num_scope.

Module GetCrowdDataResponse.
Record t := {
  segments : list CrowdSegment.t;
  notFound : list string
}.
End GetCrowdDataResponse.

Definition getCrowdSegments (segmentHashes : option (list string))
    : Db -> Response GetCrowdDataResponse.t * Db :=
  handle
    (match segmentHashes with
     | Some segmentHashes =>
         let! segments := getCrowdData segmentHashes in
         let foundHashes := map CrowdSegment.geohash segments in
         let notFound := filter (fun h => h ∉ foundHashes) segmentHashes in
         ret (Ok {| GetCrowdDataResponse.segments := segments;
                    GetCrowdDataResponse.notFound := notFound |})
     | None =>
         ret (BadRequest "Missing or invalid segmentHashes in request body")
     end).

Module RouteStatistics.
Record t := {
  totalSegments : nat;
  totalRoutePoints : nat;
  uniqueGeohashes : nat;
  coverageRatio : num;
  averageConfidence : num;
  highConfidenceSegments : nat
}.
End RouteStatistics.

Module RouteCrowdData.
Record t := {
  segments : list CrowdSegment.t;
  statistics : RouteStatistics.t
}.
End RouteCrowdData.

(** A length or a size as a JavaScript number. *)
Definition of_nat (n : nat) : num := Fin (INR n).

Definition getCrowdDataForRoute (coordinates : option (list Coordinate.t))
    : Db -> Response RouteCrowdData.t * Db :=
  handle
    (match coordinates with
     | Some coordinates =>
         let! segments := getRouteSegments coordinates in
         let totalPoints := length coordinates in
         let uniqueGeohashes :=
           unique (map (fun c => geohash6 (Coordinate.lat c) (Coordinate.lng c))
                     coordinates) in
         let coveredGeohashes := map CrowdSegment.geohash segments in
         let coverage :=
           of_nat (length coveredGeohashes) / of_nat (length uniqueGeohashes) in
         let avgConfidence :=
           if (0 <? length segments)%nat
           then fold_left (fun sum s => sum + CrowdSegment.confidence s)
                  segments (Fin 0)
                / of_nat (length segments)
           else Fin 0 in
         ret (Ok {| RouteCrowdData.segments := segments;
                    RouteCrowdData.statistics :=
                      {| RouteStatistics.totalSegments := length segments;
                         RouteStatistics.totalRoutePoints := totalPoints;
                         RouteStatistics.uniqueGeohashes :=
                           length uniqueGeohashes;
                         RouteStatistics.coverageRatio :=
                           Math_round (coverage * Fin 100) / Fin 100;
                         RouteStatistics.averageConfidence :=
                           Math_round (avgConfidence * Fin 100) / Fin 100;
                         RouteStatistics.highConfidenceSegments :=
                           length
                             (filter
                                (fun s =>
                                   (CrowdSegment.confidence s >? Fin 0.7) = true)
                                segments) |} |})
     | None => ret (BadRequest "Missing or invalid coordinates in request body")
     end).

Definition getCrowdDataByGeohash (geohash : option string)
    : Db -> Response CrowdSegment.t * Db :=
  handle
    (match present geohash with
     | Some geohash =>
         if ((String.length geohash <? 4)%nat
             || (8 <? String.length geohash)%nat)%bool
         then ret (BadRequest "Invalid geohash. Must be 4-8 characters.")
         else
           let! segments := getCrowdData [geohash] in
           match segments with
           | [] => ret (NotFound "No crowd data found for this geohash")
           | first :: _ => ret (Ok first)
           end
     | None => ret (BadRequest "Invalid geohash. Must be 4-8 characters.")
     end).

End CrowdApi.

Module PredictApi.

Import Models CosmosDb CosmosQueries Http JsMath Predict.
Local Open Scope num_scope.

(** The parsed body of [POST /api/predict]; a missing member is [None]. *)
Module PredictionRequest.
Record t := {
  userId : option string;
  origin : option Coordinate.t;
  destination : option Coordinate.t;
  waypoints : option (list Coordinate.t);
  vehicleState : option TripVehicleState.t;
  departureTime : string
}.
End PredictionRequest.

Module SegmentPrediction.
Record t := {
  geohash : string;
  distance : num;
  estimatedWhPerKm : num;
  confidence : num;
  crowdDataUsed : bool;
  trafficLevel : string
}.
End SegmentPrediction.

Module Breakdown.
Record t := {
  baseConsumption : num;
  elevationImpact : num;
  weatherImpact : num;
  trafficImpact : num;
  hvacConsumption : num;
  regenRecovery : num
}.
End Breakdown.

Module PredictionResponse.
Record t := {
  estimatedEnergyWh : num;
  estimatedRangeKm : num;
  confidence : num;
  breakdown : Breakdown.t;
  crowdDataAvailable : bool;
  segments : list SegmentPrediction.t
}.
End PredictionResponse.

(** What the handler reads of [new Date(departureTime)]; both are NaN for an
    invalid date. *)
Record JsDate := {
  getDay : num;
  getHours : num
}.

Definition toRad (deg : num) : num := deg * (Math_PI / Fin 180).

(** Haversine distance in km. *)
Definition calculateDistance (from to : Coordinate.t) : num :=
  let R := Fin 6371 in
  let dLat := toRad (Coordinate.lat to - Coordinate.lat from) in
  let dLng := toRad (Coordinate.lng to - Coordinate.lng from) in
  let a :=
    pow2 (Math_sin (dLat / Fin 2))
    + Math_cos (toRad (Coordinate.lat from))
      * Math_cos (toRad (Coordinate.lat to))
      * pow2 (Math_sin (dLng / Fin 2)) in
  let c := Fin 2 * Math_atan2 (Math_sqrt a) (Math_sqrt (Fin 1 - a)) in
  R * c.

Definition estimateTrafficImpact (crowdData : CrowdSegment.t) (date : JsDate)
    : num :=
  let dayOfWeek := getDay date in
  let hour := getHours date in
  let pattern :=
    List.find
      (fun p =>
         JsNum.eqb (Fin (IZR (TrafficPattern.dayOfWeek p))) dayOfWeek
         && JsNum.eqb (Fin (IZR (TrafficPattern.hourOfDay p))) hour)
      (CrowdSegment.trafficPatterns crowdData) in
  match pattern with
  | None => Fin 0
  | Some pattern => TrafficPattern.avgTrafficLevel pattern * Fin 10
  end.

(** The variables that the loop of [predictConsumption] updates. *)
Module Totals.
Record t := {
  totalEnergyWh : num;
  elevationImpact : num;
  weatherImpact : num;
  trafficImpact : num;
  hvacConsumption : num;
  regenRecovery : num;
  baseConsumption : num;
  segmentPredictions : list SegmentPrediction.t;
  crowdDataUsedCount : nat
}.
Definition init : t :=
  {| totalEnergyWh := Fin 0; elevationImpact := Fin 0; weatherImpact := Fin 0;
     trafficImpact := Fin 0; hvacConsumption := Fin 0; regenRecovery := Fin 0;
     baseConsumption := Fin 0; segmentPredictions := [];
     crowdDataUsedCount := 0 |}.
End Totals.

(** The consumption chosen for a leg: (segmentWhPerKm, confidence,
    usedCrowd). *)
Definition chooseConsumption (crowdData : option CrowdSegment.t)
    (from to : Coordinate.t) (vehicleState : TripVehicleState.t)
    (variant : VariantSpec) : num * num * bool :=
  match crowdData with
  | Some crowdData =>
      if CrowdSegment.confidence crowdData >? Fin 0.5 then
        let variantData :=
          AggregatedConsumption.byVariant (CrowdSegment.aggregatedData crowdData)
            !! TripVehicleState.variantId vehicleState in
        (match variantData with
         | Some variantData => VariantStats.avgWhPerKm variantData
         | None =>
             AggregatedConsumption.avgWhPerKm
               (CrowdSegment.aggregatedData crowdData)
         end,
         CrowdSegment.confidence crowdData, true)
      else (calculateModelPrediction from to vehicleState variant, Fin 0.3, false)
  | None => (calculateModelPrediction from to vehicleState variant, Fin 0.3, false)
  end.

(** [(crowdData?.trafficPatterns?.[0]?.avgTrafficLevel ?? 0) > 2
     ? "heavy" : "light"] *)
Definition trafficLevelOf (crowdData : option CrowdSegment.t) : string :=
  let level :=
    match crowdData with
    | Some crowdData =>
        match CrowdSegment.trafficPatterns crowdData with
        | p :: _ => TrafficPattern.avgTrafficLevel p
        | [] => Fin 0
        end
    | None => Fin 0
    end in
  if level >? Fin 2 then "heavy" else "light".

(** One iteration of the loop, for the leg from [coordinates[i]] to
    [coordinates[i + 1]]. *)
Definition predictLeg (crowdDataMap : gmap string CrowdSegment.t)
    (vehicleState : TripVehicleState.t) (variant : VariantSpec)
    (regenEfficiency : num) (date : JsDate)
    (acc : Totals.t) (leg : Coordinate.t * Coordinate.t) : Totals.t :=
  let '(from, to) := leg in
  let geohash := geohash6 (Coordinate.lat from) (Coordinate.lng from) in
  let crowdData := crowdDataMap !! geohash in
  let distance := calculateDistance from to in
  let '(segmentWhPerKm, confidence, usedCrowd) :=
    chooseConsumption crowdData from to vehicleState variant in
  let hvacOverhead := calculateHvacConsumption vehicleState in
  let segmentEnergy := (segmentWhPerKm + hvacOverhead) * distance in
  let '(elevationImpact, regenRecovery) :=
    elevationStep from to distance regenEfficiency
      (Totals.elevationImpact acc, Totals.regenRecovery acc) in
  {| Totals.totalEnergyWh := Totals.totalEnergyWh acc + segmentEnergy;
     Totals.elevationImpact := elevationImpact;
     Totals.weatherImpact := Totals.weatherImpact acc;
     Totals.trafficImpact :=
       match crowdData with
       | Some crowdData =>
           Totals.trafficImpact acc
           + estimateTrafficImpact crowdData date * distance
       | None => Totals.trafficImpact acc
       end;
     Totals.hvacConsumption :=
       Totals.hvacConsumption acc + hvacOverhead * distance;
     Totals.regenRecovery := regenRecovery;
     Totals.baseConsumption :=
       Totals.baseConsumption acc + Predict.baseConsumption variant * distance;
     Totals.segmentPredictions :=
       Totals.segmentPredictions acc ++
         [ {| SegmentPrediction.geohash := geohash;
              SegmentPrediction.distance :=
                Math_round (distance * Fin 100) / Fin 100;
              SegmentPrediction.estimatedWhPerKm := Math_round segmentWhPerKm;
              SegmentPrediction.confidence :=
                Math_round (confidence * Fin 100) / Fin 100;
              SegmentPrediction.crowdDataUsed := usedCrowd;
              SegmentPrediction.trafficLevel := trafficLevelOf crowdData |} ];
     Totals.crowdDataUsedCount :=
       if usedCrowd then S (Totals.crowdDataUsedCount acc)
       else Totals.crowdDataUsedCount acc |}.

(** The pairs [(coordinates[i], coordinates[i + 1])] for
    [i < coordinates.length - 1]. *)
Fixpoint legs (coordinates : list Coordinate.t)
    : list (Coordinate.t * Coordinate.t) :=
  match coordinates with
  | from :: (to :: _) as rest => (from, to) :: legs rest
  | _ => []
  end.

(** The response built from the loop's totals. *)
Definition respond (variant : VariantSpec) (t : Totals.t)
    : PredictionResponse.t :=
  let segmentPredictions := Totals.segmentPredictions t in
  let totalDistance :=
    fold_left (fun sum s => sum + SegmentPrediction.distance s)
      segmentPredictions (Fin 0) in
  let avgWhPerKm := Totals.totalEnergyWh t / totalDistance in
  let estimatedRangeKm :=
    (Predict.batteryCapacity variant * Fin 1000) / avgWhPerKm in
  let crowdDataUsedCount := Totals.crowdDataUsedCount t in
  let overallConfidence :=
    if (0 <? crowdDataUsedCount)%nat
    then (Fin (INR crowdDataUsedCount) / Fin (INR (length segmentPredictions)))
         * Fin 0.7 + Fin 0.3
    else Fin 0.4 in
  {| PredictionResponse.estimatedEnergyWh := Math_round (Totals.totalEnergyWh t);
     PredictionResponse.estimatedRangeKm := Math_round estimatedRangeKm;
     PredictionResponse.confidence :=
       Math_round (overallConfidence * Fin 100) / Fin 100;
     PredictionResponse.breakdown :=
       {| Breakdown.baseConsumption := Math_round (Totals.baseConsumption t);
          Breakdown.elevationImpact := Math_round (Totals.elevationImpact t);
          Breakdown.weatherImpact := Math_round (Totals.weatherImpact t);
          Breakdown.trafficImpact := Math_round (Totals.trafficImpact t);
          Breakdown.hvacConsumption := Math_round (Totals.hvacConsumption t);
          Breakdown.regenRecovery := Math_round (Totals.regenRecovery t) |};
     PredictionResponse.crowdDataAvailable := (0 <? crowdDataUsedCount)%nat;
     PredictionResponse.segments := segmentPredictions |}.

(** The handler; [newDate] is the [Date] constructor of the platform. *)
Definition predictConsumption (body : PredictionRequest.t)
    (newDate : string -> JsDate)
    : Db -> Response PredictionResponse.t * Db :=
  handle
    (match PredictionRequest.origin body, PredictionRequest.destination body,
           PredictionRequest.vehicleState body with
     | Some origin, Some destination, Some vehicleState =>
         let coordinates :=
           origin :: default [] (PredictionRequest.waypoints body)
             ++ [destination] in
         let! crowdSegments := getRouteSegments coordinates in
         let crowdDataMap := crowdDataMap crowdSegments in
         let variant := selectVariant vehicleState in
         let regenEfficiency := selectRegenEfficiency vehicleState in
         let totals :=
           fold_left
             (predictLeg crowdDataMap vehicleState variant regenEfficiency
                (newDate (PredictionRequest.departureTime body)))
             (legs coordinates) Totals.init in
         ret (Ok (respond variant totals))
     | _, _, _ =>
         ret (BadRequest "Missing origin, destination, or vehicleState")
     end).

End PredictApi.

(** * Vocabulary of the statements on the services and handlers *)

Module Measures.

Import Models CosmosDb CosmosQueries.
Local Open Scope R_scope.

(** ** Users and trips *)

(** The profile that [getOrCreateUser] finds or makes. *)
Definition profileOf (db : Db) (userId : string) (now : Clock) : UserProfile.t :=
  default (defaultProfile userId now) (usersContainer db !! (userId, userId)).

(** The user has a stored profile that does not share anonymous data. *)
Definition optedOut (db : Db) (userId : string) : Prop :=
  exists user,
    usersContainer db !! (userId, userId) = Some user
    /\ UserPreferences.shareAnonymousData (UserProfile.preferences user) = false.

(** A stored trip as a sync of [userId] at time [now] leaves it. *)
Definition filedUnder (userId : string) (now : Clock) (r : Trip.t) : Prop :=
  Trip.userId r = userId /\ Trip.synced r = true
  /\ Trip.createdAt r = iso now.

(** ** Aggregates as the sync service builds them *)

Definition noStats : RangeStats.t :=
  {| RangeStats.avg := Fin 0; RangeStats.count := Fin 0 |}.

(** The members of an aggregate that the service initialises and never
    updates. *)
Definition serviceBuilt (e : CrowdSegment.t) : Prop :=
  CrowdSegment.trafficPatterns e = []
  /\ AggregatedConsumption.stdDeviation (CrowdSegment.aggregatedData e) = Fin 0
  /\ AggregatedConsumption.byRegenLevel (CrowdSegment.aggregatedData e) = ∅
  /\ AggregatedConsumption.byTemperatureRange_cold
       (CrowdSegment.aggregatedData e) = noStats
  /\ AggregatedConsumption.byTemperatureRange_moderate
       (CrowdSegment.aggregatedData e) = noStats
  /\ AggregatedConsumption.byTemperatureRange_hot
       (CrowdSegment.aggregatedData e) = noStats.

Definition serviceStore (db : Db) : Prop :=
  forall k e, crowdContainer db !! k = Some e -> serviceBuilt e.

(** The trip segments whose aggregate the store holds. *)
Definition known (db : Db) (segments : list TripSegment.t)
    : list TripSegment.t :=
  filter (fun segment => is_Some (crowdContainer db !! segmentKey segment))
    segments.

(** ** Samples of one aggregate *)

Definition variantOf (sample : TripSegment.t * Trip.t) : string :=
  TripVehicleState.variantId (Trip.vehicleState (snd sample)).

(** The names that every object inherits from [Object.prototype].  An object
    used as a table, as [byVariant] is, answers a lookup of one of them with
    the inherited member; every other key is found exactly when the table
    has it. *)
Definition inheritedNames : list string :=
  [ "constructor"; "hasOwnProperty"; "isPrototypeOf"; "propertyIsEnumerable";
    "toLocaleString"; "toString"; "valueOf"; "__proto__";
    "__defineGetter__"; "__defineSetter__"; "__lookupGetter__";
    "__lookupSetter__" ].

(** The variant id of the sample is an ordinary key of such a table. *)
Definition ordinaryVariant (sample : TripSegment.t * Trip.t) : Prop :=
  variantOf sample ∉ inheritedNames.

Definition ofVariant (v : string) (samples : list (TripSegment.t * Trip.t))
    : list (TripSegment.t * Trip.t) :=
  filter (fun sample => variantOf sample = v) samples.

(** The per-variant table holds, for every variant, the number of its samples
    and their mean, as [mean * count = sum]. *)
Definition variantMeans (byVariant : gmap string VariantStats.t)
    (samples : list (TripSegment.t * Trip.t)) : Prop :=
  forall v,
    match byVariant !! v with
    | Some stats =>
        exists a,
          VariantStats.avgWhPerKm stats = Fin a
          /\ VariantStats.sampleCount stats
             = Fin (INR (length (ofVariant v samples)))
          /\ (1 <= length (ofVariant v samples))%nat
          /\ a * INR (length (ofVariant v samples))
             = Props.sumSamples (ofVariant v samples)
    | None => ofVariant v samples = []
    end.

(** ** Crowd queries *)

(** [s] is one of the aggregates of the store. *)
Definition stored (db : Db) (s : CrowdSegment.t) : Prop :=
  exists k, crowdContainer db !! k = Some s.

(** What [GET /api/crowd/geohash/:geohash] accepts: 4 to 8 characters. *)
Definition validGeohash (g : string) : Prop :=
  g <> EmptyString /\ (4 <= String.length g <= 8)%nat.

(** The 6-character cell of a coordinate. *)
Definition cellOf (c : Coordinate.t) : string :=
  geohash6 (Coordinate.lat c) (Coordinate.lng c).

(** ** The prediction endpoint *)

(** The haversine term and the distance of [calculateDistance] on finite
    coordinates, in degrees. *)
Definition haversineR (lat1 lng1 lat2 lng2 : R) : R :=
  sin ((lat2 - lat1) * (PI / 180) / 2) * sin ((lat2 - lat1) * (PI / 180) / 2)
  + cos (lat1 * (PI / 180)) * cos (lat2 * (PI / 180))
    * (sin ((lng2 - lng1) * (PI / 180) / 2)
       * sin ((lng2 - lng1) * (PI / 180) / 2)).

Definition distanceR (lat1 lng1 lat2 lng2 : R) : R :=
  6371 * (2 * JsMath.atan2R (sqrt (haversineR lat1 lng1 lat2 lng2))
                (sqrt (1 - haversineR lat1 lng1 lat2 lng2))).

Definition finiteCoordinate (c : Coordinate.t) : Prop :=
  is_finite (Coordinate.lat c) /\ is_finite (Coordinate.lng c).

Definition usedCrowd (s : PredictApi.SegmentPrediction.t) : Prop :=
  PredictApi.SegmentPrediction.crowdDataUsed s = true.

Definition countUsed (l : list PredictApi.SegmentPrediction.t) : nat :=
  length (filter usedCrowd l).


(** ** The whole-route prediction and its profiles *)

(** The value of a finite number. *)
Definition amount (a : num) : R := match a with Fin r => r | _ => 0 end.

(** The HVAC power that [predictTripEnergy] charges, in kW. *)
Definition hvacPowerR (on : bool) (mode : Vehicle.HvacMode) : R :=
  if on then match mode with
             | Vehicle.hvac_cooling => 2.5
             | Vehicle.hvac_heating => 4
             | Vehicle.hvac_off => 0
             end
  else 0.

(** The share of the base consumption that [predictTripEnergy] adds for
    wind: 8 % per 30 km/h of headwind (half the wind speed) once the wind
    exceeds 20 km/h. *)
Definition windShareR (weather : option EnergyPrediction.WeatherConditions)
    : R :=
  match weather with
  | Some w =>
      match EnergyPrediction.windSpeed w with
      | Fin ws => if Rlt_dec 20 ws then 0.08 * (ws * 0.5 / 30) else 0
      | _ => 0
      end
  | None => 0
  end.

Definition metres (segment : RouteProfile.RouteSegment.t) : R :=
  amount (RouteProfile.RouteSegment.distance segment).

Fixpoint totalMetres (segments : list RouteProfile.RouteSegment.t) : R :=
  match segments with
  | [] => 0
  | segment :: rest => metres segment + totalMetres rest
  end.

(** A segment has a finite, non-negative length. *)
Definition measured (segment : RouteProfile.RouteSegment.t) : Prop :=
  exists r, RouteProfile.RouteSegment.distance segment = Fin r /\ 0 <= r.

(** Each number is at most the next one. *)
Definition ascending (ds : list R) : Prop :=
  forall i x y, ds !! i = Some x -> ds !! S i = Some y -> x <= y.

End Measures.

(** * Further concrete inputs *)

Module Cases.

Import Models CosmosDb CosmosQueries.

(** Two further observations of the first leg in cell [tdr1wx]. *)
Definition furtherSamples : list (TripSegment.t * Trip.t) :=
  [ (Scenarios.segmentAt 0 160, Scenarios.commute);
    (Scenarios.segmentAt 0 160, Scenarios.commute) ].

(** A request body that turns sharing off and leaves the rest alone. *)
Definition stopSharing : PartialUserPreferences.t :=
  {| PartialUserPreferences.units := None;
     PartialUserPreferences.temperatureUnit := None;
     PartialUserPreferences.shareAnonymousData := Some false;
     PartialUserPreferences.offlineMapsEnabled := None;
     PartialUserPreferences.preferredRegion := None;
     PartialUserPreferences.notificationsEnabled := None |}.

(** The default profile of [u1] with sharing turned off, and a store that
    holds nothing else. *)
Definition privateProfile : UserProfile.t :=
  let p := defaultProfile "u1" Scenarios.noon in
  {| UserProfile.id := UserProfile.id p;
     UserProfile.userId := UserProfile.userId p;
     UserProfile.vehicleConfig := UserProfile.vehicleConfig p;
     UserProfile.preferences :=
       UserApi.mergePreferences (UserProfile.preferences p) stopSharing;
     UserProfile.createdAt := UserProfile.createdAt p;
     UserProfile.updatedAt := UserProfile.updatedAt p |}.

Definition privateStore : Db :=
  {| usersContainer := {[ ("u1", "u1") := privateProfile ]};
     tripsContainer := ∅;
     crowdContainer := ∅ |}.


Definition standingRequest : PredictApi.PredictionRequest.t :=
  {| PredictApi.PredictionRequest.userId := None;
     PredictApi.PredictionRequest.origin := Some Scenarios.summit;
     PredictApi.PredictionRequest.destination := Some Scenarios.summit;
     PredictApi.PredictionRequest.waypoints := None;
     PredictApi.PredictionRequest.vehicleState := Some (Scenarios.requestState 2);
     PredictApi.PredictionRequest.departureTime := "2024-05-01T08:00:00.000Z" |}.

(** A point in cell [tdr1wx], and a prediction request from there to
    [summit]. *)
Definition bengaluru : Coordinate.t :=
  {| Coordinate.lat := Fin 12.961; Coordinate.lng := Fin 77.635;
     Coordinate.elevation := None |}.

Definition cityRequest : PredictApi.PredictionRequest.t :=
  {| PredictApi.PredictionRequest.userId := None;
     PredictApi.PredictionRequest.origin := Some bengaluru;
     PredictApi.PredictionRequest.destination := Some Scenarios.summit;
     PredictApi.PredictionRequest.waypoints := None;
     PredictApi.PredictionRequest.vehicleState := Some (Scenarios.requestState 2);
     PredictApi.PredictionRequest.departureTime := "2024-05-01T08:00:00.000Z" |}.

(** A [Date] that is a Wednesday, 8 o'clock, whatever the string. *)
Definition wednesdayMorning (departureTime : string) : PredictApi.JsDate :=
  {| PredictApi.getDay := Fin 3; PredictApi.getHours := Fin 8 |}.

End Cases.

(** * Geohash cells ([calculateGeohash] of [api/src/models]) *)

Module GeohashCells.

Import Models Int32.
Local Open Scope R_scope.

(** The decision of one iteration of the loop of [calculateGeohash]: is the
    coordinate in the upper half of the current interval. *)
Definition upperHalf (lat lng : num) (st : GeohashState) : bool :=
  if isLng st then (lng >=? (minLng st + maxLng st) / Fin 2)%num
  else (lat >=? (minLat st + maxLat st) / Fin 2)%num.

(** The iteration, given its decision. *)
Definition stepWith (up : bool) (st : GeohashState) : GeohashState :=
  let midLng := ((minLng st + maxLng st) / Fin 2)%num in
  let midLat := ((minLat st + maxLat st) / Fin 2)%num in
  let ch' := (2 * ch st + (if up then 1 else 0))%Z in
  let full := (bit st + 1 =? 5)%Z in
  {| minLat := if isLng st then minLat st else if up then midLat else minLat st;
     maxLat := if isLng st then maxLat st else if up then maxLat st else midLat;
     minLng := if isLng st then (if up then midLng else minLng st) else minLng st;
     maxLng := if isLng st then (if up then maxLng st else midLng) else maxLng st;
     hash := if full then append_char_at (hash st) base32 ch' else hash st;
     bit := if full then 0 else bit st + 1;
     ch := if full then 0 else ch';
     isLng := negb (isLng st) |}.

(** The interval of the loop state contains the point, after [kl] longitude
    and [kt] latitude bisections. *)
Definition cellOfPoint (st : GeohashState) (lat lng : R) (kl kt : nat) : Prop :=
  exists a b c d,
    minLat st = Fin a /\ maxLat st = Fin b
    /\ minLng st = Fin c /\ maxLng st = Fin d
    /\ a <= lat <= b /\ c <= lng <= d
    /\ b - a = 180 / 2 ^ kt /\ d - c = 360 / 2 ^ kl
    /\ (if isLng st then kl = kt else kl = S kt).

(** Two loop states have gone apart: the hashes differ, or the characters
    under construction do. *)
Definition apart (st1 st2 : GeohashState) : Prop :=
  hash st1 <> hash st2 \/ ch st1 <> ch st2.

(** Of the [5 * p] bisections behind a geohash of [p] characters, the loop
    spends every second one on the latitude, starting with the longitude. *)
Definition latBits (p : nat) : nat := (5 * p / 2)%nat.
Definition lngBits (p : nat) : nat := (5 * p - 5 * p / 2)%nat.

(** The extent in degrees of a cell of precision [p]. *)
Definition cellHeight (p : nat) : R := 180 / 2 ^ latBits p.
Definition cellWidth (p : nat) : R := 360 / 2 ^ lngBits p.

End GeohashCells.

(** * Properties *)

Import Vehicle Props Scenarios.
Local Open Scope R_scope.

(** ** Arithmetic on finite numbers *)

Lemma add_fin a b : (Fin a + Fin b)%num = Fin (a + b).
Proof. reflexivity. Qed.

Lemma sub_fin a b : (Fin a - Fin b)%num = Fin (a - b).
Proof. reflexivity. Qed.

Lemma mul_fin a b : (Fin a * Fin b)%num = Fin (a * b).
Proof. reflexivity. Qed.

Lemma div_fin a b : b <> 0 -> (Fin a / Fin b)%num = Fin (a / b).
Proof.
  intros. unfold div. destruct (Req_dec_T b 0); [contradiction | reflexivity].
Qed.

Lemma div_fin_pos_zero a : 0 < a -> (Fin a / Fin 0)%num = PInf.
Proof.
  intros. unfold div. destruct (Req_dec_T 0 0); [| lra].
  destruct (Req_dec_T a 0); [lra |]. destruct (Rlt_dec 0 a); [reflexivity | lra].
Qed.

Lemma is_finite_inv a : is_finite a -> exists r, a = Fin r.
Proof. destruct a; simpl; try contradiction. eauto. Qed.

Lemma le_fin a b : (Fin a <= Fin b)%num <-> a <= b.
Proof. unfold le, leb. destruct (Rle_dec a b); split; intros; easy. Qed.

Lemma lt_fin a b : (Fin a < Fin b)%num <-> a < b.
Proof. unfold lt, ltb. destruct (Rlt_dec a b); split; intros; easy. Qed.

Lemma ltb_fin_true a b : a < b -> (Fin a <? Fin b)%num = true.
Proof.
  intros. unfold ltb. destruct (Rlt_dec a b); [reflexivity | contradiction].
Qed.

Lemma ltb_fin_false a b : b <= a -> (Fin a <? Fin b)%num = false.
Proof. intros. unfold ltb. destruct (Rlt_dec a b); [lra | reflexivity]. Qed.

Lemma leb_fin_true a b : a <= b -> (Fin a <=? Fin b)%num = true.
Proof.
  intros. unfold leb. destruct (Rle_dec a b); [reflexivity | contradiction].
Qed.

Lemma leb_fin_false a b : b < a -> (Fin a <=? Fin b)%num = false.
Proof. intros. unfold leb. destruct (Rle_dec a b); [lra | reflexivity]. Qed.

Lemma truthy_fin_true a : a <> 0 -> truthy (Fin a) = true.
Proof.
  intros. unfold truthy. destruct (Req_dec_T a 0); [contradiction | reflexivity].
Qed.

Lemma truthy_fin_false : truthy (Fin 0) = false.
Proof. unfold truthy. destruct (Req_dec_T 0 0); [reflexivity | lra]. Qed.

Lemma max_fin a b : Math_max (Fin a) (Fin b) = Fin (Rmax a b).
Proof.
  unfold Math_max, ltb, Rmax.
  destruct (Rlt_dec a b), (Rle_dec a b); try reflexivity; try lra.
  apply f_equal. lra.
Qed.

Lemma min_fin a b : Math_min (Fin a) (Fin b) = Fin (Rmin a b).
Proof.
  unfold Math_min, ltb, Rmin.
  destruct (Rlt_dec b a), (Rle_dec a b); try reflexivity; lra.
Qed.

Lemma abs_fin a : Math_abs (Fin a) = Fin (Rabs a).
Proof. reflexivity. Qed.

Lemma round_fin a : Math_round (Fin a) = Fin (IZR (Zfloor (a + / 2))).
Proof. reflexivity. Qed.

Lemma round_fin_eq a z :
  IZR z <= a + / 2 < IZR z + 1 -> Math_round (Fin a) = Fin (IZR z).
Proof. intros. unfold Math_round. now rewrite (Zfloor_eq z). Qed.

(** Rounding to the nearest integer moves a value by at most one half. *)
Lemma round_error a : - / 2 < IZR (Zfloor (a + / 2)) - a <= / 2.
Proof. pose proof (Zfloor_bound (a + / 2)). lra. Qed.

Lemma round_mono a b :
  a <= b -> IZR (Zfloor (a + / 2)) <= IZR (Zfloor (b + / 2)).
Proof. intros. apply IZR_le, Zfloor_le. lra. Qed.

Lemma round2R_error u : - 0.005 <= round2R u - u <= 0.005.
Proof. unfold round2R. pose proof (round_error (u * 100)). lra. Qed.

Lemma round2R_eq u z :
  IZR z <= u * 100 + / 2 < IZR z + 1 -> round2R u = IZR z / 100.
Proof. intros. unfold round2R. now rewrite (Zfloor_eq z). Qed.

Ltac fin_simpl :=
  repeat first
    [ rewrite add_fin | rewrite sub_fin | rewrite mul_fin
    | rewrite div_fin by lra ].

(** Evaluation of a closed numeric expression: unfold the program down to the
    operations on numbers, then compute on finite numbers and decide the
    comparisons one at a time. *)
Ltac js_norm :=
  cbv -[Rplus Rmult Rminus Rdiv Rinv Ropp IZR Req_dec_T Rlt_dec Rle_dec
        Zfloor exp Rabs Rlt Rle Rmax Rmin
        JsNum.add JsNum.sub JsNum.mul JsNum.div JsNum.opp
        JsNum.ltb JsNum.leb JsNum.eqb JsNum.truthy
        JsNum.Math_max JsNum.Math_min JsNum.Math_round JsNum.Math_abs
        JsNum.Math_exp Models.geohash_loop].

Ltac js_arith :=
  repeat first
    [ rewrite add_fin | rewrite sub_fin | rewrite mul_fin
    | rewrite div_fin by lra
    | rewrite ltb_fin_true by lra | rewrite ltb_fin_false by lra
    | rewrite leb_fin_true by lra | rewrite leb_fin_false by lra
    | rewrite truthy_fin_true by lra | rewrite truthy_fin_false
    | rewrite max_fin | rewrite min_fin | rewrite abs_fin
    | progress cbv beta iota ].

Ltac js_eval := js_norm; js_arith.

(** ** Whole-route prediction *)

Section EnergyPredictionFacts.

Import EnergyPrediction.

Lemma temperature_efficiency_finite t :
  exists e, getTemperatureEfficiency t = Fin e.
Proof.
  unfold getTemperatureEfficiency, TEMP_very_cold, TEMP_cold, TEMP_optimal,
    TEMP_hot, TEMP_very_hot.
  repeat match goal with |- context [if ?b then _ else _] => destruct b end;
    eexists; reflexivity.
Qed.

Lemma speed_factor_finite v : exists f, getSpeedConsumptionFactor v = Fin f.
Proof.
  unfold getSpeedConsumptionFactor.
  repeat match goal with |- context [if ?b then _ else _] => destruct b end;
    eexists; reflexivity.
Qed.

Lemma traffic_factor_finite d : exists f, TRAFFIC_CONSUMPTION_FACTOR d = Fin f.
Proof. destruct d; eexists; reflexivity. Qed.

Lemma hvac_power_finite m : exists f, HVAC_POWER m = Fin f.
Proof. destruct m; eexists; reflexivity. Qed.

(** On finite inputs every entry of the breakdown is a finite number of the
    following shape. *)
Lemma breakdown_shape route vehicle weather traffic d g l t b e p :
  totalDistance route = Fin d -> totalElevationGain route = Fin g ->
  totalElevationLoss route = Fin l -> estimatedDuration route = Fin t ->
  baseConsumption (variant vehicle) = Fin b ->
  recoveryEfficiency (regenLevel vehicle) = Fin e ->
  payload vehicle = Fin p ->
  finite_weather weather ->
  exists te sf tf hp w : R,
    breakdown (predictTripEnergy route vehicle weather traffic) =
    {| baseConsumptionWh := Fin (b * d);
       elevationCost := Fin ((1560 + p) * 9.81 * g / 3600 * 1000);
       temperatureCost := Fin (b * d * (1 - te));
       speedCost := Fin (b * d * (sf - 1));
       trafficCost := Fin (b * d * (tf - 1));
       hvacCost := Fin (hp * (t / 60) * 1000);
       auxiliaryCost := Fin (0.15 * (t / 60) * 1000);
       regenRecovery := Fin ((1560 + p) * 9.81 * l / 3600 * e * 1000);
       totalConsumption :=
         Fin (b * d + (1560 + p) * 9.81 * g / 3600 * 1000 + b * d * (1 - te)
              + b * d * (sf - 1) + b * d * (tf - 1) + hp * (t / 60) * 1000
              + 0.15 * (t / 60) * 1000 + b * d * w
              - (1560 + p) * 9.81 * l / 3600 * e * 1000) |}.
Proof.
  intros Hd Hg Hl Ht Hb He Hp Hw.
  unfold predictTripEnergy, calculateElevationEnergy, GRAVITY, NEXON_MASS_BASE.
  rewrite Hd, Hg, Hl, Ht, Hb, He, Hp.
  cbn [breakdown].
  destruct (temperature_efficiency_finite
              (match weather with Some w => temperature w | None => Fin 25 end))
    as (te & ->).
  set (spd := match traffic with Some t0 => _ | None => _ end).
  destruct (speed_factor_finite spd) as (sf & ->).
  assert (exists tf,
             match traffic with
             | Some t0 => TRAFFIC_CONSUMPTION_FACTOR (density t0)
             | None => Fin 1
             end = Fin tf) as (tf & ->).
  { destruct traffic; [apply traffic_factor_finite | eexists; reflexivity]. }
  assert (exists hp,
             (if hvacOn vehicle then HVAC_POWER (hvacMode vehicle) else Fin 0)
             = Fin hp) as (hp & ->).
  { destruct (hvacOn vehicle); [apply hvac_power_finite | eexists; reflexivity]. }
  assert (exists hw,
             match weather with
             | Some w => calculateHeadwind spd w
             | None => Fin 0
             end = Fin hw) as (hw & ->).
  { destruct weather as [w|]; [| eexists; reflexivity].
    destruct Hw as [_ Hws]. apply is_finite_inv in Hws as [ws Hws].
    unfold calculateHeadwind. rewrite Hws. eexists; reflexivity. }
  exists te, sf, tf, hp.
  destruct (Fin hw >? Fin 10)%num.
  - exists (0.08 * (hw / 30)). fin_simpl.
    f_equal; try reflexivity; apply f_equal; lra.
  - exists 0. fin_simpl. f_equal; try reflexivity; apply f_equal; lra.
Qed.

Lemma predictedEndSoC_eq route vehicle weather traffic :
  let p := predictTripEnergy route vehicle weather traffic in
  predictedEndSoC p =
  Math_round
    (Math_max (Fin 0)
       (currentSoC vehicle
        - (totalConsumption (breakdown p) / Fin 1000
           / (batteryCapacity (variant vehicle)
              * (batteryHealth vehicle / Fin 100)))
          * Fin 100))%num.
Proof. reflexivity. Qed.

Lemma consumptionPerKm_eq route vehicle weather traffic :
  let p := predictTripEnergy route vehicle weather traffic in
  consumptionPerKm p
  = (totalConsumption (breakdown p) / totalDistance route)%num.
Proof. reflexivity. Qed.

(** C3, at the default vehicle (1560 kg + 75 kg payload, regen 0.18) on
    [climb] (100 m up, 50 m down): the formula mass × g × Δh / 3600 gives
    445.5375 Wh of elevation cost and 40.098375 Wh of regen recovery; the
    breakdown reports both multiplied by 1000. *)
Theorem C3_elevation_cost_thousandfold :
  let b := breakdown (predictTripEnergy climb DEFAULT_VEHICLE_STATE None None) in
  elevationCost b = Fin (1000 * ((1560 + 75) * 9.81 * 100 / 3600))
  /\ regenRecovery b = Fin (1000 * ((1560 + 75) * 9.81 * 50 / 3600 * 0.18))
  /\ elevationCost b <> Fin ((1560 + 75) * 9.81 * 100 / 3600)
  /\ regenRecovery b <> Fin ((1560 + 75) * 9.81 * 50 / 3600 * 0.18).
Proof.
  assert (He : elevationCost
                 (breakdown (predictTripEnergy climb DEFAULT_VEHICLE_STATE
                               None None))
               = Fin (1000 * ((1560 + 75) * 9.81 * 100 / 3600))).
  { js_eval. apply f_equal. lra. }
  assert (Hr : regenRecovery
                 (breakdown (predictTripEnergy climb DEFAULT_VEHICLE_STATE
                               None None))
               = Fin (1000 * ((1560 + 75) * 9.81 * 50 / 3600 * 0.18))).
  { js_eval. apply f_equal. lra. }
  cbv zeta. rewrite He, Hr. repeat split; try reflexivity.
  - intros H. injection H. lra.
  - intros H. injection H. lra.
Qed.

(** C4, counterexample: on a steep descent the regen recovery exceeds all
    costs; the total consumption is negative and the predicted end SoC is
    1898. *)
Lemma C4_counterexample_descent :
  let p := predictTripEnergy descent DEFAULT_VEHICLE_STATE None None in
  totalConsumption (breakdown p) = Fin (-801825)
  /\ predictedEndSoC p = Fin 1898
  /\ ~ ((Fin 0 <= totalConsumption (breakdown p))%num
        /\ (predictedEndSoC p <= Fin 100)%num).
Proof.
  assert (Ht : totalConsumption
                 (breakdown (predictTripEnergy descent DEFAULT_VEHICLE_STATE
                               None None)) = Fin (-801825)).
  { js_eval. apply f_equal. lra. }
  assert (Hs : predictedEndSoC
                 (predictTripEnergy descent DEFAULT_VEHICLE_STATE None None)
               = Fin 1898).
  { js_eval. rewrite (round_fin_eq _ 1898); [reflexivity |].
    unfold Rmax. js_dec. }
  cbv zeta. rewrite Ht, Hs. repeat split.
  intros [H _]. apply le_fin in H. lra.
Qed.

(** C4, as the code has it: on finite inputs with a positive usable battery
    and a start SoC of at most 100, the predicted end SoC is never below 0
    (the only clamp), and it is at most 100 whenever the total consumption,
    the plain signed sum, is not negative. *)
Theorem C4_end_soc_bounds route vehicle weather traffic :
  finite_route route -> finite_vehicle vehicle -> finite_weather weather ->
  (Fin 0 < batteryCapacity (variant vehicle))%num ->
  (Fin 0 < batteryHealth vehicle)%num ->
  (currentSoC vehicle <= Fin 100)%num ->
  let p := predictTripEnergy route vehicle weather traffic in
  (Fin 0 <= predictedEndSoC p)%num
  /\ ((Fin 0 <= totalConsumption (breakdown p))%num ->
      (predictedEndSoC p <= Fin 100)%num).
Proof.
  intros (Hd & Hg & Hl & Ht) (Hc & Hb & Hs & Hh & He & Hp) Hw Hcpos Hhpos Hsle p.
  apply is_finite_inv in Hd as [d Hd], Hg as [g Hg], Hl as [l Hl], Ht as [t Ht],
    Hc as [c Hc], Hb as [b Hb], Hs as [s Hs], Hh as [h Hh], He as [e He],
    Hp as [pl Hp].
  destruct (breakdown_shape route vehicle weather traffic d g l t b e pl)
    as (te & sf & tf & hp & w & Hshape); auto.
  subst p. rewrite predictedEndSoC_eq. cbv zeta. rewrite Hshape.
  cbn [totalConsumption].
  match goal with |- context [(Fin ?X / Fin 1000)%num] => set (T := X) end.
  rewrite Hc, Hh, Hs in *.
  apply lt_fin in Hcpos, Hhpos. apply le_fin in Hsle.
  assert (0 < c * (h / 100)) by nra.
  fin_simpl. rewrite max_fin, round_fin.
  split.
  - apply le_fin. apply IZR_le. apply Zfloor_lub.
    pose proof (Rmax_l 0 (s - T / 1000 / (c * (h / 100)) * 100)). simpl. lra.
  - intros HT. apply le_fin in HT. apply le_fin.
    assert (0 <= T / 1000 / (c * (h / 100)) * 100).
    { apply Rmult_le_pos; [| lra]. unfold Rdiv.
      apply Rmult_le_pos; [lra |]. left. now apply Rinv_0_lt_compat. }
    assert (Rmax 0 (s - T / 1000 / (c * (h / 100)) * 100) <= 100)
      by (apply Rmax_lub; lra).
    apply IZR_le.
    etransitivity; [apply (Zfloor_le _ (100 + / 2)); lra |].
    rewrite (Zfloor_eq 100); [reflexivity | lra].
Qed.

(** The theorem at the default vehicle on [climb]. *)
Lemma C4_end_soc_bounds_witness :
  let p := predictTripEnergy climb DEFAULT_VEHICLE_STATE None None in
  (Fin 0 <= predictedEndSoC p)%num
  /\ ((Fin 0 <= totalConsumption (breakdown p))%num ->
      (predictedEndSoC p <= Fin 100)%num).
Proof.
  apply (C4_end_soc_bounds climb DEFAULT_VEHICLE_STATE None None).
  - repeat split.
  - repeat split.
  - exact I.
  - apply lt_fin. lra.
  - apply lt_fin. lra.
  - apply le_fin. lra.
Defined.

(** C5, counterexample: a route of length zero that takes ten minutes.  The
    auxiliary draw makes the total 25 Wh, not zero, and the unguarded
    normalisation 25 / 0 is +Infinity. *)
Lemma C5_counterexample_standstill :
  let p := predictTripEnergy standstill DEFAULT_VEHICLE_STATE None None in
  totalConsumption (breakdown p) = Fin 25
  /\ totalConsumption (breakdown p) <> Fin 0
  /\ consumptionPerKm p = PInf.
Proof.
  assert (Ht : totalConsumption
                 (breakdown (predictTripEnergy standstill DEFAULT_VEHICLE_STATE
                               None None)) = Fin 25).
  { js_eval. apply f_equal. lra. }
  cbv zeta. rewrite Ht. repeat split.
  - intros H. injection H. lra.
  - js_eval. rewrite div_fin_pos_zero; [reflexivity | lra].
Qed.

(** C5, as the code has it: on finite inputs with a route distance of zero
    nothing is thrown; the distance-proportional costs are zero, the total is
    what elevation, HVAC and auxiliary draw add up to minus the regen
    recovery, and the per-kilometre figure is the unguarded quotient by zero:
    NaN or an infinity, never a finite number. *)
Theorem C5_zero_distance_unguarded route vehicle weather traffic :
  finite_route route -> finite_vehicle vehicle -> finite_weather weather ->
  totalDistance route = Fin 0 ->
  let p := predictTripEnergy route vehicle weather traffic in
  let b := breakdown p in
  baseConsumptionWh b = Fin 0 /\ temperatureCost b = Fin 0
  /\ speedCost b = Fin 0 /\ trafficCost b = Fin 0
  /\ totalConsumption b
     = (elevationCost b + hvacCost b + auxiliaryCost b - regenRecovery b)%num
  /\ ~ is_finite (consumptionPerKm p).
Proof.
  intros (_ & Hg & Hl & Ht) (Hc & Hb & Hs & Hh & He & Hp) Hw Hd p b0.
  apply is_finite_inv in Hg as [g Hg], Hl as [l Hl], Ht as [t Ht],
    Hb as [b Hb], He as [e He], Hp as [pl Hp].
  destruct (breakdown_shape route vehicle weather traffic 0 g l t b e pl)
    as (te & sf & tf & hp & w & Hshape); auto.
  subst b0. assert (Hk := consumptionPerKm_eq route vehicle weather traffic).
  cbv zeta in Hk. subst p. rewrite Hk, Hshape, Hd.
  cbn [baseConsumptionWh temperatureCost speedCost trafficCost totalConsumption
       elevationCost hvacCost auxiliaryCost regenRecovery].
  fin_simpl.
  repeat split; try (apply f_equal; lra).
  match goal with |- context [(Fin ?X / Fin 0)%num] => set (T := X) end.
  unfold div. destruct (Req_dec_T 0 0); [| lra].
  destruct (Req_dec_T T 0); [simpl; tauto |].
  destruct (Rlt_dec 0 T); simpl; tauto.
Qed.

(** The theorem at the default vehicle on [standstill]. *)
Lemma C5_zero_distance_unguarded_witness :
  let p := predictTripEnergy standstill DEFAULT_VEHICLE_STATE None None in
  let b := breakdown p in
  baseConsumptionWh b = Fin 0 /\ temperatureCost b = Fin 0
  /\ speedCost b = Fin 0 /\ trafficCost b = Fin 0
  /\ totalConsumption b
     = (elevationCost b + hvacCost b + auxiliaryCost b - regenRecovery b)%num
  /\ ~ is_finite (consumptionPerKm p).
Proof.
  apply (C5_zero_distance_unguarded standstill DEFAULT_VEHICLE_STATE None None).
  - repeat split.
  - repeat split.
  - exact I.
  - reflexivity.
Defined.

End EnergyPredictionFacts.

(** ** Geohash *)

Section GeohashFacts.

Import Models Int32.

Lemma string_length_app (s t : string) :
  String.length (s +:+ t) = (String.length s + String.length t)%nat.
Proof.
  induction s as [| c s IH]; [reflexivity |].
  change (String c s +:+ t) with (String c (s +:+ t)). simpl. congruence.
Qed.

Lemma uses_alphabet_app (s t : string) :
  uses_alphabet (s +:+ t) = uses_alphabet s && uses_alphabet t.
Proof.
  unfold uses_alphabet. induction s as [| c s IH]; [reflexivity |].
  change (String c s +:+ t) with (String c (s +:+ t)). simpl.
  rewrite IH. now rewrite andb_assoc.
Qed.

Lemma small_Z_cases (bound : nat) (c : Z) :
  (0 <= c < Z.of_nat bound)%Z -> exists n, c = Z.of_nat n /\ (n < bound)%nat.
Proof. intros H. exists (Z.to_nat c). lia. Qed.

(** Every five-bit value indexes a character of the alphabet. *)
Lemma base32_char (c : Z) :
  (0 <= c < 32)%Z ->
  exists a, char_at base32 c = Some a /\ in_alphabet a = true.
Proof.
  intros H. destruct (small_Z_cases 32 c H) as (n & -> & Hn).
  do 32 (destruct n as [| n]; [vm_compute; eauto |]). lia.
Qed.

Lemma shl_one (c : Z) : (0 <= c < 16)%Z -> shl c 1 = (2 * c)%Z.
Proof.
  intros H. destruct (small_Z_cases 16 c H) as (n & -> & Hn).
  do 16 (destruct n as [| n]; [vm_compute; reflexivity |]). lia.
Qed.

Lemma bor_shl_one (c : Z) : (0 <= c < 16)%Z -> bor (shl c 1) 1 = (2 * c + 1)%Z.
Proof.
  intros H. destruct (small_Z_cases 16 c H) as (n & -> & Hn).
  do 16 (destruct n as [| n]; [vm_compute; reflexivity |]). lia.
Qed.

Lemma geohash_bisect_ch lat lng st b :
  bit st = Z.of_nat b -> (b < 5)%nat -> (0 <= ch st < 2 ^ Z.of_nat b)%Z ->
  exists a1 a2 a3 a4 c,
    geohash_bisect lat lng st = (a1, a2, a3, a4, c)
    /\ (0 <= c < 2 ^ Z.of_nat (S b))%Z.
Proof.
  intros Hb Hlt Hc.
  assert (Hc16 : (0 <= ch st < 16)%Z).
  { split; [lia |]. eapply Z.lt_le_trans; [apply Hc |].
    change 16%Z with (2 ^ 4)%Z. apply Z.pow_le_mono_r; lia. }
  assert (H2 : (2 ^ Z.of_nat (S b) = 2 * 2 ^ Z.of_nat b)%Z).
  { rewrite Nat2Z.inj_succ, Z.pow_succ_r; lia. }
  unfold geohash_bisect.
  destruct (isLng st);
    match goal with |- context [if ?c then _ else _] => destruct c end;
    do 5 eexists; (split; [reflexivity |]);
    rewrite ?bor_shl_one, ?shl_one by assumption; lia.
Qed.

Lemma geohash_step_inv lat lng st q b :
  geohash_inv st q b ->
  if Nat.eq_dec b 4%nat
  then geohash_inv (geohash_step lat lng st) (S q) 0%nat
  else geohash_inv (geohash_step lat lng st) q (S b).
Proof.
  intros (Hlen & Halpha & Hbit & Hb & Hch).
  destruct (geohash_bisect_ch lat lng st b Hbit Hb Hch)
    as (a1 & a2 & a3 & a4 & c & Hbis & Hc).
  unfold geohash_step. rewrite Hbis, Hbit.
  destruct (Nat.eq_dec b 4%nat) as [-> | Hne].
  - change (Z.of_nat 4 + 1 =? 5)%Z with true. cbv iota.
    destruct (base32_char c) as (a & Ha & Hin); [exact Hc |].
    unfold geohash_inv, append_char_at. rewrite Ha. cbn [hash bit ch].
    rewrite string_length_app, uses_alphabet_app, Halpha, Hlen.
    change (uses_alphabet (String a "")) with (in_alphabet a && true).
    rewrite Hin. cbn [String.length]. repeat split; try lia.
  - destruct (Z.of_nat b + 1 =? 5)%Z eqn:E; [apply Z.eqb_eq in E; lia |].
    unfold geohash_inv. cbn [hash bit ch].
    repeat split; try assumption; try lia.
Qed.

(** The loop exits within five iterations per missing character. *)
Lemma geohash_loop_total lat lng (p : nat) :
  forall fuel st q b,
    geohash_inv st q b -> (q <= p)%nat -> (5 * (p - q) <= fuel + b)%nat ->
    exists h, geohash_loop fuel lat lng (Z.of_nat p) st = Some h
              /\ String.length h = p /\ uses_alphabet h = true.
Proof.
  induction fuel as [| fuel IH]; intros st q b Hinv Hq Hfuel.
  - destruct Hinv as (Hlen & Halpha & Hbit & Hb & Hch).
    assert (Hqp : q = p) by lia.
    cbn [geohash_loop]. rewrite Hlen, Hqp, Z.ltb_irrefl.
    exists (hash st). rewrite Hlen. auto.
  - pose proof Hinv as (Hlen & Halpha & Hbit & Hb & Hch).
    cbn [geohash_loop]. rewrite Hlen.
    destruct (Z.of_nat q <? Z.of_nat p)%Z eqn:E.
    + apply Z.ltb_lt in E.
      pose proof (geohash_step_inv lat lng st q b Hinv) as Hstep.
      destruct (Nat.eq_dec b 4%nat).
      * apply (IH _ (S q) 0%nat Hstep); lia.
      * apply (IH _ q (S b) Hstep); lia.
    + apply Z.ltb_ge in E. assert (Hqp : q = p) by lia.
      exists (hash st). rewrite Hlen. auto.
Qed.

Lemma geohash_init_inv : geohash_inv geohash_init 0%nat 0%nat.
Proof. unfold geohash_inv. cbn. repeat split; lia. Qed.

(** C9: for every latitude and longitude (in range or not) and every positive
    integer precision, the loop terminates and returns a string of exactly
    that length over the 32-character alphabet; the result is a function of
    the inputs. *)
Theorem C9_geohash_length_alphabet lat lng (precision : Z) :
  (0 < precision)%Z ->
  exists h,
    calculateGeohash lat lng precision = Some h
    /\ Z.of_nat (String.length h) = precision
    /\ uses_alphabet h = true
    /\ (forall lat' lng',
          lat' = lat -> lng' = lng ->
          calculateGeohash lat' lng' precision = Some h).
Proof.
  intros Hp. unfold calculateGeohash.
  destruct (geohash_loop_total lat lng (Z.to_nat precision)
              (5 * Z.to_nat precision)%nat geohash_init 0%nat 0%nat
              geohash_init_inv)
    as (h & Hh & Hlen & Halpha); [lia | lia |].
  rewrite Z2Nat.id in Hh by lia.
  exists h. repeat split; [exact Hh | lia | exact Halpha |].
  intros lat' lng' -> ->. exact Hh.
Qed.

(** The theorem at 18.52 N, 73.86 E and the default precision 6. *)
Lemma C9_geohash_length_alphabet_witness :
  exists h,
    calculateGeohash (Fin 18.52) (Fin 73.86) 6 = Some h
    /\ Z.of_nat (String.length h) = 6%Z
    /\ uses_alphabet h = true
    /\ (forall lat' lng',
          lat' = Fin 18.52 -> lng' = Fin 73.86 ->
          calculateGeohash lat' lng' 6 = Some h).
Proof. apply (C9_geohash_length_alphabet (Fin 18.52) (Fin 73.86) 6). lia. Defined.

Lemma geohash_loop_S fuel lat lng precision st :
  geohash_loop (S fuel) lat lng precision st =
  if (Z.of_nat (String.length (hash st)) <? precision)%Z
  then geohash_loop fuel lat lng precision (geohash_step lat lng st)
  else Some (hash st).
Proof. reflexivity. Qed.

Ltac geohash_iter := rewrite geohash_loop_S; js_norm; js_arith.

(** Two known values: the cell of the origin, and the cell of 57.64911 N,
    10.40744 E. *)
Example geohash_origin : calculateGeohash (Fin 0) (Fin 0) 1 = Some "s".
Proof.
  unfold calculateGeohash. js_norm. do 5 geohash_iter. reflexivity.
Qed.

Example geohash_jutland :
  calculateGeohash (Fin 57.64911) (Fin 10.40744) 6 = Some "u4pruy".
Proof.
  unfold calculateGeohash. js_norm. do 30 geohash_iter. reflexivity.
Qed.

End GeohashFacts.

(** ** Confidence *)

Section ConfidenceFacts.

Import Models.

Lemma calculateConfidence_fin n s :
  calculateConfidence (Fin n) (Fin s) = Fin (confidenceR n s).
Proof.
  unfold calculateConfidence, confidenceR, sampleConfidenceR,
    varianceMultiplierR.
  cbn [opp Math_exp]. fin_simpl. cbn [Math_exp]. fin_simpl.
  rewrite max_fin. fin_simpl. rewrite round_fin. fin_simpl. reflexivity.
Qed.

Lemma exp_le_mono x y : x <= y -> exp x <= exp y.
Proof.
  intros [H | ->]; [left; now apply exp_increasing | right; reflexivity].
Qed.

Lemma sampleConfidenceR_mono n n' :
  n <= n' -> sampleConfidenceR n <= sampleConfidenceR n'.
Proof.
  intros H. unfold sampleConfidenceR.
  assert (exp (- n' / 50) <= exp (- n / 50)) by (apply exp_le_mono; lra). lra.
Qed.

Lemma sampleConfidenceR_range n : 0 <= n -> 0 <= sampleConfidenceR n < 1.
Proof.
  intros H. unfold sampleConfidenceR.
  pose proof (exp_pos (- n / 50)).
  assert (exp (- n / 50) <= exp 0) by (apply exp_le_mono; lra).
  rewrite exp_0 in *. lra.
Qed.

Lemma varianceMultiplierR_anti s s' :
  s <= s' -> varianceMultiplierR s' <= varianceMultiplierR s.
Proof.
  intros H. unfold varianceMultiplierR.
  apply Rmax_lub.
  - apply Rmax_l.
  - eapply Rle_trans; [| apply Rmax_r]. lra.
Qed.

Lemma varianceMultiplierR_range s :
  0 <= s -> 0.3 <= varianceMultiplierR s <= 1.
Proof.
  intros H. unfold varianceMultiplierR. split; [apply Rmax_l |].
  apply Rmax_lub; lra.
Qed.

Lemma varianceMultiplierR_pos s : 0 < varianceMultiplierR s.
Proof.
  unfold varianceMultiplierR. pose proof (Rmax_l 0.3 (1 - s / 100)). lra.
Qed.

Lemma exp_20_large : 200 <= exp 20.
Proof.
  replace 20 with (5 + 5 + (5 + 5)) by lra.
  rewrite !exp_plus. pose proof (exp_ineq1_le 5) as H.
  set (e := exp 5) in *. assert (36 <= e * e) by nra. nra.
Qed.

Lemma confidenceR_zero s : confidenceR 0 s = 0.
Proof.
  unfold confidenceR, sampleConfidenceR.
  replace (Ropp 0 / 50) with 0 by lra. rewrite exp_0.
  rewrite (Zfloor_eq 0); lra.
Qed.

Lemma confidenceR_1000 : confidenceR 1000 0 = 1.
Proof.
  unfold confidenceR, sampleConfidenceR, varianceMultiplierR.
  replace (1 - 0 / 100) with 1 by lra. rewrite Rmax_right by lra.
  replace (Ropp 1000 / 50) with (Ropp 20) by lra. rewrite exp_Ropp.
  pose proof exp_20_large. pose proof (exp_pos 20).
  assert (0 < / exp 20) by now apply Rinv_0_lt_compat.
  assert (/ exp 20 <= / 200) by (apply Rinv_le_contravar; lra).
  rewrite (Zfloor_eq 100); lra.
Qed.

(** C8: on finite arguments, the confidence lies in [0, 1] for a sample count
    [n >= 0] and a standard deviation [s >= 0]; for a fixed deviation it does
    not decrease when the sample count grows; for a fixed sample count
    [n >= 0] it does not increase when the deviation grows; and
    [confidence(0, s) < confidence(1000, 0)] for every [s]. *)
Theorem C8_confidence_properties :
  (forall n s : R,
      0 <= n -> 0 <= s ->
      (Fin 0 <= calculateConfidence (Fin n) (Fin s))%num
      /\ (calculateConfidence (Fin n) (Fin s) <= Fin 1)%num)
  /\ (forall n n' s : R,
        n <= n' ->
        (calculateConfidence (Fin n) (Fin s)
         <= calculateConfidence (Fin n') (Fin s))%num)
  /\ (forall n s s' : R,
        0 <= n -> s <= s' ->
        (calculateConfidence (Fin n) (Fin s')
         <= calculateConfidence (Fin n) (Fin s))%num)
  /\ (forall s : R,
        (calculateConfidence (Fin 0) (Fin s)
         < calculateConfidence (Fin 1000) (Fin 0))%num).
Proof.
  split; [| split; [| split]].
  - intros n s Hn Hs. rewrite !calculateConfidence_fin, !le_fin.
    pose proof (sampleConfidenceR_range n Hn) as Hsc.
    pose proof (varianceMultiplierR_range s Hs) as Hvm.
    unfold confidenceR. split.
    + assert (0 <= IZR (Zfloor (sampleConfidenceR n * varianceMultiplierR s
                                * 100 + / 2))).
      { apply IZR_le, Zfloor_lub. simpl. nra. }
      lra.
    + assert (IZR (Zfloor (sampleConfidenceR n * varianceMultiplierR s
                           * 100 + / 2)) <= 100).
      { apply IZR_le.
        etransitivity; [apply (Zfloor_le _ (100 + / 2)); nra |].
        rewrite (Zfloor_eq 100); [reflexivity | lra]. }
      lra.
  - intros n n' s Hnn. rewrite !calculateConfidence_fin, le_fin.
    pose proof (sampleConfidenceR_mono n n' Hnn) as Hscm.
    pose proof (varianceMultiplierR_pos s) as Hvp.
    unfold confidenceR.
    assert (IZR (Zfloor (sampleConfidenceR n * varianceMultiplierR s
                         * 100 + / 2))
            <= IZR (Zfloor (sampleConfidenceR n' * varianceMultiplierR s
                            * 100 + / 2))).
    { apply round_mono. nra. }
    lra.
  - intros n s s' Hn Hss. rewrite !calculateConfidence_fin, le_fin.
    pose proof (sampleConfidenceR_range n Hn) as Hsc.
    pose proof (varianceMultiplierR_anti s s' Hss) as Hvma.
    unfold confidenceR.
    assert (IZR (Zfloor (sampleConfidenceR n * varianceMultiplierR s'
                         * 100 + / 2))
            <= IZR (Zfloor (sampleConfidenceR n * varianceMultiplierR s
                            * 100 + / 2))).
    { apply round_mono. nra. }
    lra.
  - intros s. rewrite !calculateConfidence_fin, lt_fin.
    rewrite confidenceR_zero, confidenceR_1000. lra.
Qed.

(** The theorem at 50 and 200 samples and deviations of 20 and 60 Wh/km. *)
Lemma C8_confidence_properties_witness :
  ((Fin 0 <= calculateConfidence (Fin 50) (Fin 20))%num
   /\ (calculateConfidence (Fin 50) (Fin 20) <= Fin 1)%num)
  /\ (calculateConfidence (Fin 50) (Fin 20)
      <= calculateConfidence (Fin 200) (Fin 20))%num
  /\ (calculateConfidence (Fin 50) (Fin 60)
      <= calculateConfidence (Fin 50) (Fin 20))%num
  /\ (calculateConfidence (Fin 0) (Fin 20)
      < calculateConfidence (Fin 1000) (Fin 0))%num.
Proof.
  destruct C8_confidence_properties as (Hrange & Hcount & Hdev & Hzero).
  split; [apply Hrange; lra |].
  split; [apply Hcount; lra |].
  split; [apply Hdev; lra | apply Hzero].
Defined.

Lemma exp_upper_small x : 0 <= x < 1 -> exp x <= / (1 - x).
Proof.
  intros Hx. pose proof (exp_ineq1_le (- x)) as H.
  assert (Hm : exp x * exp (- x) = 1).
  { rewrite <- exp_plus. replace (x + - x) with 0 by lra. apply exp_0. }
  pose proof (exp_pos x) as Hp.
  assert (H1 : 0 < 1 - x) by lra.
  apply (Rmult_le_reg_r (1 - x)); [exact H1|].
  rewrite Rinv_l by lra. nra.
Qed.

Lemma sampleConfidenceR_minus_10 :
  - 0.25 <= sampleConfidenceR (-10) <= - 0.2.
Proof.
  unfold sampleConfidenceR. replace (- -10 / 50) with 0.2 by lra.
  pose proof (exp_ineq1_le 0.2) as Hlo.
  pose proof (exp_upper_small 0.2 ltac:(lra)) as Hhi.
  replace (/ (1 - 0.2)) with 1.25 in Hhi by lra. lra.
Qed.

Lemma confidenceR_negative_count : confidenceR (-10) 0 <= - 0.2.
Proof.
  unfold confidenceR, varianceMultiplierR.
  rewrite Rmax_right by lra. pose proof sampleConfidenceR_minus_10 as Hs.
  assert (Hz : (Zfloor (sampleConfidenceR (-10) * (1 - 0 / 100) * 100 + / 2)
                <= -20)%Z).
  { etransitivity; [apply (Zfloor_le _ (- 19.5)); lra |].
    rewrite (Zfloor_eq (-20)); [lia | lra]. }
  apply IZR_le in Hz. lra.
Qed.

Lemma confidenceR_negative_count_deviation :
  - 0.07 <= confidenceR (-10) 100.
Proof.
  unfold confidenceR, varianceMultiplierR.
  rewrite Rmax_left by lra. pose proof sampleConfidenceR_minus_10 as Hs.
  assert (Hz : (-7 <= Zfloor (sampleConfidenceR (-10) * 0.3 * 100 + / 2))%Z).
  { apply Zfloor_lub. lra. }
  apply IZR_le in Hz. lra.
Qed.

Lemma confidenceR_negative_deviation : 1.99 <= confidenceR 1000 (-100).
Proof.
  unfold confidenceR, sampleConfidenceR, varianceMultiplierR.
  rewrite Rmax_right by lra.
  replace (Ropp 1000 / 50) with (Ropp 20) by lra. rewrite exp_Ropp.
  pose proof exp_20_large. pose proof (exp_pos 20).
  assert (/ exp 20 <= / 200) by (apply Rinv_le_contravar; lra).
  assert (Hz : (199 <= Zfloor ((1 - / exp 20) * (1 - -100 / 100) * 100
                               + / 2))%Z).
  { apply Zfloor_lub. lra. }
  apply IZR_le in Hz. lra.
Qed.

(** C8, counterexample: outside the arguments the function is meant for, the
    properties fail.  A negative sample count gives a negative confidence; a
    negative deviation gives a confidence above 1; and for a negative sample
    count the confidence grows with the deviation. *)
Lemma C8_counterexample_negative_arguments :
  ~ (Fin 0 <= calculateConfidence (Fin (-10)) (Fin 0))%num
  /\ ~ (calculateConfidence (Fin 1000) (Fin (-100)) <= Fin 1)%num
  /\ 0 <= 100
  /\ ~ (calculateConfidence (Fin (-10)) (Fin 100)
        <= calculateConfidence (Fin (-10)) (Fin 0))%num.
Proof.
  rewrite !calculateConfidence_fin, !le_fin.
  pose proof confidenceR_negative_count.
  pose proof confidenceR_negative_count_deviation.
  pose proof confidenceR_negative_deviation.
  repeat split; lra.
Qed.

End ConfidenceFacts.

(** ** The crowd store *)

Section CrowdStoreFacts.

Import Models CosmosDb.

Lemma crowd_put_lookup item db :
  crowdContainer (crowd_put item db)
  !! (CrowdSegment.id item, CrowdSegment.geohash item) = Some item.
Proof. unfold crowd_put. cbn [crowdContainer]. apply lookup_insert_eq. Qed.

Lemma crowd_put_lookup_ne item db k :
  (CrowdSegment.id item, CrowdSegment.geohash item) <> k ->
  crowdContainer (crowd_put item db) !! k = crowdContainer db !! k.
Proof.
  intros H. unfold crowd_put. cbn [crowdContainer]. now apply lookup_insert_ne.
Qed.

Lemma crowd_put_ok item db :
  store_ok db -> is_finite (CrowdSegment.sampleCount item) ->
  store_ok (crowd_put item db).
Proof.
  intros Hok Hfin k e. unfold crowd_put. cbn [crowdContainer].
  destruct (decide ((CrowdSegment.id item, CrowdSegment.geohash item) = k))
    as [<- | Hne].
  - rewrite lookup_insert_eq. intros [= <-]. split; [reflexivity | exact Hfin].
  - rewrite lookup_insert_ne by exact Hne. apply Hok.
Qed.

(** Without a record under the segment's id the read resolves without a
    resource: the [if (existing)] block is skipped and nothing was thrown. *)
Lemma updateCrowdSegment_absent segment trip now db :
  crowdContainer db !! segmentKey segment = None ->
  updateCrowdSegment segment trip now db = inr ((false, false), db).
Proof.
  intros H. unfold updateCrowdSegment, item_read.
  unfold segmentKey in H. now rewrite H.
Qed.

Lemma updateCrowdSegment_present segment trip now db existing :
  crowdContainer db !! segmentKey segment = Some existing ->
  updateCrowdSegment segment trip now db
  = inr ((false, true),
         crowd_put (updateExisting existing segment trip now) db).
Proof.
  intros H. unfold updateCrowdSegment, item_read.
  unfold segmentKey in H. now rewrite H.
Qed.

Lemma newSegment_key segment trip now :
  (CrowdSegment.id (newSegment segment trip now),
   CrowdSegment.geohash (newSegment segment trip now)) = segmentKey segment.
Proof. reflexivity. Qed.

Lemma updateExisting_key existing segment trip now :
  (CrowdSegment.id (updateExisting existing segment trip now),
   CrowdSegment.geohash (updateExisting existing segment trip now))
  = (CrowdSegment.id existing, CrowdSegment.geohash existing).
Proof. reflexivity. Qed.

Lemma updateExisting_count existing segment trip now n :
  CrowdSegment.sampleCount existing = Fin n ->
  CrowdSegment.sampleCount (updateExisting existing segment trip now)
  = Fin (n + 1).
Proof.
  intros H. unfold updateExisting. cbn [CrowdSegment.sampleCount].
  now rewrite H.
Qed.

(** The stored average after an update: the incremental mean, rounded to two
    decimals. *)
Lemma updateExisting_avg existing segment trip now n a x :
  CrowdSegment.sampleCount existing = Fin n -> 0 <= n ->
  AggregatedConsumption.avgWhPerKm (CrowdSegment.aggregatedData existing)
  = Fin a ->
  TripSegment.whPerKm segment = Fin x ->
  AggregatedConsumption.avgWhPerKm
    (CrowdSegment.aggregatedData (updateExisting existing segment trip now))
  = Fin (round2R (a + (x - a) / (n + 1))).
Proof.
  intros Hn Hpos Ha Hx. unfold updateExisting, round2R.
  cbn [CrowdSegment.aggregatedData AggregatedConsumption.avgWhPerKm].
  rewrite Hn, Ha, Hx. fin_simpl. rewrite round_fin. fin_simpl. reflexivity.
Qed.

Example segmentId_leg_12 : segmentId (segmentAt 12 150) = "tdr1wx-12".
Proof. reflexivity. Qed.

(** The segment key determines the cell and the start index. *)
Lemma segmentKey_inj s1 s2 :
  segmentKey s1 = segmentKey s2 ->
  TripSegment.geohash s1 = TripSegment.geohash s2
  /\ TripSegment.startIndex s1 = TripSegment.startIndex s2.
Proof.
  unfold segmentKey, segmentId. intros [= Hid Hgeo]. split; [exact Hgeo |].
  rewrite Hgeo in Hid.
  apply (inj (String.app _)) in Hid. apply (inj (String.app _)) in Hid.
  now apply (inj pretty) in Hid.
Qed.

(** The store of the examples. *)
Lemma cellStore_lookup :
  crowdContainer cellStore !! ("tdr1wx-0", "tdr1wx") = Some firstSample.
Proof. apply (crowd_put_lookup firstSample empty_db). Qed.

Lemma empty_db_ok : store_ok empty_db.
Proof. intros k e. unfold empty_db. cbn. now rewrite lookup_empty. Qed.

Lemma cellStore_ok : store_ok cellStore.
Proof. apply crowd_put_ok; [apply empty_db_ok | exact I]. Qed.

Lemma empty_db_shares userId : shares empty_db userId.
Proof. unfold shares, empty_db. cbn. now rewrite lookup_empty. Qed.

Lemma cellStore_shares userId : shares cellStore userId.
Proof. unfold shares, cellStore, crowd_put. cbn. now rewrite lookup_empty. Qed.

(** *** Running average *)

Lemma aggregate_start db k e n a :
  crowdContainer db !! k = Some e ->
  (CrowdSegment.id e, CrowdSegment.geohash e) = k ->
  CrowdSegment.sampleCount e = Fin (INR n) ->
  AggregatedConsumption.avgWhPerKm (CrowdSegment.aggregatedData e) = Fin a ->
  aggregate_of db k n 0 (INR n * a).
Proof.
  intros Hlook Hkey Hn Ha. exists e, a.
  repeat (split; [assumption |]). cbn [INR]. lra.
Qed.

Lemma aggregate_next segment trip now db n m total :
  is_finite (TripSegment.whPerKm segment) ->
  aggregate_of db (segmentKey segment) n m total ->
  exists db',
    updateCrowdSegment segment trip now db = inr ((false, true), db')
    /\ aggregate_of db' (segmentKey segment) (S n) (S m)
         (sampleValue segment + total).
Proof.
  intros Hfin (e & a & Hlook & Hkey & Hcount & Havg & Hbound).
  apply is_finite_inv in Hfin as [x Hx].
  rewrite (updateCrowdSegment_present _ _ _ _ e Hlook).
  eexists; split; [reflexivity |].
  pose proof (pos_INR n) as HnR. pose proof (pos_INR m) as HmR.
  pose proof (updateExisting_count e segment trip now (INR n) Hcount) as Hc'.
  pose proof (updateExisting_avg e segment trip now (INR n) a x Hcount
                HnR Havg Hx) as Ha'.
  exists (updateExisting e segment trip now). eexists.
  rewrite <- Hkey at 1. rewrite <- (updateExisting_key e segment trip now).
  rewrite crowd_put_lookup. rewrite updateExisting_key.
  split; [reflexivity |]. split; [exact Hkey |].
  split; [rewrite S_INR; exact Hc' |]. split; [exact Ha' |].
  unfold sampleValue. rewrite Hx. rewrite !S_INR.
  set (u := a + (x - a) / (INR n + 1)).
  pose proof (round2R_error u) as Hr.
  set (a' := round2R u) in *.
  assert (Hu : (INR n + 1) * u = INR n * a + x) by (unfold u; field; lra).
  nra.
Qed.

Lemma ingestAll_aggregate samples : forall now db k n m total,
  aggregate_of db k n m total ->
  Forall (for_key k) samples ->
  exists db',
    ingestAll samples now db = inr db'
    /\ aggregate_of db' k (n + length samples) (m + length samples)
         (total + sumSamples samples).
Proof.
  induction samples as [| [segment trip] rest IH];
    intros now db k n m total Hagg Hall.
  - exists db. split; [reflexivity |]. cbn.
    rewrite !Nat.add_0_r, Rplus_0_r. exact Hagg.
  - inversion Hall as [| ? ? [Hk Hfin] Hrest]; subst. cbn in Hfin.
    destruct (aggregate_next segment trip now db n m total Hfin Hagg)
      as (db1 & Hup & Hagg1).
    cbn [ingestAll]. rewrite Hup.
    destruct (IH now db1 (segmentKey segment) (S n) (S m)
                (sampleValue segment + total))
      as (db' & Hing & Hagg'); [exact Hagg1 | exact Hrest |].
    exists db'. split; [exact Hing |].
    cbn [length sumSamples]. rewrite !Nat.add_succ_r.
    replace (total + (sampleValue segment + sumSamples rest))
      with (sampleValue segment + total + sumSamples rest) by lra.
    exact Hagg'.
Qed.

(** C1, counterexample: the samples 160 and 160 for the aggregate of one
    sample of 150.  The stored average goes 150, 155, 156.67; the mean of
    the three samples is 470/3. *)
Lemma C1_counterexample_rounding :
  exists db' e,
    CrowdSegment.sampleCount firstSample = Fin 1
    /\ AggregatedConsumption.avgWhPerKm (CrowdSegment.aggregatedData firstSample)
       = Fin 150
    /\ ingestAll [(segmentAt 0 160, commute); (segmentAt 0 160, commute)]
         noon cellStore = inr db'
    /\ crowdContainer db' !! ("tdr1wx-0", "tdr1wx") = Some e
    /\ CrowdSegment.sampleCount e = Fin 3
    /\ AggregatedConsumption.avgWhPerKm (CrowdSegment.aggregatedData e)
       = Fin 156.67
    /\ 1e-6 < Rabs (156.67 - (150 + 160 + 160) / 3).
Proof.
  set (k := ("tdr1wx-0", "tdr1wx") : string * string).
  set (e1 := firstSample).
  set (e2 := updateExisting e1 (segmentAt 0 160) commute noon).
  set (e3 := updateExisting e2 (segmentAt 0 160) commute noon).
  set (db2 := crowd_put e2 cellStore).
  set (db3 := crowd_put e3 db2).
  assert (H1 : crowdContainer cellStore !! k = Some e1)
    by apply cellStore_lookup.
  assert (H2 : crowdContainer db2 !! k = Some e2) by apply crowd_put_lookup.
  assert (H3 : crowdContainer db3 !! k = Some e3) by apply crowd_put_lookup.
  assert (Hc1 : CrowdSegment.sampleCount e1 = Fin 1) by reflexivity.
  assert (Ha1 : AggregatedConsumption.avgWhPerKm
                  (CrowdSegment.aggregatedData e1) = Fin 150) by reflexivity.
  assert (Hc2 : CrowdSegment.sampleCount e2 = Fin 2).
  { unfold e2. rewrite (updateExisting_count _ _ _ _ 1 Hc1).
    apply f_equal. lra. }
  assert (Ha2 : AggregatedConsumption.avgWhPerKm
                  (CrowdSegment.aggregatedData e2) = Fin 155).
  { unfold e2.
    rewrite (updateExisting_avg e1 (segmentAt 0 160) commute noon 1 150 160
               Hc1 ltac:(lra) Ha1 eq_refl).
    apply f_equal. rewrite (round2R_eq _ 15500); lra. }
  assert (Hc3 : CrowdSegment.sampleCount e3 = Fin 3).
  { unfold e3. rewrite (updateExisting_count _ _ _ _ 2 Hc2).
    apply f_equal. lra. }
  assert (Ha3 : AggregatedConsumption.avgWhPerKm
                  (CrowdSegment.aggregatedData e3) = Fin 156.67).
  { unfold e3.
    rewrite (updateExisting_avg e2 (segmentAt 0 160) commute noon 2 155 160
               Hc2 ltac:(lra) Ha2 eq_refl).
    apply f_equal. rewrite (round2R_eq _ 15667); lra. }
  exists db3, e3. split; [exact Hc1 |]. split; [exact Ha1 |]. split.
  - cbn [ingestAll].
    rewrite (updateCrowdSegment_present _ _ _ cellStore e1) by exact H1.
    fold e2 db2.
    rewrite (updateCrowdSegment_present _ _ _ db2 e2) by exact H2.
    reflexivity.
  - repeat split; try assumption.
    unfold Rabs. destruct (Rcase_abs _); lra.
Qed.

(** C1, as the code has it: the stored average is rounded to two decimals at
    every update.  After [N] finite samples have been fed one at a time to
    an aggregate that held [n >= 1] samples with the average [a], the
    aggregate holds [sampleCount = n + N] and an average within [0.005 * N]
    of the mean [(n * a + sum) / (n + N)]. *)
Theorem C1_running_average_bound k samples now db e n a :
  crowdContainer db !! k = Some e ->
  (CrowdSegment.id e, CrowdSegment.geohash e) = k ->
  CrowdSegment.sampleCount e = Fin (INR n) -> (1 <= n)%nat ->
  AggregatedConsumption.avgWhPerKm (CrowdSegment.aggregatedData e) = Fin a ->
  Forall (for_key k) samples ->
  exists db' e' a',
    ingestAll samples now db = inr db'
    /\ crowdContainer db' !! k = Some e'
    /\ CrowdSegment.sampleCount e' = Fin (INR (n + length samples))
    /\ AggregatedConsumption.avgWhPerKm (CrowdSegment.aggregatedData e')
       = Fin a'
    /\ Rabs (a' - (INR n * a + sumSamples samples) / INR (n + length samples))
       <= 0.005 * INR (length samples).
Proof.
  intros Hlook Hkey Hn Hpos Ha Hall.
  pose proof (aggregate_start db k e n a Hlook Hkey Hn Ha) as Hagg.
  destruct (ingestAll_aggregate samples now db k n 0%nat _ Hagg Hall)
    as (db' & Hing & (e' & a' & Hlook' & _ & Hcount & Havg & Hbound)).
  exists db', e', a'. cbn [Nat.add] in Hbound.
  repeat (split; [assumption |]).
  set (N := INR (n + length samples)) in *.
  set (M := INR (length samples)) in *.
  set (total := INR n * a + sumSamples samples) in *.
  assert (HNpos : 1 <= N).
  { unfold N. apply (le_INR 1). lia. }
  assert (HM : 0 <= M) by apply pos_INR.
  assert (Hdiv : a' - total / N = (N * a' - total) / N) by (field; lra).
  rewrite Hdiv. apply Rabs_le.
  split.
  - apply Rmult_le_reg_r with N; [lra |].
    unfold Rdiv. rewrite Rmult_assoc, Rinv_l by lra. lra.
  - apply Rmult_le_reg_r with N; [lra |].
    unfold Rdiv. rewrite Rmult_assoc, Rinv_l by lra. lra.
Qed.

(** The theorem at the samples 160, 160 and the aggregate of one sample of
    150. *)
Lemma C1_running_average_bound_witness :
  exists db' e' a',
    ingestAll [(segmentAt 0 160, commute); (segmentAt 0 160, commute)] noon
      cellStore = inr db'
    /\ crowdContainer db' !! ("tdr1wx-0", "tdr1wx") = Some e'
    /\ CrowdSegment.sampleCount e' = Fin (INR (1 + 2))
    /\ AggregatedConsumption.avgWhPerKm (CrowdSegment.aggregatedData e')
       = Fin a'
    /\ Rabs (a' - (INR 1 * 150 + (160 + (160 + 0))) / INR (1 + 2))
       <= 0.005 * INR 2.
Proof.
  apply (C1_running_average_bound ("tdr1wx-0", "tdr1wx")
           [(segmentAt 0 160, commute); (segmentAt 0 160, commute)] noon
           cellStore firstSample 1 150).
  - apply cellStore_lookup.
  - reflexivity.
  - reflexivity.
  - lia.
  - reflexivity.
  - repeat constructor.
Defined.

(** *** One record per cell and start index *)

Lemma samplesAt_put item db n :
  CrowdSegment.sampleCount item = Fin n ->
  samplesAt (crowd_put item db)
    (CrowdSegment.id item, CrowdSegment.geohash item) = n.
Proof. intros H. unfold samplesAt. now rewrite crowd_put_lookup, H. Qed.

(** One ingest adds one sample to the aggregate of its key when the store
    holds it, and leaves every other aggregate, the set of keys, the users
    and the trips alone. *)
Lemma updateCrowdSegment_effect segment trip now db :
  store_ok db ->
  exists flags db',
    updateCrowdSegment segment trip now db = inr (flags, db')
    /\ store_ok db'
    /\ usersContainer db' = usersContainer db
    /\ tripsContainer db' = tripsContainer db
    /\ (forall k, k <> segmentKey segment ->
                  crowdContainer db' !! k = crowdContainer db !! k)
    /\ (forall k, is_Some (crowdContainer db !! k) ->
                  is_Some (crowdContainer db' !! k))
    /\ (is_Some (crowdContainer db !! segmentKey segment) ->
        flags = (false, true)
        /\ size (crowdContainer db') = size (crowdContainer db)
        /\ samplesAt db' (segmentKey segment)
           = samplesAt db (segmentKey segment) + 1).
Proof.
  intros Hok.
  destruct (crowdContainer db !! segmentKey segment) as [e |] eqn:Hlook.
  - rewrite (updateCrowdSegment_present _ _ _ _ e Hlook).
    destruct (Hok _ _ Hlook) as [Hkey Hfin].
    apply is_finite_inv in Hfin as [n Hn].
    pose proof (updateExisting_count e segment trip now n Hn) as Hn'.
    do 2 eexists. split; [reflexivity |].
    split; [apply crowd_put_ok; [exact Hok | now rewrite Hn'] |].
    split; [reflexivity |]. split; [reflexivity |].
    assert (Hother : forall k, k <> segmentKey segment ->
              crowdContainer (crowd_put (updateExisting e segment trip now) db)
                !! k = crowdContainer db !! k).
    { intros k Hk. apply crowd_put_lookup_ne.
      rewrite updateExisting_key, Hkey. auto. }
    split; [exact Hother |].
    split.
    + intros k Hk. destruct (decide (k = segmentKey segment)) as [-> | Hne].
      * rewrite <- Hkey at 1.
        rewrite <- (updateExisting_key e segment trip now).
        rewrite crowd_put_lookup. eauto.
      * now rewrite Hother.
    + intros _. split; [reflexivity |]. split.
      * unfold crowd_put. cbn [crowdContainer].
        rewrite updateExisting_key, Hkey.
        apply map_size_insert_Some. rewrite Hlook. eauto.
      * rewrite <- Hkey at 1.
        rewrite <- (updateExisting_key e segment trip now).
        rewrite (samplesAt_put _ _ _ Hn').
        unfold samplesAt. now rewrite Hlook, Hn.
  - rewrite (updateCrowdSegment_absent _ _ _ _ Hlook).
    do 2 eexists. split; [reflexivity |].
    split; [exact Hok |]. split; [reflexivity |]. split; [reflexivity |].
    split; [reflexivity |]. split; [auto |].
    intros [? [=]].
Qed.

(** C6, counterexample: two segments of cell [tdr1wx], the first two legs of
    a route, ingested into the store that holds the aggregate of the first
    leg.  The first ingest updates that aggregate; the second, of the same
    cell, looks up another id and leaves the aggregate as it was, with two
    samples. *)
Lemma C6_counterexample_other_start_index :
  exists db1 flags db2 e,
    updateCrowdSegment (segmentAt 0 160) commute noon cellStore
    = inr ((false, true), db1)
    /\ TripSegment.geohash (segmentAt 1 160)
       = TripSegment.geohash (segmentAt 0 160)
    /\ updateCrowdSegment (segmentAt 1 160) commute noon db1
       = inr (flags, db2)
    /\ crowdContainer db1 !! ("tdr1wx-0", "tdr1wx") = Some e
    /\ crowdContainer db2 !! ("tdr1wx-0", "tdr1wx") = Some e
    /\ CrowdSegment.geohash e = "tdr1wx"
    /\ CrowdSegment.sampleCount e = Fin 2.
Proof.
  set (e := updateExisting firstSample (segmentAt 0 160) commute noon).
  set (db1 := crowd_put e cellStore).
  assert (H1 : crowdContainer db1 !! ("tdr1wx-0", "tdr1wx") = Some e)
    by apply (crowd_put_lookup e).
  assert (Hok1 : store_ok db1).
  { apply crowd_put_ok; [apply cellStore_ok | exact I]. }
  destruct (updateCrowdSegment_effect (segmentAt 1 160) commute noon db1 Hok1)
    as (flags & db2 & Hrun & _ & _ & _ & Hother & _).
  exists db1, flags, db2, e.
  split.
  { apply (updateCrowdSegment_present _ _ _ cellStore firstSample).
    apply cellStore_lookup. }
  split; [reflexivity |]. split; [exact Hrun |]. split; [exact H1 |].
  split; [rewrite Hother; [exact H1 | discriminate] |].
  split; [reflexivity |].
  unfold e.
  rewrite (updateExisting_count firstSample _ _ _ 1); [| reflexivity].
  apply f_equal. lra.
Qed.

(** C6, as the code has it: an aggregate is identified by the geohash
    together with the start index of the trip segment.  Of two ingested
    segments with the same geohash, where the store holds the aggregate of
    the first: when the start indices agree, both update that one record and
    the number of records stays the same; when they differ, the second
    looks up another id and leaves the record of the first as the first
    ingest left it. *)
Theorem C6_record_per_geohash_and_start_index db s1 s2 t1 t2 now :
  store_ok db ->
  is_Some (crowdContainer db !! segmentKey s1) ->
  TripSegment.geohash s1 = TripSegment.geohash s2 ->
  exists db1,
    updateCrowdSegment s1 t1 now db = inr ((false, true), db1)
    /\ samplesAt db1 (segmentKey s1) = samplesAt db (segmentKey s1) + 1
    /\ size (crowdContainer db1) = size (crowdContainer db)
    /\ (TripSegment.startIndex s1 = TripSegment.startIndex s2 ->
        exists db2,
          updateCrowdSegment s2 t2 now db1 = inr ((false, true), db2)
          /\ samplesAt db2 (segmentKey s1) = samplesAt db (segmentKey s1) + 2
          /\ size (crowdContainer db2) = size (crowdContainer db))
    /\ (TripSegment.startIndex s1 <> TripSegment.startIndex s2 ->
        segmentKey s2 <> segmentKey s1
        /\ exists flags db2,
             updateCrowdSegment s2 t2 now db1 = inr (flags, db2)
             /\ crowdContainer db2 !! segmentKey s1
                = crowdContainer db1 !! segmentKey s1).
Proof.
  intros Hok Hsome Hgeo.
  destruct (updateCrowdSegment_effect s1 t1 now db Hok)
    as (flags1 & db1 & Hrun1 & Hok1 & _ & _ & _ & Hkeep1 & Hown1).
  destruct (Hown1 Hsome) as (-> & Hsize1 & Hcount1).
  exists db1. split; [exact Hrun1 |]. split; [exact Hcount1 |].
  split; [exact Hsize1 |].
  destruct (updateCrowdSegment_effect s2 t2 now db1 Hok1)
    as (flags2 & db2 & Hrun2 & _ & _ & _ & Hother2 & _ & Hown2).
  split.
  - intros Hidx.
    assert (Hkey : segmentKey s2 = segmentKey s1).
    { unfold segmentKey, segmentId. now rewrite Hgeo, Hidx. }
    rewrite Hkey in Hown2.
    destruct (Hown2 (Hkeep1 _ Hsome)) as (-> & Hsize2 & Hcount2).
    exists db2. split; [exact Hrun2 |].
    split; [rewrite Hcount2, Hcount1; lra | congruence].
  - intros Hidx.
    assert (Hne : segmentKey s2 <> segmentKey s1).
    { intros Heq. apply segmentKey_inj in Heq as [_ Heq]. congruence. }
    split; [exact Hne |].
    exists flags2, db2. split; [exact Hrun2 |].
    apply Hother2. auto.
Qed.

(** The theorem at two samples for the first leg of a route in cell
    [tdr1wx], and the store that holds the aggregate of that leg. *)
Lemma C6_record_per_geohash_and_start_index_witness :
  exists db1 db2,
    updateCrowdSegment (segmentAt 0 150) commute noon cellStore
    = inr ((false, true), db1)
    /\ updateCrowdSegment (segmentAt 0 160) commute noon db1
       = inr ((false, true), db2)
    /\ samplesAt db2 ("tdr1wx-0", "tdr1wx")
       = samplesAt cellStore ("tdr1wx-0", "tdr1wx") + 2
    /\ size (crowdContainer db2) = size (crowdContainer cellStore).
Proof.
  destruct (C6_record_per_geohash_and_start_index cellStore (segmentAt 0 150)
              (segmentAt 0 160) commute commute noon)
    as (db1 & Hfirst & _ & _ & Hsame & _).
  - exact cellStore_ok.
  - exists firstSample. exact cellStore_lookup.
  - reflexivity.
  - destruct (Hsame eq_refl) as (db2 & Hsecond & Hcount & Hsize).
    exists db1, db2. repeat split; assumption.
Defined.

(** The prediction handler indexes the records it is given by geohash alone:
    of two records of one cell it sees the later one. *)
Lemma crowdDataMap_last e1 e2 :
  CrowdSegment.geohash e1 = CrowdSegment.geohash e2 ->
  Predict.crowdDataMap [e1; e2] !! CrowdSegment.geohash e1 = Some e2.
Proof.
  intros H. unfold Predict.crowdDataMap. cbn [fold_left].
  rewrite H. apply lookup_insert_eq.
Qed.

(** *** Trip sync *)

Lemma syncSegments_effect segments : forall trip now c db,
  store_ok db ->
  exists c' db',
    syncSegments segments trip now c db = inr (c', db')
    /\ syncedCount c' = syncedCount c
    /\ store_ok db'
    /\ usersContainer db' = usersContainer db
    /\ tripsContainer db' = tripsContainer db
    /\ (forall k, is_Some (crowdContainer db !! k) ->
                  is_Some (crowdContainer db' !! k)
                  /\ samplesAt db' k
                     = samplesAt db k + INR (occurrences k segments)).
Proof.
  induction segments as [| segment rest IH]; intros trip now c db Hok.
  - exists c, db. do 2 (split; [reflexivity |]). split; [exact Hok |].
    do 2 (split; [reflexivity |]). intros k Hk. split; [exact Hk |]. cbn. lra.
  - destruct (updateCrowdSegment_effect segment trip now db Hok)
      as ([created updated] & db1 & Hup & Hok1 & Hu1 & Ht1 & Hother & Hkeep
          & Hown).
    cbn [syncSegments]. unfold bind at 1. rewrite Hup.
    match goal with |- context [syncSegments rest trip now ?c1 db1] =>
      destruct (IH trip now c1 db1 Hok1)
        as (c' & db' & Hrun & Hsc & Hok' & Hu' & Ht' & Hcount)
    end.
    exists c', db'. rewrite Hrun. split; [reflexivity |].
    split; [rewrite Hsc; reflexivity |].
    split; [exact Hok' |]. split; [congruence |]. split; [congruence |].
    intros k Hk. destruct (Hcount k (Hkeep k Hk)) as [Hk' Hn].
    split; [exact Hk' |]. rewrite Hn. cbn [occurrences]. rewrite plus_INR.
    destruct (decide (segmentKey segment = k)) as [<- | Hne].
    + destruct (Hown Hk) as (_ & _ & Hsame).
      rewrite Hsame. change (INR 1) with 1. lra.
    + unfold samplesAt at 1. rewrite Hother by congruence.
      fold (samplesAt db k). change (INR 0) with 0. lra.
Qed.

Lemma getOrCreateUser_effect userId now db :
  shares db userId ->
  exists user db',
    getOrCreateUser userId now db = inr (user, db')
    /\ UserPreferences.shareAnonymousData (UserProfile.preferences user) = true
    /\ shares db' userId
    /\ tripsContainer db' = tripsContainer db
    /\ crowdContainer db' = crowdContainer db.
Proof.
  unfold shares, getOrCreateUser, item_read. intros Hs.
  destruct (usersContainer db !! (userId, userId)) as [u |] eqn:Hu.
  - exists u, db. rewrite Hu. repeat split; assumption.
  - do 2 eexists. split; [reflexivity |].
    cbn [usersContainer tripsContainer crowdContainer].
    split; [reflexivity |]. split; [| split; reflexivity].
    cbn. rewrite lookup_insert_eq. reflexivity.
Qed.

(** One round of the loop of [syncTrips]: the trip is stored and counted, and
    each of its segments is ingested, whatever the trips container held. *)
Lemma syncTrip_effect userId trip now c db :
  store_ok db -> shares db userId ->
  exists c' db',
    syncTrip userId trip now c db = inr (c', db')
    /\ syncedCount c' = S (syncedCount c)
    /\ store_ok db' /\ shares db' userId
    /\ is_Some (tripsContainer db' !! (Trip.id trip, userId))
    /\ (forall key, is_Some (tripsContainer db !! key) ->
                    is_Some (tripsContainer db' !! key))
    /\ (forall k, is_Some (crowdContainer db !! k) ->
                  is_Some (crowdContainer db' !! k)
                  /\ samplesAt db' k
                     = samplesAt db k
                       + INR (occurrences k
                                (default [] (Trip.segments trip)))).
Proof.
  intros Hok Hs. unfold syncTrip, bind, saveTrip. cbv beta iota.
  cbn [Trip.id Trip.userId].
  match goal with |- context [getOrCreateUser userId now ?d] =>
    set (db0 := d)
  end.
  assert (Hs0 : shares db0 userId) by exact Hs.
  assert (Hok0 : store_ok db0) by exact Hok.
  assert (Hsaved : is_Some (tripsContainer db0 !! (Trip.id trip, userId))).
  { unfold db0. cbn [tripsContainer]. rewrite lookup_insert_eq. eauto. }
  assert (Hkept : forall key, is_Some (tripsContainer db !! key) ->
                              is_Some (tripsContainer db0 !! key)).
  { intros key Hkey. unfold db0. cbn [tripsContainer].
    destruct (decide ((Trip.id trip, userId) = key)) as [<- | Hne].
    - rewrite lookup_insert_eq. eauto.
    - now rewrite lookup_insert_ne. }
  destruct (getOrCreateUser_effect userId now db0 Hs0)
    as (user & db1 & Hget & Hshare & Hs1 & Ht1 & Hc1).
  rewrite Hget, Hshare.
  assert (Hcrowd : crowdContainer db1 = crowdContainer db) by exact Hc1.
  assert (Hok1 : store_ok db1).
  { intros k e. rewrite Hc1. apply Hok0. }
  assert (Hsame : forall k, samplesAt db1 k = samplesAt db k).
  { intros k. unfold samplesAt. now rewrite Hc1. }
  destruct (Trip.segments trip) as [segments |].
  - match goal with |- context [syncSegments segments trip now ?c1 db1] =>
      destruct (syncSegments_effect segments trip now c1 db1 Hok1)
        as (c' & db' & Hrun & Hsc & Hok' & Hu' & Ht' & Hcount)
    end.
    exists c', db'. rewrite Hrun. split; [reflexivity |].
    split; [rewrite Hsc; reflexivity |]. split; [exact Hok' |].
    split; [unfold shares; rewrite Hu'; exact Hs1 |].
    split; [rewrite Ht', Ht1; exact Hsaved |].
    split; [intros key Hkey; rewrite Ht', Ht1; now apply Hkept |].
    intros k Hk. rewrite <- Hcrowd in Hk.
    destruct (Hcount k Hk) as [Hk' Hn]. split; [exact Hk' |].
    rewrite Hn, Hsame. reflexivity.
  - do 2 eexists. split; [reflexivity |]. split; [reflexivity |].
    split; [exact Hok1 |]. split; [exact Hs1 |].
    split; [rewrite Ht1; exact Hsaved |].
    split; [intros key Hkey; rewrite Ht1; now apply Hkept |].
    intros k Hk. split; [rewrite Hcrowd; exact Hk |].
    rewrite Hsame. cbn. lra.
Qed.

Lemma occurrences_app k l1 l2 :
  occurrences k (l1 ++ l2) = (occurrences k l1 + occurrences k l2)%nat.
Proof. induction l1 as [| s l1 IH]; cbn; [reflexivity | rewrite IH; lia]. Qed.

Lemma syncTripsLoop_effect userId trips : forall now c db,
  store_ok db -> shares db userId ->
  exists c' db',
    syncTripsLoop userId trips now c db = inr (c', db')
    /\ syncedCount c' = (syncedCount c + length trips)%nat
    /\ store_ok db' /\ shares db' userId
    /\ (forall trip, In trip trips ->
                     is_Some (tripsContainer db' !! (Trip.id trip, userId)))
    /\ (forall key, is_Some (tripsContainer db !! key) ->
                    is_Some (tripsContainer db' !! key))
    /\ (forall k, is_Some (crowdContainer db !! k) ->
                  is_Some (crowdContainer db' !! k)
                  /\ samplesAt db' k
                     = samplesAt db k
                       + INR (occurrences k (batchSegments trips))).
Proof.
  induction trips as [| trip rest IH]; intros now c db Hok Hs.
  - exists c, db. split; [reflexivity |]. split; [cbn; lia |].
    split; [exact Hok |]. split; [exact Hs |].
    split; [intros trip [] |]. split; [auto |].
    intros k Hk. split; [exact Hk |]. cbn. lra.
  - destruct (syncTrip_effect userId trip now c db Hok Hs)
      as (c1 & db1 & Hrun1 & Hsc1 & Hok1 & Hs1 & Hsaved1 & Hkept1 & Hcount1).
    destruct (IH now c1 db1 Hok1 Hs1)
      as (c' & db' & Hrun & Hsc & Hok' & Hs' & Hsaved & Hkept & Hcount).
    exists c', db'. cbn [syncTripsLoop]. unfold bind. rewrite Hrun1, Hrun.
    split; [reflexivity |]. split; [cbn [length]; lia |].
    split; [exact Hok' |]. split; [exact Hs' |].
    split.
    { intros t [<- | Hin]; [now apply Hkept | now apply Hsaved]. }
    split; [intros key Hkey; now apply Hkept, Hkept1 |].
    intros k Hk. destruct (Hcount1 k Hk) as [Hk1 Hn1].
    destruct (Hcount k Hk1) as [Hk' Hn]. split; [exact Hk' |].
    rewrite Hn, Hn1.
    cbn [batchSegments flat_map]. rewrite occurrences_app, plus_INR.
    fold (batchSegments rest). lra.
Qed.

(** What one call of [syncTrips] does to a well-formed store when the user
    shares data. *)
Lemma syncTrips_effect userId trips now db :
  store_ok db -> shares db userId ->
  exists response db',
    syncTrips {| SyncTripsRequest.userId := userId;
                 SyncTripsRequest.trips := trips |} now db
    = inr (response, db')
    /\ SyncTripsResponse.syncedCount response = length trips
    /\ store_ok db' /\ shares db' userId
    /\ (forall trip, In trip trips ->
                     is_Some (tripsContainer db' !! (Trip.id trip, userId)))
    /\ (forall k, is_Some (crowdContainer db !! k) ->
                  is_Some (crowdContainer db' !! k)
                  /\ samplesAt db' k
                     = samplesAt db k
                       + INR (occurrences k (batchSegments trips))).
Proof.
  intros Hok Hs. unfold syncTrips.
  cbn [SyncTripsRequest.userId SyncTripsRequest.trips].
  match goal with |- context [syncTripsLoop userId trips now ?c0] =>
    destruct (syncTripsLoop_effect userId trips now c0 db Hok Hs)
      as (c' & db' & Hrun & Hsc & Hok' & Hs' & Hsaved & _ & Hcount)
  end.
  do 2 eexists. unfold bind. rewrite Hrun. split; [reflexivity |].
  cbn [SyncTripsResponse.syncedCount]. split; [rewrite Hsc; reflexivity |].
  split; [exact Hok' |]. split; [exact Hs' |]. split; [exact Hsaved |].
  exact Hcount.
Qed.

(** C2, counterexample: the one-segment trip [trip-1] synced twice into the
    store that holds the aggregate of its segment, with one sample.  The
    second call finds the trip stored, counts it again and raises the sample
    count of the aggregate from 2 to 3. *)
Lemma C2_counterexample_resubmission :
  exists r1 db1 r2 db2,
    samplesAt cellStore ("tdr1wx-0", "tdr1wx") = 1
    /\ syncTrips commuteRequest noon cellStore = inr (r1, db1)
    /\ is_Some (tripsContainer db1 !! ("trip-1", "u1"))
    /\ samplesAt db1 ("tdr1wx-0", "tdr1wx") = 2
    /\ syncTrips commuteRequest noon db1 = inr (r2, db2)
    /\ SyncTripsResponse.syncedCount r2 = 1%nat
    /\ samplesAt db2 ("tdr1wx-0", "tdr1wx") = 3.
Proof.
  destruct (syncTrips_effect "u1" [commute] noon cellStore cellStore_ok
              (cellStore_shares "u1"))
    as (r1 & db1 & Hrun1 & _ & Hok1 & Hs1 & Hsaved1 & Hcount1).
  destruct (syncTrips_effect "u1" [commute] noon db1 Hok1 Hs1)
    as (r2 & db2 & Hrun2 & Hsc2 & _ & _ & _ & Hcount2).
  exists r1, db1, r2, db2.
  assert (Hocc : occurrences ("tdr1wx-0", "tdr1wx") (batchSegments [commute])
                 = 1%nat) by reflexivity.
  assert (H0 : samplesAt cellStore ("tdr1wx-0", "tdr1wx") = 1).
  { unfold samplesAt. now rewrite cellStore_lookup. }
  assert (Hk : is_Some (crowdContainer cellStore !! ("tdr1wx-0", "tdr1wx"))).
  { rewrite cellStore_lookup. eauto. }
  destruct (Hcount1 _ Hk) as [Hk1 Hn1].
  destruct (Hcount2 _ Hk1) as [_ Hn2].
  split; [exact H0 |]. split; [exact Hrun1 |].
  split; [apply (Hsaved1 commute); now left |].
  split; [rewrite Hn1, Hocc, H0; change (INR 1) with 1; lra |].
  split; [exact Hrun2 |]. split; [exact Hsc2 |].
  rewrite Hn2, Hn1, Hocc, H0. change (INR 1) with 1. lra.
Qed.

(** C2, as the code has it: [syncTrips] has no check for trips already
    processed.  Submitting a batch twice in a row counts every trip of the
    batch both times, although the first call has stored them all, and
    applies every segment of the batch to the crowd store both times: each
    aggregate that the store holds grows by its number of segments in the
    batch on each call. *)
Theorem C2_resubmission_is_applied_again userId trips now db :
  store_ok db -> shares db userId ->
  exists r1 db1 r2 db2,
    syncTrips {| SyncTripsRequest.userId := userId;
                 SyncTripsRequest.trips := trips |} now db = inr (r1, db1)
    /\ syncTrips {| SyncTripsRequest.userId := userId;
                    SyncTripsRequest.trips := trips |} now db1 = inr (r2, db2)
    /\ (forall trip, In trip trips ->
                     is_Some (tripsContainer db1 !! (Trip.id trip, userId)))
    /\ SyncTripsResponse.syncedCount r1 = length trips
    /\ SyncTripsResponse.syncedCount r2 = length trips
    /\ (forall k,
          is_Some (crowdContainer db !! k) ->
          samplesAt db1 k
          = samplesAt db k + INR (occurrences k (batchSegments trips))
          /\ samplesAt db2 k
             = samplesAt db1 k + INR (occurrences k (batchSegments trips))).
Proof.
  intros Hok Hs.
  destruct (syncTrips_effect userId trips now db Hok Hs)
    as (r1 & db1 & Hrun1 & Hsc1 & Hok1 & Hs1 & Hsaved1 & Hcount1).
  destruct (syncTrips_effect userId trips now db1 Hok1 Hs1)
    as (r2 & db2 & Hrun2 & Hsc2 & _ & _ & _ & Hcount2).
  exists r1, db1, r2, db2.
  split; [exact Hrun1 |]. split; [exact Hrun2 |]. split; [exact Hsaved1 |].
  split; [exact Hsc1 |]. split; [exact Hsc2 |].
  intros k Hk. destruct (Hcount1 k Hk) as [Hk1 Hn1].
  destruct (Hcount2 k Hk1) as [_ Hn2]. split; assumption.
Qed.

(** The theorem at the one-trip batch and the store that holds the aggregate
    of its segment. *)
Lemma C2_resubmission_is_applied_again_witness :
  exists r1 db1 r2 db2,
    syncTrips {| SyncTripsRequest.userId := "u1";
                 SyncTripsRequest.trips := [commute] |} noon cellStore
    = inr (r1, db1)
    /\ syncTrips {| SyncTripsRequest.userId := "u1";
                    SyncTripsRequest.trips := [commute] |} noon db1
       = inr (r2, db2)
    /\ (forall trip, In trip [commute] ->
                     is_Some (tripsContainer db1 !! (Trip.id trip, "u1")))
    /\ SyncTripsResponse.syncedCount r1 = length [commute]
    /\ SyncTripsResponse.syncedCount r2 = length [commute]
    /\ (forall k,
          is_Some (crowdContainer cellStore !! k) ->
          samplesAt db1 k
          = samplesAt cellStore k
            + INR (occurrences k (batchSegments [commute]))
          /\ samplesAt db2 k
             = samplesAt db1 k
               + INR (occurrences k (batchSegments [commute]))).
Proof.
  apply (C2_resubmission_is_applied_again "u1" [commute] noon cellStore).
  - exact cellStore_ok.
  - exact (cellStore_shares "u1").
Defined.

End CrowdStoreFacts.

(** ** Per-segment prediction *)

Section PredictFacts.

Import Models Predict.

(** C7, at requests with regen level 0, 1, 2 and 3: the levels 1 to 3 get
    their table entries, and level 0, whose entry 0 is falsy, gets the
    default 0.18 of [||]; a 100 m descent at level 0 is then credited with
    78.48 Wh of recovery instead of none. *)
Theorem C7_regen_level_zero_gets_default :
  selectRegenEfficiency (requestState 0) = Fin 0.18
  /\ selectRegenEfficiency (requestState 1) = Fin 0.1
  /\ selectRegenEfficiency (requestState 2) = Fin 0.18
  /\ selectRegenEfficiency (requestState 3) = Fin 0.25
  /\ elevationStep summit valley (Fin 1.5)
       (selectRegenEfficiency (requestState 0)) (Fin 0, Fin 0)
     = (Fin (-78.48), Fin 78.48).
Proof.
  assert (H0 : selectRegenEfficiency (requestState 0) = Fin 0.18).
  { unfold selectRegenEfficiency, requestState, or_else.
    cbn [TripVehicleState.regenLevel REGEN_EFFICIENCY].
    now rewrite truthy_fin_false. }
  split; [exact H0 |].
  split.
  { unfold selectRegenEfficiency, requestState, or_else.
    cbn [TripVehicleState.regenLevel REGEN_EFFICIENCY].
    now rewrite truthy_fin_true by lra. }
  split.
  { unfold selectRegenEfficiency, requestState, or_else.
    cbn [TripVehicleState.regenLevel REGEN_EFFICIENCY].
    now rewrite truthy_fin_true by lra. }
  split.
  { unfold selectRegenEfficiency, requestState, or_else.
    cbn [TripVehicleState.regenLevel REGEN_EFFICIENCY].
    now rewrite truthy_fin_true by lra. }
  rewrite H0. unfold elevationStep, calculateElevationEnergy, summit, valley, gtb.
  cbn [Coordinate.elevation]. js_arith.
  rewrite (Rabs_left (1600 * 9.81 * (0 - 100) / 3600 * 0.18)) by lra.
  f_equal; apply f_equal; lra.
Qed.

End PredictFacts.

(** ** The vehicle store *)

Section VehicleStoreFacts.

Import VehicleStore.

Lemma clamp_range x :
  x <> NaN ->
  in_range (Fin 0) (Fin 100) (Math_max (Fin 0) (Math_min (Fin 100) x)).
Proof.
  intros Hx. unfold in_range. destruct x as [r | | |]; [| | | contradiction].
  - rewrite min_fin, max_fin, !le_fin. split.
    + apply Rmax_l.
    + apply Rmax_lub; [lra | apply Rmin_l].
  - unfold Math_min, ltb. rewrite max_fin, !le_fin. split.
    + apply Rmax_l.
    + apply Rmax_lub; lra.
  - unfold Math_min, Math_max, ltb, le, leb.
    destruct (Rle_dec 0 0), (Rle_dec 0 100); try lra; split; reflexivity.
Qed.

Lemma max_zero_range x : x <> NaN -> (Fin 0 <= Math_max (Fin 0) x)%num.
Proof.
  intros Hx. destruct x as [r | | |]; [| | | contradiction].
  - rewrite max_fin, le_fin. apply Rmax_l.
  - reflexivity.
  - unfold Math_max, ltb. apply le_fin. lra.
Qed.

Lemma default_state_clamped : clamped DEFAULT_VEHICLE_STATE.
Proof.
  unfold clamped, in_range, DEFAULT_VEHICLE_STATE.
  cbn [currentSoC batteryHealth payload]. rewrite !le_fin. lra.
Qed.

(** C10, counterexample, from the default state: [setTirePressure(-5)] and
    [setBatteryTemperature(1000)] store their argument as it is, and
    [updateFromOBD] with a reading of 150 leaves the state of charge at
    150. *)
Lemma C10_counterexample_unclamped :
  tirePressure (act (SetTirePressure (Fin (-5))) DEFAULT_VEHICLE_STATE)
  = Fin (-5)
  /\ batteryTemperature
       (act (SetBatteryTemperature (Fin 1000)) DEFAULT_VEHICLE_STATE)
     = Fin 1000
  /\ currentSoC (act (UpdateFromOBD obdReading) DEFAULT_VEHICLE_STATE)
     = Fin 150
  /\ ~ clamped (act (UpdateFromOBD obdReading) DEFAULT_VEHICLE_STATE).
Proof.
  do 3 (split; [reflexivity |]).
  intros [[_ H] _]. cbn in H. apply le_fin in H. lra.
Qed.

(** C10, as the code has it: [setSoC] and [setBatteryHealth] clamp into
    [0, 100] and [setPayload] clamps at 0, so every action other than
    [updateFromOBD], called on numbers, keeps these three fields in range;
    [setTirePressure] and [setBatteryTemperature] store their argument
    unchanged. *)
Theorem C10_clamping_setters a state :
  clamped state -> validated a ->
  clamped (act a state)
  /\ (forall pressure,
        tirePressure (act (SetTirePressure pressure) state) = pressure)
  /\ (forall temp,
        batteryTemperature (act (SetBatteryTemperature temp) state) = temp).
Proof.
  intros (Hsoc & Hhealth & Hpayload) Hvalid.
  split; [| split; intros; reflexivity].
  destruct a; cbn in Hvalid; try contradiction;
    unfold clamped, act, setVariant, setSoC, setBatteryHealth,
      setBatteryTemperature, setRegenLevel, setHvac, setTirePressure,
      setPayload, setConnected, reset, merge;
    cbn [currentSoC batteryHealth payload default from_option
         PartialVehicleState.currentSoC PartialVehicleState.batteryHealth
         PartialVehicleState.payload];
    try (split; [exact Hsoc | split; [exact Hhealth | exact Hpayload]]).
  - split; [now apply clamp_range | split; assumption].
  - split; [assumption | split; [now apply clamp_range | assumption]].
  - split; [assumption | split; [assumption | now apply max_zero_range]].
  - apply default_state_clamped.
Qed.

(** The theorem at [setSoC(250)] on the default state. *)
Lemma C10_clamping_setters_witness :
  clamped (act (SetSoC (Fin 250)) DEFAULT_VEHICLE_STATE)
  /\ (forall pressure,
        tirePressure (act (SetTirePressure pressure) DEFAULT_VEHICLE_STATE)
        = pressure)
  /\ (forall temp,
        batteryTemperature
          (act (SetBatteryTemperature temp) DEFAULT_VEHICLE_STATE) = temp).
Proof.
  apply (C10_clamping_setters (SetSoC (Fin 250)) DEFAULT_VEHICLE_STATE).
  - exact default_state_clamped.
  - discriminate.
Defined.

End VehicleStoreFacts.

(** * Properties of the services behind the API *)

Import Measures Cases.

(** ** User profiles *)

Section UserFacts.

Import Models CosmosDb CosmosQueries Http UserApi.

Lemma getOrCreateUser_cases userId now db :
  (exists user, usersContainer db !! (userId, userId) = Some user
                /\ getOrCreateUser userId now db = inr (user, db))
  \/ (usersContainer db !! (userId, userId) = None
      /\ getOrCreateUser userId now db
         = inr (defaultProfile userId now,
                users_put (defaultProfile userId now) db)).
Proof.
  unfold getOrCreateUser, item_read.
  destruct (usersContainer db !! (userId, userId)) as [user|] eqn:E.
  - left. exists user. split; reflexivity.
  - right. split; reflexivity.
Qed.

Lemma getOrCreateUser_profileOf userId now db :
  exists db',
    getOrCreateUser userId now db = inr (profileOf db userId now, db')
    /\ usersContainer db' !! (userId, userId) = Some (profileOf db userId now)
    /\ (forall k, k <> (userId, userId) ->
                  usersContainer db' !! k = usersContainer db !! k)
    /\ (is_Some (usersContainer db !! (userId, userId)) -> db' = db)
    /\ tripsContainer db' = tripsContainer db
    /\ crowdContainer db' = crowdContainer db.
Proof.
  unfold profileOf.
  destruct (getOrCreateUser_cases userId now db) as [(user & E & H) | (E & H)];
    rewrite H, E; cbn [default]; eexists; (split; [reflexivity|]).
  - repeat split; auto.
  - unfold users_put; cbn. split; [apply lookup_insert_eq|].
    split; [| split; [| split; reflexivity]].
    + intros k Hk. apply lookup_insert_ne. congruence.
    + intros [? [=]].
Qed.

Lemma profileOf_stored db userId now user :
  usersContainer db !! (userId, userId) = Some user ->
  profileOf db userId now = user.
Proof. unfold profileOf. intros ->. reflexivity. Qed.

(** X1: [getOrCreateUser] returns the stored profile of the user, or
    creates the default profile (which shares anonymous data) when there is
    none.  Asking again, at any later time, returns the same profile and
    changes nothing; a store that already had the profile is left as it was,
    and no other profile, trip or aggregate is touched. *)
Theorem getOrCreateUser_idempotent userId now later db :
  exists db1,
    getOrCreateUser userId now db = inr (profileOf db userId now, db1)
    /\ getOrCreateUser userId later db1 = inr (profileOf db userId now, db1)
    /\ (usersContainer db !! (userId, userId) = None ->
        profileOf db userId now = defaultProfile userId now
        /\ UserPreferences.shareAnonymousData
             (UserProfile.preferences (profileOf db userId now)) = true)
    /\ (is_Some (usersContainer db !! (userId, userId)) -> db1 = db)
    /\ (forall k, k <> (userId, userId) ->
                  usersContainer db1 !! k = usersContainer db !! k)
    /\ tripsContainer db1 = tripsContainer db
    /\ crowdContainer db1 = crowdContainer db.
Proof.
  destruct (getOrCreateUser_profileOf userId now db)
    as (db1 & H & Hl & Hk & Hsame & Ht & Hc).
  exists db1. split; [exact H|].
  split.
  { destruct (getOrCreateUser_cases userId later db1)
      as [(user & E & H1) | (E & H1)]; [| congruence].
    rewrite H1. rewrite Hl in E. inversion E. reflexivity. }
  split.
  { intros E. unfold profileOf. rewrite E. split; reflexivity. }
  repeat split; assumption.
Qed.

Lemma updateUser_spec userId updates now db :
  let current := profileOf db userId now in
  let updated :=
    {| UserProfile.id := userId;
       UserProfile.userId := userId;
       UserProfile.vehicleConfig :=
         default (UserProfile.vehicleConfig current)
           (PartialUserProfile.vehicleConfig updates);
       UserProfile.preferences :=
         default (UserProfile.preferences current)
           (PartialUserProfile.preferences updates);
       UserProfile.createdAt :=
         default (UserProfile.createdAt current)
           (PartialUserProfile.createdAt updates);
       UserProfile.updatedAt := iso now |} in
  exists db',
    updateUser userId updates now db = inr (updated, db')
    /\ usersContainer db' !! (userId, userId) = Some updated
    /\ (forall k, k <> (userId, userId) ->
                  usersContainer db' !! k = usersContainer db !! k)
    /\ tripsContainer db' = tripsContainer db
    /\ crowdContainer db' = crowdContainer db.
Proof.
  intros current updated. unfold updateUser, bind.
  destruct (getOrCreateUser_profileOf userId now db)
    as (db1 & H & Hl & Hk & _ & Ht & Hc).
  rewrite H. eexists. split; [reflexivity|].
  unfold users_put; cbn.
  split; [apply lookup_insert_eq|]. split; [| split; assumption].
  intros k Hne. rewrite lookup_insert_ne by congruence. apply Hk, Hne.
Qed.

(** X2: [updateUser] cannot move a profile: whatever [id] and [userId] the
    update carries, the result is stored under the user it was called for,
    with [updatedAt] set to the time of the call.  The vehicle configuration
    and the preferences are replaced as a whole when the update has them and
    kept otherwise; reading the profile back returns exactly what was
    written, and no other profile, trip or aggregate is touched. *)
Theorem updateUser_keeps_identity userId updates now later db :
  exists updated db1,
    updateUser userId updates now db = inr (updated, db1)
    /\ UserProfile.id updated = userId
    /\ UserProfile.userId updated = userId
    /\ UserProfile.updatedAt updated = iso now
    /\ UserProfile.vehicleConfig updated
       = default (UserProfile.vehicleConfig (profileOf db userId now))
           (PartialUserProfile.vehicleConfig updates)
    /\ UserProfile.preferences updated
       = default (UserProfile.preferences (profileOf db userId now))
           (PartialUserProfile.preferences updates)
    /\ getOrCreateUser userId later db1 = inr (updated, db1)
    /\ (forall k, k <> (userId, userId) ->
                  usersContainer db1 !! k = usersContainer db !! k)
    /\ tripsContainer db1 = tripsContainer db
    /\ crowdContainer db1 = crowdContainer db.
Proof.
  destruct (updateUser_spec userId updates now db)
    as (db1 & H & Hl & Hk & Ht & Hc).
  eexists _, db1. split; [exact H|].
  do 5 (split; [reflexivity|]).
  split; [| split; [exact Hk | split; assumption]].
  destruct (getOrCreateUser_cases userId later db1)
    as [(user & E & H1) | (E & H1)]; [| congruence].
  rewrite H1. rewrite Hl in E. inversion E. reflexivity.
Qed.

Lemma present_Some userId uid :
  present userId = Some uid -> userId = Some uid /\ uid <> EmptyString.
Proof.
  unfold present. destruct userId as [s|]; [| discriminate].
  destruct (decide (s = EmptyString)); [discriminate|].
  intros [= <-]. split; [reflexivity | assumption].
Qed.

Lemma present_of uid : uid <> EmptyString -> present (Some uid) = Some uid.
Proof.
  intros H. unfold present. destruct (decide (uid = EmptyString));
    [contradiction | reflexivity].
Qed.

Lemma updatePreferences_spec uid preferences now db :
  uid <> EmptyString ->
  let current := profileOf db uid now in
  let updated :=
    {| UserProfile.id := uid;
       UserProfile.userId := uid;
       UserProfile.vehicleConfig := UserProfile.vehicleConfig current;
       UserProfile.preferences :=
         mergePreferences (UserProfile.preferences current) preferences;
       UserProfile.createdAt := UserProfile.createdAt current;
       UserProfile.updatedAt := iso now |} in
  exists db',
    updatePreferences (Some uid) preferences now db
    = (Ok (UserProfile.preferences updated), db')
    /\ usersContainer db' !! (uid, uid) = Some updated
    /\ (forall k, k <> (uid, uid) ->
                  usersContainer db' !! k = usersContainer db !! k)
    /\ tripsContainer db' = tripsContainer db
    /\ crowdContainer db' = crowdContainer db.
Proof.
  intros Hne current updated.
  unfold updatePreferences, handle. rewrite (present_of uid Hne).
  unfold bind.
  destruct (getOrCreateUser_profileOf uid now db)
    as (db1 & H & Hl & Hk & _ & Ht & Hc).
  rewrite H.
  match goal with
  | |- context [updateUser uid ?u now db1] =>
      destruct (updateUser_spec uid u now db1)
        as (db2 & H2 & Hl2 & Hk2 & Ht2 & Hc2)
  end.
  rewrite H2. cbn [PartialUserProfile.vehicleConfig PartialUserProfile.preferences
                   PartialUserProfile.createdAt default] in *.
  rewrite (profileOf_stored db1 uid now _ Hl) in *.
  exists db2. split; [reflexivity|].
  split; [exact Hl2|]. split; [| split; congruence].
  intros k Hk0. rewrite Hk2 by exact Hk0. apply Hk, Hk0.
Qed.

Lemma updateVehicleConfig_spec uid vehicleConfig now db :
  uid <> EmptyString ->
  let current := profileOf db uid now in
  let updated :=
    {| UserProfile.id := uid;
       UserProfile.userId := uid;
       UserProfile.vehicleConfig :=
         mergeVehicleConfig (UserProfile.vehicleConfig current) vehicleConfig;
       UserProfile.preferences := UserProfile.preferences current;
       UserProfile.createdAt := UserProfile.createdAt current;
       UserProfile.updatedAt := iso now |} in
  exists db',
    updateVehicleConfig (Some uid) vehicleConfig now db
    = (Ok (UserProfile.vehicleConfig updated), db')
    /\ usersContainer db' !! (uid, uid) = Some updated
    /\ (forall k, k <> (uid, uid) ->
                  usersContainer db' !! k = usersContainer db !! k)
    /\ tripsContainer db' = tripsContainer db
    /\ crowdContainer db' = crowdContainer db.
Proof.
  intros Hne current updated.
  unfold updateVehicleConfig, handle. rewrite (present_of uid Hne).
  unfold bind.
  destruct (getOrCreateUser_profileOf uid now db)
    as (db1 & H & Hl & Hk & _ & Ht & Hc).
  rewrite H.
  match goal with
  | |- context [updateUser uid ?u now db1] =>
      destruct (updateUser_spec uid u now db1)
        as (db2 & H2 & Hl2 & Hk2 & Ht2 & Hc2)
  end.
  rewrite H2. cbn [PartialUserProfile.vehicleConfig PartialUserProfile.preferences
                   PartialUserProfile.createdAt default] in *.
  rewrite (profileOf_stored db1 uid now _ Hl) in *.
  exists db2. split; [reflexivity|].
  split; [exact Hl2|]. split; [| split; congruence].
  intros k Hk0. rewrite Hk2 by exact Hk0. apply Hk, Hk0.
Qed.

(** X3: the four user handlers answer 400, and leave the store alone, when
    the [userId] route parameter is missing or empty.  Otherwise, given a
    request body that has parsed to an object of the expected shape, they
    answer 200, and what they answer is what the store then holds for the
    user: the profile, the updated profile, or the vehicle configuration or
    preferences with the members of the body written over the stored
    ones. *)
Theorem user_handlers_status userId body vehicleConfig preferences now db :
  match present userId with
  | None =>
      (exists msg, getUser userId now db = (BadRequest msg, db))
      /\ (exists msg, updateUserHandler userId body now db = (BadRequest msg, db))
      /\ (exists msg,
            updateVehicleConfig userId vehicleConfig now db
            = (BadRequest msg, db))
      /\ (exists msg,
            updatePreferences userId preferences now db = (BadRequest msg, db))
  | Some uid =>
      (exists user db',
         getUser userId now db = (Ok user, db')
         /\ usersContainer db' !! (uid, uid) = Some user)
      /\ (exists user db',
            updateUserHandler userId body now db = (Ok user, db')
            /\ usersContainer db' !! (uid, uid) = Some user)
      /\ (exists user db',
            updateVehicleConfig userId vehicleConfig now db
            = (Ok (UserProfile.vehicleConfig user), db')
            /\ usersContainer db' !! (uid, uid) = Some user
            /\ UserProfile.vehicleConfig user
               = mergeVehicleConfig
                   (UserProfile.vehicleConfig (profileOf db uid now))
                   vehicleConfig
            /\ UserProfile.preferences user
               = UserProfile.preferences (profileOf db uid now))
      /\ (exists user db',
            updatePreferences userId preferences now db
            = (Ok (UserProfile.preferences user), db')
            /\ usersContainer db' !! (uid, uid) = Some user
            /\ UserProfile.preferences user
               = mergePreferences
                   (UserProfile.preferences (profileOf db uid now))
                   preferences
            /\ UserProfile.vehicleConfig user
               = UserProfile.vehicleConfig (profileOf db uid now))
  end.
Proof.
  destruct (present userId) as [uid|] eqn:E.
  - destruct (present_Some _ _ E) as [-> Hne].
    split; [| split; [| split]].
    + unfold getUser, handle, bind. rewrite E.
      destruct (getOrCreateUser_profileOf uid now db)
        as (db1 & H & Hl & _).
      rewrite H. eexists _, db1. split; [reflexivity | exact Hl].
    + unfold updateUserHandler, handle, bind. rewrite E.
      destruct (updateUser_spec uid (withoutIds body) now db)
        as (db1 & H & Hl & _).
      rewrite H. eexists _, db1. split; [reflexivity | exact Hl].
    + destruct (updateVehicleConfig_spec uid vehicleConfig now db Hne)
        as (db1 & H & Hl & _).
      eexists _, db1. split; [exact H|]. split; [exact Hl|].
      split; reflexivity.
    + destruct (updatePreferences_spec uid preferences now db Hne)
        as (db1 & H & Hl & _).
      eexists _, db1. split; [exact H|]. split; [exact Hl|].
      split; reflexivity.
  - unfold getUser, updateUserHandler, updateVehicleConfig, updatePreferences,
      handle. rewrite E. cbn.
    repeat split; eexists; reflexivity.
Qed.

End UserFacts.

(** ** Trip sync *)

Section SyncFacts.

Import Models CosmosDb CosmosQueries Http UserApi.

Lemma getOrCreateUser_frame userId now db :
  exists user db',
    getOrCreateUser userId now db = inr (user, db')
    /\ tripsContainer db' = tripsContainer db
    /\ crowdContainer db' = crowdContainer db.
Proof.
  destruct (getOrCreateUser_cases userId now db) as [(user & _ & H) | (_ & H)];
    rewrite H; eexists _, _; repeat split; reflexivity.
Qed.

Lemma updateCrowdSegment_frame segment trip now db :
  exists flags db',
    updateCrowdSegment segment trip now db = inr (flags, db')
    /\ usersContainer db' = usersContainer db
    /\ tripsContainer db' = tripsContainer db.
Proof.
  destruct (crowdContainer db !! segmentKey segment) as [existing|] eqn:E.
  - rewrite (updateCrowdSegment_present _ _ _ _ _ E).
    eexists _, _; repeat split; reflexivity.
  - rewrite (updateCrowdSegment_absent _ _ _ _ E).
    eexists _, _; repeat split; reflexivity.
Qed.

Lemma syncSegments_frame segments : forall trip now c db,
  exists c' db',
    syncSegments segments trip now c db = inr (c', db')
    /\ syncedCount c' = syncedCount c
    /\ usersContainer db' = usersContainer db
    /\ tripsContainer db' = tripsContainer db.
Proof.
  induction segments as [|segment rest IH]; intros trip now c db.
  - exists c, db. repeat split; reflexivity.
  - destruct (updateCrowdSegment_frame segment trip now db)
      as ([created updated] & db1 & H & Hu & Ht).
    cbn [syncSegments]. unfold bind. rewrite H.
    match goal with
    | |- context [syncSegments rest trip now ?c1 db1] =>
        destruct (IH trip now c1 db1) as (c' & db' & H' & Hs & Hu' & Ht')
    end.
    exists c', db'. split; [exact H'|].
    split; [exact Hs|]. split; congruence.
Qed.

Lemma syncTrip_trips userId trip now c db :
  exists c' db' r,
    syncTrip userId trip now c db = inr (c', db')
    /\ syncedCount c' = S (syncedCount c)
    /\ tripsContainer db'
       = <[(Trip.id trip, userId) := r]> (tripsContainer db)
    /\ filedUnder userId now r.
Proof.
  unfold syncTrip, bind, saveTrip; cbv beta iota zeta.
  match goal with
  | |- context [getOrCreateUser userId now ?d] =>
      destruct (getOrCreateUser_frame userId now d)
        as (user & db1 & H & Ht & Hc)
  end.
  rewrite H.
  destruct (UserPreferences.shareAnonymousData (UserProfile.preferences user)).
  - destruct (Trip.segments trip) as [segments|].
    + match goal with
      | |- context [syncSegments segments trip now ?c1 db1] =>
          destruct (syncSegments_frame segments trip now c1 db1)
            as (c' & db' & H' & Hs & Hu' & Ht')
      end.
      eexists c', db', _. split; [exact H'|]. split; [exact Hs|].
      split; [rewrite Ht', Ht; reflexivity|].
      repeat split; reflexivity.
    + eexists _, db1, _. split; [reflexivity|]. split; [reflexivity|].
      split; [rewrite Ht; reflexivity|]. repeat split; reflexivity.
  - eexists _, db1, _. split; [reflexivity|]. split; [reflexivity|].
    split; [rewrite Ht; reflexivity|]. repeat split; reflexivity.
Qed.

Lemma syncTripsLoop_trips userId trips : forall now c db,
  exists c' db',
    syncTripsLoop userId trips now c db = inr (c', db')
    /\ syncedCount c' = (syncedCount c + length trips)%nat
    /\ (forall trip, In trip trips ->
          exists r, tripsContainer db' !! (Trip.id trip, userId) = Some r
                    /\ filedUnder userId now r)
    /\ (forall key r, tripsContainer db !! key = Some r ->
          (forall trip, In trip trips -> key <> (Trip.id trip, userId)) ->
          tripsContainer db' !! key = Some r)
    /\ (forall key, tripsContainer db !! key = None ->
          (forall trip, In trip trips -> key <> (Trip.id trip, userId)) ->
          tripsContainer db' !! key = None)
    /\ (forall key r, tripsContainer db !! key = Some r -> filedUnder userId now r ->
          exists r', tripsContainer db' !! key = Some r' /\ filedUnder userId now r').
Proof.
  induction trips as [|trip rest IH]; intros now c db.
  - exists c, db. split; [reflexivity|]. split; [cbn; lia|].
    split; [intros ? []|]. split; [auto|]. split; [auto|]. eauto.
  - cbn [syncTripsLoop]. unfold bind.
    destruct (syncTrip_trips userId trip now c db)
      as (c1 & db1 & r & H & Hs & Ht & Hf).
    rewrite H.
    destruct (IH now c1 db1) as (c' & db' & H' & Hs' & Hin & Hkeep & Hnone & Hfiled).
    exists c', db'. split; [exact H'|].
    split; [rewrite Hs', Hs; cbn; lia|].
    assert (L : tripsContainer db1 !! (Trip.id trip, userId) = Some r)
      by (rewrite Ht; apply lookup_insert_eq).
    split; [| split; [| split]].
    + intros t [<- | Hr].
      * apply (Hfiled _ _ L Hf).
      * apply Hin, Hr.
    + intros key r0 Hk Hne. apply Hkeep.
      * rewrite Ht, lookup_insert_ne; [exact Hk|].
        intros <-. apply (Hne trip); [left; reflexivity | reflexivity].
      * intros t Ht0. apply Hne. right. exact Ht0.
    + intros key Hk Hne. apply Hnone.
      * rewrite Ht, lookup_insert_ne; [exact Hk|].
        intros <-. apply (Hne trip); [left; reflexivity | reflexivity].
      * intros t Ht0. apply Hne. right. exact Ht0.
    + intros key r0 Hk Hf0.
      destruct (decide (key = (Trip.id trip, userId))) as [->|Hne].
      * apply (Hfiled _ _ L Hf).
      * apply (Hfiled key r0); [| exact Hf0].
        rewrite Ht, lookup_insert_ne; [exact Hk | congruence].
Qed.

(** X4: [syncTrips] succeeds on every store and every batch.  It counts
    every trip of the batch, and stores each one under the user of the
    request, whatever [userId] the trip itself carries, marked as synced and
    stamped with the time of the sync; every other trip record is left as it
    was. *)
Theorem syncTrips_files_trips_under_user userId trips now db :
  exists response db',
    syncTrips {| SyncTripsRequest.userId := userId;
                 SyncTripsRequest.trips := trips |} now db
    = inr (response, db')
    /\ SyncTripsResponse.syncedCount response = length trips
    /\ (forall trip, In trip trips ->
          exists r, tripsContainer db' !! (Trip.id trip, userId) = Some r
                    /\ Trip.userId r = userId /\ Trip.synced r = true
                    /\ Trip.createdAt r = iso now)
    /\ (forall key,
          (forall trip, In trip trips -> key <> (Trip.id trip, userId)) ->
          tripsContainer db' !! key = tripsContainer db !! key).
Proof.
  unfold syncTrips, bind; cbn [SyncTripsRequest.userId SyncTripsRequest.trips].
  match goal with
  | |- context [syncTripsLoop userId trips now ?c0 db] =>
      destruct (syncTripsLoop_trips userId trips now c0 db)
        as (c' & db' & H & Hs & Hin & Hkeep & Hnone & _)
  end.
  rewrite H. eexists _, db'. split; [reflexivity|].
  split; [cbn; rewrite Hs; reflexivity|].
  split; [exact Hin|].
  intros key Hne.
  destruct (tripsContainer db !! key) as [r|] eqn:E.
  - apply (Hkeep _ _ E Hne).
  - apply (Hnone _ E Hne).
Qed.

Lemma crowd_put_service item db :
  serviceStore db -> serviceBuilt item -> serviceStore (crowd_put item db).
Proof.
  intros Hs Hb k e. unfold crowd_put. cbn [crowdContainer].
  destruct (decide ((CrowdSegment.id item, CrowdSegment.geohash item) = k))
    as [<- | Hne].
  - rewrite lookup_insert_eq. intros [= <-]. exact Hb.
  - rewrite lookup_insert_ne by exact Hne. apply Hs.
Qed.

Lemma known_same db db' segments :
  (forall k, is_Some (crowdContainer db' !! k)
             <-> is_Some (crowdContainer db !! k)) ->
  known db' segments = known db segments.
Proof.
  intros H. unfold known. apply list_filter_iff. intros s. apply H.
Qed.

Lemma known_cons db segment rest :
  length (known db (segment :: rest))
  = ((if bool_decide (is_Some (crowdContainer db !! segmentKey segment))
      then 1 else 0) + length (known db rest))%nat.
Proof.
  unfold known. rewrite filter_cons.
  destruct (decide (is_Some (crowdContainer db !! segmentKey segment)))
    as [H | H].
  - rewrite (bool_decide_eq_true_2 _ H). reflexivity.
  - rewrite (bool_decide_eq_false_2 _ H). reflexivity.
Qed.

Lemma known_app db l1 l2 : known db (l1 ++ l2) = known db l1 ++ known db l2.
Proof. unfold known. apply filter_app. Qed.

Lemma updateCrowdSegment_step segment trip now db :
  store_ok db ->
  exists db',
    updateCrowdSegment segment trip now db
    = inr ((false,
            bool_decide (is_Some (crowdContainer db !! segmentKey segment))),
           db')
    /\ store_ok db'
    /\ (forall k, is_Some (crowdContainer db' !! k)
                  <-> is_Some (crowdContainer db !! k))
    /\ (serviceStore db -> serviceStore db')
    /\ usersContainer db' = usersContainer db
    /\ tripsContainer db' = tripsContainer db.
Proof.
  intros Hok.
  destruct (crowdContainer db !! segmentKey segment) as [existing|] eqn:E.
  - rewrite (updateCrowdSegment_present _ _ _ _ _ E).
    destruct (Hok _ _ E) as [Hkey Hfin].
    destruct (CrowdSegment.sampleCount existing) as [n| | |] eqn:En;
      try contradiction.
    eexists. split; [reflexivity|].
    split.
    { apply crowd_put_ok; [exact Hok|].
      rewrite (updateExisting_count _ _ _ _ _ En). exact I. }
    split.
    { intros k. unfold crowd_put; cbn [crowdContainer].
      rewrite updateExisting_key, Hkey.
      destruct (decide (segmentKey segment = k)) as [<- | Hne].
      - rewrite lookup_insert_eq, E. split; eauto.
      - rewrite lookup_insert_ne by exact Hne. reflexivity. }
    split; [| split; reflexivity].
    intros Hs. apply crowd_put_service; [exact Hs|].
    destruct (Hs _ _ E) as (H1 & H2 & H3 & H4 & H5 & H6).
    unfold serviceBuilt, updateExisting; cbn.
    repeat split; assumption.
  - rewrite (updateCrowdSegment_absent _ _ _ _ E).
    exists db. split; [reflexivity|].
    split; [exact Hok|]. split; [reflexivity|].
    split; [auto | split; reflexivity].
Qed.

Lemma syncSegments_counters segments : forall trip now c db,
  store_ok db ->
  exists c' db',
    syncSegments segments trip now c db = inr (c', db')
    /\ store_ok db'
    /\ syncedCount c' = syncedCount c
    /\ newSegmentsCreated c' = newSegmentsCreated c
    /\ crowdUpdatesApplied c'
       = (crowdUpdatesApplied c + length (known db segments))%nat
    /\ (forall k, is_Some (crowdContainer db' !! k)
                  <-> is_Some (crowdContainer db !! k))
    /\ (serviceStore db -> serviceStore db')
    /\ usersContainer db' = usersContainer db.
Proof.
  induction segments as [|segment rest IH]; intros trip now c db Hok.
  - exists c, db. split; [reflexivity|]. split; [exact Hok|].
    split; [reflexivity|]. split; [reflexivity|]. split; [cbn; lia|].
    split; [reflexivity|]. split; [auto | reflexivity].
  - destruct (updateCrowdSegment_step segment trip now db Hok)
      as (db1 & H & Hok1 & Hdom & Hsrv & Hu & _).
    cbn [syncSegments]. unfold bind. rewrite H.
    match goal with
    | |- context [syncSegments rest trip now ?c1 db1] =>
        destruct (IH trip now c1 db1 Hok1)
          as (c' & db' & H' & Hok' & Hs & Hnew & Hupd & Hdom' & Hsrv' & Hu')
    end.
    exists c', db'. split; [exact H'|]. split; [exact Hok'|].
    split; [exact Hs|].
    cbn [newSegmentsCreated crowdUpdatesApplied] in Hnew, Hupd.
    split; [exact Hnew|].
    split.
    { rewrite Hupd, known_cons, (known_same db db1 rest Hdom).
      destruct (bool_decide _); lia. }
    split; [intros k; rewrite Hdom'; apply Hdom|].
    split; [auto | congruence].
Qed.

Lemma store_ok_crowd db db' :
  crowdContainer db' = crowdContainer db -> store_ok db -> store_ok db'.
Proof. intros E H k e. rewrite E. apply H. Qed.

Lemma serviceStore_crowd db db' :
  crowdContainer db' = crowdContainer db -> serviceStore db -> serviceStore db'.
Proof. intros E H k e. rewrite E. apply H. Qed.

Lemma syncTrip_counters userId trip now c db :
  store_ok db -> shares db userId ->
  exists c' db',
    syncTrip userId trip now c db = inr (c', db')
    /\ store_ok db' /\ shares db' userId
    /\ newSegmentsCreated c' = newSegmentsCreated c
    /\ crowdUpdatesApplied c'
       = (crowdUpdatesApplied c
          + length (known db (default [] (Trip.segments trip))))%nat
    /\ (forall k, is_Some (crowdContainer db' !! k)
                  <-> is_Some (crowdContainer db !! k))
    /\ (serviceStore db -> serviceStore db').
Proof.
  intros Hok Hsh.
  unfold syncTrip, bind, saveTrip; cbv beta iota zeta.
  match goal with
  | |- context [getOrCreateUser userId now ?d] =>
      assert (Hsh0 : shares d userId) by exact Hsh;
      destruct (getOrCreateUser_effect userId now d Hsh0)
        as (user & db1 & H & Hshare & Hsh1 & Ht & Hc)
  end.
  rewrite H, Hshare. cbn [crowdContainer] in Hc.
  assert (Hok1 : store_ok db1) by (apply (store_ok_crowd db); assumption).
  assert (Hdom1 : forall k, is_Some (crowdContainer db1 !! k)
                            <-> is_Some (crowdContainer db !! k))
    by (intros k; rewrite Hc; reflexivity).
  destruct (Trip.segments trip) as [segments|]; cbn [default].
  - match goal with
    | |- context [syncSegments segments trip now ?c1 db1] =>
        destruct (syncSegments_counters segments trip now c1 db1 Hok1)
          as (c' & db' & H' & Hok' & Hs & Hnew & Hupd & Hdom & Hsrv & Hu)
    end.
    exists c', db'. split; [exact H'|]. split; [exact Hok'|].
    split; [unfold shares in *; rewrite Hu; exact Hsh1|].
    cbn [newSegmentsCreated crowdUpdatesApplied] in Hnew, Hupd.
    split; [exact Hnew|].
    split; [rewrite Hupd, (known_same db db1 segments Hdom1); reflexivity|].
    split; [intros k; rewrite Hdom; apply Hdom1|].
    intros Hs0. apply Hsrv. apply (serviceStore_crowd db); assumption.
  - eexists _, db1. split; [reflexivity|]. split; [exact Hok1|].
    split; [exact Hsh1|]. cbn [newSegmentsCreated crowdUpdatesApplied length].
    split; [reflexivity|]. split; [cbn; lia|]. split; [exact Hdom1|].
    intros Hs0. apply (serviceStore_crowd db); assumption.
Qed.

Lemma batchSegments_cons trip rest :
  batchSegments (trip :: rest)
  = default [] (Trip.segments trip) ++ batchSegments rest.
Proof. reflexivity. Qed.

Lemma syncTripsLoop_counters userId trips : forall now c db,
  store_ok db -> shares db userId ->
  exists c' db',
    syncTripsLoop userId trips now c db = inr (c', db')
    /\ store_ok db' /\ shares db' userId
    /\ newSegmentsCreated c' = newSegmentsCreated c
    /\ crowdUpdatesApplied c'
       = (crowdUpdatesApplied c + length (known db (batchSegments trips)))%nat
    /\ (forall k, is_Some (crowdContainer db' !! k)
                  <-> is_Some (crowdContainer db !! k))
    /\ (serviceStore db -> serviceStore db').
Proof.
  induction trips as [|trip rest IH]; intros now c db Hok Hsh.
  - exists c, db. split; [reflexivity|]. split; [exact Hok|].
    split; [exact Hsh|]. split; [reflexivity|]. split; [cbn; lia|].
    split; [reflexivity | auto].
  - cbn [syncTripsLoop]. unfold bind.
    destruct (syncTrip_counters userId trip now c db Hok Hsh)
      as (c1 & db1 & H & Hok1 & Hsh1 & Hnew & Hupd & Hdom & Hsrv).
    rewrite H.
    destruct (IH now c1 db1 Hok1 Hsh1)
      as (c' & db' & H' & Hok' & Hsh' & Hnew' & Hupd' & Hdom' & Hsrv').
    exists c', db'. split; [exact H'|]. split; [exact Hok'|].
    split; [exact Hsh'|]. split; [congruence|].
    split.
    { rewrite Hupd', Hupd, batchSegments_cons, known_app, length_app.
      rewrite (known_same db db1 _ Hdom). lia. }
    split; [intros k; rewrite Hdom'; apply Hdom | auto].
Qed.

Lemma empty_db_service : serviceStore empty_db.
Proof. intros k e. cbn. rewrite lookup_empty. discriminate. Qed.

Lemma cellStore_service : serviceStore cellStore.
Proof.
  apply crowd_put_service; [apply empty_db_service|].
  unfold serviceBuilt, firstSample, newSegment, noStats; cbn.
  repeat split; reflexivity.
Qed.

(** X5: [syncTrips] only ever updates aggregates that the store already
    holds.  For a user who shares, on a store whose aggregates sit under
    their own keys, [crowdUpdatesApplied] is the number of segments of the
    batch whose aggregate exists, [newSegmentsCreated] is 0, and the crowd
    container has the same keys after the call as before: a segment without
    an aggregate is skipped, because the creation of a record is in a
    [catch] branch for a 404 that reading an absent item does not throw. *)
Theorem syncTrips_counters userId trips now db :
  store_ok db -> shares db userId ->
  exists response db',
    syncTrips {| SyncTripsRequest.userId := userId;
                 SyncTripsRequest.trips := trips |} now db
    = inr (response, db')
    /\ SyncTripsResponse.newSegmentsCreated response = 0%nat
    /\ SyncTripsResponse.crowdUpdatesApplied response
       = length (known db (batchSegments trips))
    /\ (forall k, is_Some (crowdContainer db' !! k)
                  <-> is_Some (crowdContainer db !! k)).
Proof.
  intros Hok Hsh.
  unfold syncTrips, bind; cbn [SyncTripsRequest.userId SyncTripsRequest.trips].
  match goal with
  | |- context [syncTripsLoop userId trips now ?c0 db] =>
      destruct (syncTripsLoop_counters userId trips now c0 db Hok Hsh)
        as (c' & db' & H & _ & _ & Hnew & Hupd & Hdom & _)
  end.
  rewrite H. eexists _, db'. split; [reflexivity|].
  cbn in *. split; [exact Hnew|]. split; [exact Hupd | exact Hdom].
Qed.

(** The theorem at the one-trip batch and the store that holds the aggregate
    of its segment. *)
Lemma syncTrips_counters_witness :
  exists response db',
    syncTrips {| SyncTripsRequest.userId := "u1";
                 SyncTripsRequest.trips := [commute] |} noon cellStore
    = inr (response, db')
    /\ SyncTripsResponse.newSegmentsCreated response = 0%nat
    /\ SyncTripsResponse.crowdUpdatesApplied response
       = length (known cellStore (batchSegments [commute]))
    /\ (forall k, is_Some (crowdContainer db' !! k)
                  <-> is_Some (crowdContainer cellStore !! k)).
Proof.
  apply (syncTrips_counters "u1" [commute] noon cellStore).
  - apply cellStore_ok.
  - apply cellStore_shares.
Defined.

Lemma syncTrip_opted_out userId trip now c db :
  optedOut db userId ->
  exists db',
    syncTrip userId trip now c db
    = inr ({| syncedCount := S (syncedCount c);
              newSegmentsCreated := newSegmentsCreated c;
              crowdUpdatesApplied := crowdUpdatesApplied c |}, db')
    /\ crowdContainer db' = crowdContainer db
    /\ usersContainer db' = usersContainer db.
Proof.
  intros (user & Hu & Hshare).
  unfold syncTrip, bind, saveTrip; cbv beta iota zeta.
  match goal with
  | |- context [getOrCreateUser userId now ?d] =>
      destruct (getOrCreateUser_cases userId now d)
        as [(user' & E & H) | (E & H)]
  end; cbn [usersContainer] in E; rewrite Hu in E; [| discriminate].
  inversion E; subst user'. rewrite H, Hshare.
  eexists. split; [reflexivity|]. split; reflexivity.
Qed.

Lemma syncTripsLoop_opted_out userId trips : forall now c db,
  optedOut db userId ->
  exists db',
    syncTripsLoop userId trips now c db
    = inr ({| syncedCount := (syncedCount c + length trips)%nat;
              newSegmentsCreated := newSegmentsCreated c;
              crowdUpdatesApplied := crowdUpdatesApplied c |}, db')
    /\ crowdContainer db' = crowdContainer db
    /\ usersContainer db' = usersContainer db.
Proof.
  induction trips as [|trip rest IH]; intros now c db Hout.
  - exists db. cbn. rewrite Nat.add_0_r. destruct c; split; [reflexivity|].
    split; reflexivity.
  - cbn [syncTripsLoop]. unfold bind.
    destruct (syncTrip_opted_out userId trip now c db Hout)
      as (db1 & H & Hc & Hu).
    rewrite H.
    assert (Hout1 : optedOut db1 userId).
    { destruct Hout as (user & E & Hs). exists user. rewrite Hu. auto. }
    match goal with
    | |- context [syncTripsLoop userId rest now ?c1 db1] =>
        destruct (IH now c1 db1 Hout1) as (db' & H' & Hc' & Hu')
    end.
    exists db'. rewrite H'. cbn [syncedCount newSegmentsCreated crowdUpdatesApplied length].
    split; [do 3 f_equal; lia|]. split; congruence.
Qed.

Lemma syncTrips_opted_out userId trips now db :
  optedOut db userId ->
  exists db',
    syncTrips {| SyncTripsRequest.userId := userId;
                 SyncTripsRequest.trips := trips |} now db
    = inr ({| SyncTripsResponse.syncedCount := length trips;
              SyncTripsResponse.newSegmentsCreated := 0;
              SyncTripsResponse.crowdUpdatesApplied := 0;
              SyncTripsResponse.syncTimestamp := iso now |}, db')
    /\ crowdContainer db' = crowdContainer db.
Proof.
  intros Hout.
  unfold syncTrips, bind; cbn [SyncTripsRequest.userId SyncTripsRequest.trips].
  match goal with
  | |- context [syncTripsLoop userId trips now ?c0 db] =>
      destruct (syncTripsLoop_opted_out userId trips now c0 db Hout)
        as (db' & H & Hc & _)
  end.
  rewrite H. exists db'. split; [reflexivity | exact Hc].
Qed.

(** X6: a user whose stored profile has [shareAnonymousData] off
    contributes nothing to the crowd data: the trips of the batch are still
    counted as synced, but no aggregate is created or updated and the crowd
    container is left exactly as it was. *)
Theorem syncTrips_respects_opt_out userId trips now db :
  optedOut db userId ->
  exists response db',
    syncTrips {| SyncTripsRequest.userId := userId;
                 SyncTripsRequest.trips := trips |} now db
    = inr (response, db')
    /\ SyncTripsResponse.syncedCount response = length trips
    /\ SyncTripsResponse.newSegmentsCreated response = 0%nat
    /\ SyncTripsResponse.crowdUpdatesApplied response = 0%nat
    /\ crowdContainer db' = crowdContainer db.
Proof.
  intros Hout.
  destruct (syncTrips_opted_out userId trips now db Hout) as (db' & H & Hc).
  eexists _, db'. split; [exact H|]. repeat split; try reflexivity. exact Hc.
Qed.

(** The theorem at the one-trip batch and a store in which [u1] has turned
    sharing off. *)
Lemma syncTrips_respects_opt_out_witness :
  exists response db',
    syncTrips {| SyncTripsRequest.userId := "u1";
                 SyncTripsRequest.trips := [commute] |} noon privateStore
    = inr (response, db')
    /\ SyncTripsResponse.syncedCount response = length [commute]
    /\ SyncTripsResponse.newSegmentsCreated response = 0%nat
    /\ SyncTripsResponse.crowdUpdatesApplied response = 0%nat
    /\ crowdContainer db' = crowdContainer privateStore.
Proof.
  apply (syncTrips_respects_opt_out "u1" [commute] noon privateStore).
  exists privateProfile. split; [apply lookup_singleton_eq | reflexivity].
Defined.

(** X7: turning sharing off through [PUT /api/user/:userId/preferences]
    takes effect on the next sync: the handler answers 200 with preferences
    that do not share, and a later [syncTrips] of that user, whatever the
    batch, creates and updates no aggregate and leaves the crowd container
    as it was before the two calls. *)
Theorem updatePreferences_opt_out_stops_sharing uid preferences now later
    trips db :
  uid <> EmptyString ->
  PartialUserPreferences.shareAnonymousData preferences = Some false ->
  exists saved db1 response db2,
    updatePreferences (Some uid) preferences now db = (Ok saved, db1)
    /\ UserPreferences.shareAnonymousData saved = false
    /\ syncTrips {| SyncTripsRequest.userId := uid;
                    SyncTripsRequest.trips := trips |} later db1
       = inr (response, db2)
    /\ SyncTripsResponse.newSegmentsCreated response = 0%nat
    /\ SyncTripsResponse.crowdUpdatesApplied response = 0%nat
    /\ crowdContainer db2 = crowdContainer db.
Proof.
  intros Hne Hshare.
  destruct (updatePreferences_spec uid preferences now db Hne)
    as (db1 & H & Hl & _ & _ & Hc).
  assert (Hout : optedOut db1 uid).
  { eexists. split; [exact Hl|]. cbn. rewrite Hshare. reflexivity. }
  destruct (syncTrips_opted_out uid trips later db1 Hout) as (db2 & H2 & Hc2).
  eexists _, db1, _, db2. split; [exact H|].
  split; [cbn; rewrite Hshare; reflexivity|].
  split; [exact H2|]. split; [reflexivity|]. split; [reflexivity|]. congruence.
Qed.

(** The theorem for user [u1] on the empty store. *)
Lemma updatePreferences_opt_out_stops_sharing_witness :
  exists saved db1 response db2,
    updatePreferences (Some "u1") stopSharing noon empty_db = (Ok saved, db1)
    /\ UserPreferences.shareAnonymousData saved = false
    /\ syncTrips {| SyncTripsRequest.userId := "u1";
                    SyncTripsRequest.trips := [commute] |} noon db1
       = inr (response, db2)
    /\ SyncTripsResponse.newSegmentsCreated response = 0%nat
    /\ SyncTripsResponse.crowdUpdatesApplied response = 0%nat
    /\ crowdContainer db2 = crowdContainer empty_db.
Proof.
  apply (updatePreferences_opt_out_stops_sharing "u1" stopSharing noon noon
           [commute] empty_db).
  - discriminate.
  - reflexivity.
Defined.

Lemma shares_or_optedOut db userId : shares db userId \/ optedOut db userId.
Proof.
  unfold shares, optedOut.
  destruct (usersContainer db !! (userId, userId)) as [user|] eqn:E;
    [| left; exact I].
  destruct (UserPreferences.shareAnonymousData (UserProfile.preferences user))
    eqn:Es.
  - left. reflexivity.
  - right. exists user. split; [reflexivity | exact Es].
Qed.

(** X8: the sync service never records traffic patterns, a standard
    deviation, temperature-range statistics or per-regen-level statistics.
    If every aggregate of the store has these members as a new aggregate has
    them (no traffic pattern, deviation 0, empty tables), then so has every
    aggregate after any [syncTrips], for a sharing user and for one who has
    opted out alike. *)
Theorem syncTrips_keeps_service_store userId trips now db :
  store_ok db -> serviceStore db ->
  exists response db',
    syncTrips {| SyncTripsRequest.userId := userId;
                 SyncTripsRequest.trips := trips |} now db
    = inr (response, db')
    /\ store_ok db' /\ serviceStore db'.
Proof.
  intros Hok Hsrv.
  destruct (shares_or_optedOut db userId) as [Hsh | Hout].
  - unfold syncTrips, bind;
      cbn [SyncTripsRequest.userId SyncTripsRequest.trips].
    match goal with
    | |- context [syncTripsLoop userId trips now ?c0 db] =>
        destruct (syncTripsLoop_counters userId trips now c0 db Hok Hsh)
          as (c' & db' & H & Hok' & _ & _ & _ & _ & Hsrv')
    end.
    rewrite H. eexists _, db'. split; [reflexivity|].
    split; [exact Hok' | apply Hsrv', Hsrv].
  - destruct (syncTrips_opted_out userId trips now db Hout) as (db' & H & Hc).
    eexists _, db'. split; [exact H|].
    split; [apply (store_ok_crowd db) | apply (serviceStore_crowd db)];
      assumption.
Qed.

(** The theorem at the one-trip batch and the store that holds the aggregate
    of its segment. *)
Lemma syncTrips_keeps_service_store_witness :
  exists response db',
    syncTrips {| SyncTripsRequest.userId := "u1";
                 SyncTripsRequest.trips := [commute] |} noon cellStore
    = inr (response, db')
    /\ store_ok db' /\ serviceStore db'.
Proof.
  apply (syncTrips_keeps_service_store "u1" [commute] noon cellStore).
  - apply cellStore_ok.
  - apply cellStore_service.
Defined.

End SyncFacts.

(** ** Aggregation of samples *)

Section IngestFacts.

Import Models CosmosDb CosmosQueries Predict PredictApi.

Lemma sumSamples_app l1 l2 :
  sumSamples (l1 ++ l2) = sumSamples l1 + sumSamples l2.
Proof.
  induction l1 as [|[s t] l1 IH]; cbn [sumSamples app]; [lra|].
  rewrite IH. lra.
Qed.

Lemma ofVariant_snoc v seen sample :
  ofVariant v (seen ++ [sample])
  = ofVariant v seen ++ (if decide (variantOf sample = v) then [sample] else []).
Proof.
  unfold ofVariant. rewrite filter_app. reflexivity.
Qed.

Lemma for_key_value sample k :
  for_key k sample ->
  TripSegment.whPerKm (fst sample) = Fin (sampleValue (fst sample)).
Proof.
  intros [_ Hf]. unfold sampleValue.
  destruct (TripSegment.whPerKm (fst sample)); try contradiction. reflexivity.
Qed.

Lemma variantMeans_snoc byVariant seen sample x :
  TripSegment.whPerKm (fst sample) = Fin x ->
  variantMeans byVariant seen ->
  variantMeans (updateByVariant byVariant (variantOf sample) (Fin x))
    (seen ++ [sample]).
Proof.
  intros Hx Hm v. rewrite ofVariant_snoc. unfold updateByVariant.
  pose proof (Hm (variantOf sample)) as Hown.
  destruct (decide (variantOf sample = v)) as [<- | Hne].
  - destruct (byVariant !! variantOf sample) as [stats|] eqn:E.
    + destruct Hown as (a & Ha & Hn & Hpos & Hsum).
      rewrite lookup_insert_eq. cbn [VariantStats.avgWhPerKm
                                      VariantStats.sampleCount].
      rewrite Ha, Hn. rewrite length_app. cbn [length].
      set (n := length (ofVariant (variantOf sample) seen)) in *.
      assert (Hn0 : 0 < INR n) by (apply lt_0_INR; lia).
      rewrite plus_INR. change (INR 1) with 1.
      exists (a + (x - a) / (INR n + 1)).
      split.
      { rewrite sub_fin, add_fin, div_fin by lra. rewrite add_fin. reflexivity. }
      split; [rewrite add_fin; reflexivity|]. split; [lia|].
      rewrite sumSamples_app. rewrite <- Hsum.
      destruct sample as [s t]. cbn [sumSamples]. unfold sampleValue.
      cbn [fst] in Hx. rewrite Hx. field. lra.
    + rewrite lookup_insert_eq. rewrite Hown. cbn [app length].
      exists x. cbn. split; [reflexivity|]. split; [reflexivity|].
      split; [lia|].
      destruct sample as [s t]. cbn [sumSamples]. unfold sampleValue.
      cbn [fst] in Hx. rewrite Hx. lra.
  - rewrite app_nil_r.
    destruct (byVariant !! variantOf sample) as [stats|] eqn:E;
      rewrite lookup_insert_ne by exact Hne; apply Hm.
Qed.

(** The table of the aggregate of one sample. *)
Lemma variantMeans_first sample x :
  TripSegment.whPerKm (fst sample) = Fin x ->
  variantMeans
    {[ variantOf sample := {| VariantStats.avgWhPerKm := Fin x;
                              VariantStats.sampleCount := Fin 1 |} ]} [sample].
Proof.
  intros Hx v. unfold ofVariant. rewrite filter_cons, filter_nil.
  destruct (decide (variantOf sample = v)) as [<- | Hne].
  - rewrite lookup_singleton_eq. exists x. cbn [length].
    split; [reflexivity|]. split; [reflexivity|]. split; [lia|].
    destruct sample as [s t]. cbn [sumSamples]. unfold sampleValue.
    cbn [fst] in Hx. rewrite Hx. cbn. lra.
  - rewrite lookup_singleton_ne by exact Hne. reflexivity.
Qed.

Lemma ingestAll_extremes samples : forall now db k e lo0 hi0,
  crowdContainer db !! k = Some e ->
  (CrowdSegment.id e, CrowdSegment.geohash e) = k ->
  AggregatedConsumption.minWhPerKm (CrowdSegment.aggregatedData e) = Fin lo0 ->
  AggregatedConsumption.maxWhPerKm (CrowdSegment.aggregatedData e) = Fin hi0 ->
  Forall (for_key k) samples ->
  exists db' e' lo hi,
    ingestAll samples now db = inr db'
    /\ crowdContainer db' !! k = Some e'
    /\ AggregatedConsumption.minWhPerKm (CrowdSegment.aggregatedData e')
       = Fin lo
    /\ AggregatedConsumption.maxWhPerKm (CrowdSegment.aggregatedData e')
       = Fin hi
    /\ lo <= lo0 /\ hi0 <= hi
    /\ (forall s, In s samples -> lo <= sampleValue (fst s) <= hi)
    /\ (lo = lo0 \/ exists s, In s samples /\ sampleValue (fst s) = lo)
    /\ (hi = hi0 \/ exists s, In s samples /\ sampleValue (fst s) = hi).
Proof.
  induction samples as [|[segment trip] rest IH];
    intros now db k e lo0 hi0 He Hid Hlo Hhi Hall.
  - exists db, e, lo0, hi0. split; [reflexivity|].
    repeat (split; [assumption || lra|]).
    split; [intros s []|]. split; left; reflexivity.
  - pose proof (Forall_inv Hall) as Hk.
    pose proof (Forall_inv_tail Hall) as Hrest.
    pose proof (for_key_value _ _ Hk) as Hx. destruct Hk as [Hkey _].
    cbn [fst] in Hx, Hkey.
    set (x := sampleValue segment) in *.
    clear Hall. rewrite <- Hkey in He, Hid, Hrest |- *.
    cbn [ingestAll]. rewrite (updateCrowdSegment_present _ _ _ _ _ He).
    set (e1 := updateExisting e segment trip now).
    assert (Hid1 : (CrowdSegment.id e1, CrowdSegment.geohash e1)
                   = segmentKey segment).
    { unfold e1. rewrite updateExisting_key. exact Hid. }
    assert (He1 : crowdContainer (crowd_put e1 db) !! segmentKey segment
                  = Some e1).
    { rewrite <- Hid1. apply crowd_put_lookup. }
    assert (Hlo1 : AggregatedConsumption.minWhPerKm
                     (CrowdSegment.aggregatedData e1) = Fin (Rmin lo0 x)).
    { unfold e1, updateExisting.
      cbn [CrowdSegment.aggregatedData AggregatedConsumption.minWhPerKm].
      rewrite Hlo, Hx. apply min_fin. }
    assert (Hhi1 : AggregatedConsumption.maxWhPerKm
                     (CrowdSegment.aggregatedData e1) = Fin (Rmax hi0 x)).
    { unfold e1, updateExisting.
      cbn [CrowdSegment.aggregatedData AggregatedConsumption.maxWhPerKm].
      rewrite Hhi, Hx. apply max_fin. }
    destruct (IH now (crowd_put e1 db) (segmentKey segment) e1 _ _
                He1 Hid1 Hlo1 Hhi1 Hrest)
      as (db' & e' & lo & hi & Hrun & He' & Hlo' & Hhi' & Hle & Hge & Hin
          & Hmin & Hmax).
    exists db', e', lo, hi. split; [exact Hrun|]. split; [exact He'|].
    split; [exact Hlo'|]. split; [exact Hhi'|].
    pose proof (Rmin_l lo0 x). pose proof (Rmin_r lo0 x).
    pose proof (Rmax_l hi0 x). pose proof (Rmax_r hi0 x).
    split; [lra|]. split; [lra|].
    split.
    { intros s [<- | Hs]; [cbn [fst]; fold x; lra | apply Hin, Hs]. }
    split.
    + destruct Hmin as [-> | (s & Hs & Es)].
      * unfold Rmin. destruct (Rle_dec lo0 x); [left; reflexivity|].
        right. exists (segment, trip). split; [left; reflexivity | reflexivity].
      * right. exists s. split; [right; exact Hs | exact Es].
    + destruct Hmax as [-> | (s & Hs & Es)].
      * unfold Rmax. destruct (Rle_dec hi0 x); [| left; reflexivity].
        right. exists (segment, trip). split; [left; reflexivity | reflexivity].
      * right. exists s. split; [right; exact Hs | exact Es].
Qed.

(** X9: the stored [minWhPerKm] and [maxWhPerKm] follow the samples
    exactly.  After samples of one aggregate (finite values, one geohash and
    start index) have been ingested one at a time into a store that holds
    the aggregate with finite extremes, the new minimum is the least of the
    old minimum and the sample values, and the new maximum the greatest of
    the old maximum and the sample values: every sample lies between them,
    and each of them is the old one or the value of some sample. *)
Theorem ingest_tracks_extremes k samples now db e lo0 hi0 :
  crowdContainer db !! k = Some e ->
  (CrowdSegment.id e, CrowdSegment.geohash e) = k ->
  AggregatedConsumption.minWhPerKm (CrowdSegment.aggregatedData e) = Fin lo0 ->
  AggregatedConsumption.maxWhPerKm (CrowdSegment.aggregatedData e) = Fin hi0 ->
  Forall (for_key k) samples ->
  exists db' e' lo hi,
    ingestAll samples now db = inr db'
    /\ crowdContainer db' !! k = Some e'
    /\ AggregatedConsumption.minWhPerKm (CrowdSegment.aggregatedData e')
       = Fin lo
    /\ AggregatedConsumption.maxWhPerKm (CrowdSegment.aggregatedData e')
       = Fin hi
    /\ lo <= lo0 /\ hi0 <= hi
    /\ (forall s, In s samples -> lo <= sampleValue (fst s) <= hi)
    /\ (lo = lo0 \/ exists s, In s samples /\ sampleValue (fst s) = lo)
    /\ (hi = hi0 \/ exists s, In s samples /\ sampleValue (fst s) = hi).
Proof. apply ingestAll_extremes. Qed.

(** The theorem at two further samples of the first leg and the store that
    holds its aggregate. *)
Lemma ingest_tracks_extremes_witness :
  exists db' e' lo hi,
    ingestAll furtherSamples noon cellStore = inr db'
    /\ crowdContainer db' !! ("tdr1wx-0", "tdr1wx") = Some e'
    /\ AggregatedConsumption.minWhPerKm (CrowdSegment.aggregatedData e')
       = Fin lo
    /\ AggregatedConsumption.maxWhPerKm (CrowdSegment.aggregatedData e')
       = Fin hi
    /\ lo <= 150 /\ 150 <= hi
    /\ (forall s, In s furtherSamples -> lo <= sampleValue (fst s) <= hi)
    /\ (lo = 150
        \/ exists s, In s furtherSamples /\ sampleValue (fst s) = lo)
    /\ (hi = 150
        \/ exists s, In s furtherSamples /\ sampleValue (fst s) = hi).
Proof.
  apply (ingest_tracks_extremes ("tdr1wx-0", "tdr1wx") furtherSamples noon
           cellStore firstSample 150 150).
  - apply cellStore_lookup.
  - reflexivity.
  - reflexivity.
  - reflexivity.
  - repeat constructor.
Defined.

Lemma ingestAll_variantMeans samples : forall now db k e seen,
  crowdContainer db !! k = Some e ->
  (CrowdSegment.id e, CrowdSegment.geohash e) = k ->
  variantMeans
    (AggregatedConsumption.byVariant (CrowdSegment.aggregatedData e)) seen ->
  Forall (for_key k) samples ->
  exists db' e',
    ingestAll samples now db = inr db'
    /\ crowdContainer db' !! k = Some e'
    /\ variantMeans
         (AggregatedConsumption.byVariant (CrowdSegment.aggregatedData e'))
         (seen ++ samples).
Proof.
  induction samples as [|[segment trip] rest IH];
    intros now db k e seen He Hid Hvar Hall.
  - exists db, e. rewrite app_nil_r. split; [reflexivity|].
    split; assumption.
  - pose proof (Forall_inv Hall) as Hk.
    pose proof (Forall_inv_tail Hall) as Hrest.
    pose proof (for_key_value _ _ Hk) as Hx. destruct Hk as [Hkey _].
    cbn [fst] in Hx, Hkey.
    clear Hall. rewrite <- Hkey in He, Hid, Hrest |- *.
    cbn [ingestAll]. rewrite (updateCrowdSegment_present _ _ _ _ _ He).
    set (e1 := updateExisting e segment trip now).
    assert (Hid1 : (CrowdSegment.id e1, CrowdSegment.geohash e1)
                   = segmentKey segment).
    { unfold e1. rewrite updateExisting_key. exact Hid. }
    assert (He1 : crowdContainer (crowd_put e1 db) !! segmentKey segment
                  = Some e1).
    { rewrite <- Hid1. apply crowd_put_lookup. }
    assert (Hvar1 : variantMeans
                      (AggregatedConsumption.byVariant
                         (CrowdSegment.aggregatedData e1))
                      (seen ++ [(segment, trip)])).
    { unfold e1, updateExisting.
      cbn [CrowdSegment.aggregatedData AggregatedConsumption.byVariant].
      rewrite Hx.
      apply (variantMeans_snoc _ seen (segment, trip)); assumption. }
    destruct (IH now (crowd_put e1 db) (segmentKey segment) e1 _
                He1 Hid1 Hvar1 Hrest) as (db' & e' & Hrun & He' & Hvar').
    exists db', e'. split; [exact Hrun|]. split; [exact He'|].
    rewrite <- app_assoc in Hvar'. exact Hvar'.
Qed.

(** X10: unlike the overall average, the per-variant averages are not
    rounded.  If the [byVariant] table of an aggregate holds, for the
    samples seen so far, an entry exactly for the variants that contributed
    and in it the number of the variant's samples and their exact mean, then
    it still does after further samples of that aggregate (finite values,
    variant ids that are ordinary keys of the table) have been ingested one
    at a time. *)
Theorem ingest_variant_means_exact k seen samples now db e :
  crowdContainer db !! k = Some e ->
  (CrowdSegment.id e, CrowdSegment.geohash e) = k ->
  variantMeans
    (AggregatedConsumption.byVariant (CrowdSegment.aggregatedData e)) seen ->
  Forall (for_key k) samples ->
  Forall ordinaryVariant samples ->
  exists db' e',
    ingestAll samples now db = inr db'
    /\ crowdContainer db' !! k = Some e'
    /\ forall v,
         match AggregatedConsumption.byVariant (CrowdSegment.aggregatedData e')
               !! v with
         | Some stats =>
             exists a,
               VariantStats.avgWhPerKm stats = Fin a
               /\ VariantStats.sampleCount stats
                  = Fin (INR (length (ofVariant v (seen ++ samples))))
               /\ (1 <= length (ofVariant v (seen ++ samples)))%nat
               /\ a = sumSamples (ofVariant v (seen ++ samples))
                      / INR (length (ofVariant v (seen ++ samples)))
         | None => ofVariant v (seen ++ samples) = []
         end.
Proof.
  intros He Hid Hvar0 Hall _.
  destruct (ingestAll_variantMeans samples now db k e seen He Hid Hvar0 Hall)
    as (db' & e' & H & He' & Hvar).
  exists db', e'. split; [exact H|]. split; [exact He'|].
  intros v. specialize (Hvar v).
  destruct (AggregatedConsumption.byVariant (CrowdSegment.aggregatedData e') !! v);
    [| exact Hvar].
  destruct Hvar as (a & Ha & Hn & Hpos & Hsum).
  exists a. split; [exact Ha|]. split; [exact Hn|]. split; [exact Hpos|].
  rewrite <- Hsum. field. apply not_0_INR. lia.
Qed.

(** The theorem at the aggregate of one sample and two further samples of
    the same leg. *)
Lemma ingest_variant_means_exact_witness :
  exists db' e',
    ingestAll furtherSamples noon cellStore = inr db'
    /\ crowdContainer db' !! ("tdr1wx-0", "tdr1wx") = Some e'
    /\ forall v,
         match AggregatedConsumption.byVariant (CrowdSegment.aggregatedData e')
               !! v with
         | Some stats =>
             exists a,
               VariantStats.avgWhPerKm stats = Fin a
               /\ VariantStats.sampleCount stats
                  = Fin (INR (length (ofVariant v
                                        ([(segmentAt 0 150, commute)]
                                         ++ furtherSamples))))
               /\ (1 <= length (ofVariant v ([(segmentAt 0 150, commute)]
                                             ++ furtherSamples)))%nat
               /\ a = sumSamples (ofVariant v ([(segmentAt 0 150, commute)]
                                               ++ furtherSamples))
                      / INR (length (ofVariant v
                                       ([(segmentAt 0 150, commute)]
                                        ++ furtherSamples)))
         | None =>
             ofVariant v ([(segmentAt 0 150, commute)] ++ furtherSamples) = []
         end.
Proof.
  apply (ingest_variant_means_exact ("tdr1wx-0", "tdr1wx")
           [(segmentAt 0 150, commute)] furtherSamples noon cellStore
           firstSample).
  - apply cellStore_lookup.
  - reflexivity.
  - apply (variantMeans_first (segmentAt 0 150, commute) 150). reflexivity.
  - repeat constructor.
  - repeat constructor; unfold ordinaryVariant; vm_compute;
      apply not_elem_of_cons; (split; [discriminate|]);
      repeat (apply not_elem_of_cons; split; [discriminate|]);
      apply not_elem_of_nil.
Defined.

Lemma exp_double_le a u u' : exp a <= u -> u * u <= u' -> exp (2 * a) <= u'.
Proof.
  intros H1 H2. replace (2 * a) with (a + a) by lra. rewrite exp_plus.
  pose proof (exp_pos a). nra.
Qed.

Lemma exp_double_ge a l l' :
  0 <= l -> l <= exp a -> l' <= l * l -> l' <= exp (2 * a).
Proof.
  intros H0 H1 H2. replace (2 * a) with (a + a) by lra. rewrite exp_plus. nra.
Qed.

Lemma exp_07_upper : exp 0.7 <= 2.01569052.
Proof.
  assert (H0 : exp 0.002734375 <= 1.00274188).
  { etransitivity; [apply exp_upper_small; lra|].
    apply (Rmult_le_reg_r (1 - 0.002734375)); [lra|].
    rewrite Rinv_l by lra. lra. }
  assert (H1 : exp (2 * 0.002734375) <= 1.00549128)
    by (apply (exp_double_le _ _ _ H0); lra).
  assert (H2 : exp (2 * (2 * 0.002734375)) <= 1.01101272)
    by (apply (exp_double_le _ _ _ H1); lra).
  assert (H3 : exp (2 * (2 * (2 * 0.002734375))) <= 1.02214673)
    by (apply (exp_double_le _ _ _ H2); lra).
  assert (H4 : exp (2 * (2 * (2 * (2 * 0.002734375)))) <= 1.04478394)
    by (apply (exp_double_le _ _ _ H3); lra).
  assert (H5 : exp (2 * (2 * (2 * (2 * (2 * 0.002734375))))) <= 1.09157349)
    by (apply (exp_double_le _ _ _ H4); lra).
  assert (H6 : exp (2 * (2 * (2 * (2 * (2 * (2 * 0.002734375)))))) <= 1.19153269)
    by (apply (exp_double_le _ _ _ H5); lra).
  assert (H7 : exp (2 * (2 * (2 * (2 * (2 * (2 * (2 * 0.002734375)))))))
               <= 1.41975016)
    by (apply (exp_double_le _ _ _ H6); lra).
  assert (H8 : exp (2 * (2 * (2 * (2 * (2 * (2 * (2 * (2 * 0.002734375))))))))
               <= 2.01569052)
    by (apply (exp_double_le _ _ _ H7); lra).
  replace 0.7 with (2 * (2 * (2 * (2 * (2 * (2 * (2 * (2 * 0.002734375))))))))
    by lra.
  exact H8.
Qed.

Lemma exp_072_lower : 2.03810286 <= exp 0.72.
Proof.
  assert (H0 : 1.0225 <= exp 0.0225).
  { pose proof (exp_ineq1_le 0.0225). lra. }
  assert (H1 : 1.04550625 <= exp (2 * 0.0225))
    by (apply (exp_double_ge _ 1.0225); [lra | exact H0 | lra]).
  assert (H2 : 1.09308331 <= exp (2 * (2 * 0.0225)))
    by (apply (exp_double_ge _ 1.04550625); [lra | exact H1 | lra]).
  assert (H3 : 1.19483112 <= exp (2 * (2 * (2 * 0.0225))))
    by (apply (exp_double_ge _ 1.09308331); [lra | exact H2 | lra]).
  assert (H4 : 1.4276214 <= exp (2 * (2 * (2 * (2 * 0.0225)))))
    by (apply (exp_double_ge _ 1.19483112); [lra | exact H3 | lra]).
  assert (H5 : 2.03810286 <= exp (2 * (2 * (2 * (2 * (2 * 0.0225))))))
    by (apply (exp_double_ge _ 1.4276214); [lra | exact H4 | lra]).
  replace 0.72 with (2 * (2 * (2 * (2 * (2 * 0.0225))))) by lra.
  exact H5.
Qed.

Lemma varianceMultiplierR_zero : varianceMultiplierR 0 = 1.
Proof. unfold varianceMultiplierR. rewrite Rmax_right; lra. Qed.

Lemma confidenceR_young n : n <= 35 -> confidenceR n 0 <= 0.5.
Proof.
  intros Hn. unfold confidenceR. rewrite varianceMultiplierR_zero.
  assert (Hs : sampleConfidenceR n <= 0.504).
  { etransitivity; [apply (sampleConfidenceR_mono n 35 Hn)|].
    unfold sampleConfidenceR. replace (Ropp 35 / 50) with (Ropp 0.7) by lra.
    rewrite exp_Ropp. pose proof exp_07_upper as Hu.
    pose proof (exp_pos 0.7) as Hp.
    assert (/ 2.01569052 <= / exp 0.7) by (apply Rinv_le_contravar; lra).
    assert (0.496 <= / 2.01569052).
    { apply (Rmult_le_reg_r 2.01569052); [lra|]. rewrite Rinv_l by lra. lra. }
    lra. }
  assert (Hz : (Zfloor (sampleConfidenceR n * 1 * 100 + / 2) <= 50)%Z).
  { etransitivity; [apply (Zfloor_le _ (50.4 + / 2)); lra|].
    rewrite (Zfloor_eq 50); [lia | lra]. }
  apply IZR_le in Hz. lra.
Qed.

Lemma confidenceR_mature n : 36 <= n -> 0.51 <= confidenceR n 0.
Proof.
  intros Hn. unfold confidenceR. rewrite varianceMultiplierR_zero.
  assert (Hs : 0.505 <= sampleConfidenceR n).
  { etransitivity; [| apply (sampleConfidenceR_mono 36 n Hn)].
    unfold sampleConfidenceR. replace (Ropp 36 / 50) with (Ropp 0.72) by lra.
    rewrite exp_Ropp. pose proof exp_072_lower as Hl.
    assert (/ exp 0.72 <= / 2.03810286) by (apply Rinv_le_contravar; lra).
    assert (/ 2.03810286 <= 0.495).
    { apply (Rmult_le_reg_r 2.03810286); [lra|]. rewrite Rinv_l by lra. lra. }
    lra. }
  assert (Hz : (51 <= Zfloor (sampleConfidenceR n * 1 * 100 + / 2))%Z).
  { apply Zfloor_lub. lra. }
  apply IZR_le in Hz. lra.
Qed.

End IngestFacts.

(** ** Crowd queries *)

Section QueryFacts.

Import Models CosmosDb CosmosQueries Http CrowdApi.

Lemma getCrowdData_spec geohashes db :
  exists segments,
    getCrowdData geohashes db = inr (segments, db)
    /\ forall s, s ∈ segments
                 <-> CrowdSegment.geohash s ∈ geohashes /\ stored db s.
Proof.
  unfold getCrowdData.
  destruct (decide (length geohashes = 0%nat)) as [Hz | Hnz].
  - exists []. split; [reflexivity|].
    destruct geohashes; [| discriminate].
    intros s. split.
    + intros H. inversion H.
    + intros [H _]. inversion H.
  - eexists. split; [reflexivity|].
    intros s. rewrite list_elem_of_filter. unfold stored.
    rewrite list_elem_of_fmap.
    split.
    + intros (Hg & [k e] & -> & Hin). split; [exact Hg|].
      exists k. apply elem_of_map_to_list. exact Hin.
    + intros (Hg & k & Hk). split; [exact Hg|].
      exists (k, s). split; [reflexivity|].
      apply elem_of_map_to_list. exact Hk.
Qed.

(** X12: [POST /api/crowd/segments] answers 200 without changing the store.
    The segments it returns are exactly the stored aggregates whose geohash
    is among the requested ones, and [notFound] lists exactly the requested
    hashes for which the store has no aggregate: every requested hash is
    either covered by a returned segment or reported as not found, never
    both. *)
Theorem getCrowdSegments_partition segmentHashes db :
  exists segments notFound,
    getCrowdSegments (Some segmentHashes) db
    = (Ok {| GetCrowdDataResponse.segments := segments;
             GetCrowdDataResponse.notFound := notFound |}, db)
    /\ (forall s, s ∈ segments
                  <-> CrowdSegment.geohash s ∈ segmentHashes /\ stored db s)
    /\ (forall h, h ∈ notFound
                  <-> h ∈ segmentHashes
                      /\ forall s, stored db s -> CrowdSegment.geohash s <> h).
Proof.
  unfold getCrowdSegments, handle, bind.
  destruct (getCrowdData_spec segmentHashes db) as (segments & H & Hs).
  rewrite H. cbn [ret].
  eexists _, _. split; [reflexivity|]. split; [exact Hs|].
  intros h. rewrite list_elem_of_filter, list_elem_of_fmap.
  split.
  - intros [Hnot Hin]. split; [exact Hin|].
    intros s Hst Hg. apply Hnot. exists s. split; [symmetry; exact Hg|].
    apply Hs. split; [rewrite Hg; exact Hin | exact Hst].
  - intros [Hin Hnone]. split; [| exact Hin].
    intros (s & Hg & Hsin). apply Hs in Hsin. destruct Hsin as [_ Hst].
    apply (Hnone s Hst). symmetry. exact Hg.
Qed.

Lemma getCrowdDataByGeohash_valid geohash db :
  validGeohash geohash ->
  exists segments,
    getCrowdData [geohash] db = inr (segments, db)
    /\ (forall s, s ∈ segments
                  <-> CrowdSegment.geohash s = geohash /\ stored db s)
    /\ getCrowdDataByGeohash (Some geohash) db
       = (match segments with
          | [] => NotFound "No crowd data found for this geohash"
          | first :: _ => Ok first
          end, db).
Proof.
  intros [Hne Hlen].
  destruct (getCrowdData_spec [geohash] db) as (segments & H & Hs).
  exists segments. split; [exact H|].
  split.
  { intros s. rewrite Hs, list_elem_of_singleton. reflexivity. }
  unfold getCrowdDataByGeohash, handle, present.
  destruct (decide (geohash = EmptyString)); [contradiction|].
  destruct (String.length geohash <? 4)%nat eqn:E1;
    [apply Nat.ltb_lt in E1; lia|].
  destruct (8 <? String.length geohash)%nat eqn:E2;
    [apply Nat.ltb_lt in E2; lia|].
  cbn [orb]. unfold bind. rewrite H.
  destruct segments; reflexivity.
Qed.

Lemma getCrowdDataByGeohash_found geohash db s :
  validGeohash geohash -> stored db s -> CrowdSegment.geohash s = geohash ->
  exists e, getCrowdDataByGeohash (Some geohash) db = (Ok e, db)
            /\ stored db e /\ CrowdSegment.geohash e = geohash.
Proof.
  intros Hv Hst Hg.
  destruct (getCrowdDataByGeohash_valid geohash db Hv)
    as (segments & _ & Hs & H).
  rewrite H. destruct segments as [|first rest].
  - exfalso. assert (Hin : s ∈ ([] : list CrowdSegment.t))
      by (apply Hs; split; assumption).
    inversion Hin.
  - exists first. split; [reflexivity|].
    assert (Hin : first ∈ first :: rest) by left.
    apply Hs in Hin. destruct Hin as [Hg1 Hst1]. split; assumption.
Qed.

(** X13: [GET /api/crowd/geohash/:geohash] never changes the store, and
    answers 400 exactly when the geohash is missing, empty, shorter than 4 or
    longer than 8 characters; for a geohash it accepts, 404 exactly when no
    stored aggregate has that geohash, and otherwise 200 with a stored
    aggregate of that geohash. *)
Theorem getCrowdDataByGeohash_status geohash db :
  (validGeohash geohash ->
     (exists s, stored db s /\ CrowdSegment.geohash s = geohash) ->
     exists e, getCrowdDataByGeohash (Some geohash) db = (Ok e, db)
               /\ stored db e /\ CrowdSegment.geohash e = geohash)
  /\ (validGeohash geohash ->
      (forall s, stored db s -> CrowdSegment.geohash s <> geohash) ->
      exists msg, getCrowdDataByGeohash (Some geohash) db = (NotFound msg, db))
  /\ (~ validGeohash geohash ->
      exists msg, getCrowdDataByGeohash (Some geohash) db = (BadRequest msg, db))
  /\ (exists msg, getCrowdDataByGeohash None db = (BadRequest msg, db)).
Proof.
  split; [| split; [| split]].
  - intros Hv (s & Hst & Hg).
    apply (getCrowdDataByGeohash_found geohash db s Hv Hst Hg).
  - intros Hv Hnone.
    destruct (getCrowdDataByGeohash_valid geohash db Hv)
      as (segments & _ & Hs & H).
    rewrite H. destruct segments as [|first rest].
    + eexists. reflexivity.
    + exfalso. assert (Hin : first ∈ first :: rest) by left.
      apply Hs in Hin. destruct Hin as [Hg1 Hst1].
      apply (Hnone first Hst1 Hg1).
  - intros Hinv. unfold getCrowdDataByGeohash, handle, present, validGeohash in *.
    destruct (decide (geohash = EmptyString)); [eexists; reflexivity|].
    destruct (String.length geohash <? 4)%nat eqn:E1;
      [eexists; reflexivity|].
    destruct (8 <? String.length geohash)%nat eqn:E2;
      [eexists; reflexivity|].
    exfalso. apply Hinv. apply Nat.ltb_ge in E1, E2. split; [assumption | lia].
  - eexists. reflexivity.
Qed.

(** After the update of an aggregate that was the only record of its cell,
    the updated aggregate is. *)
Lemma updated_only_record segment trip now db existing :
  store_ok db ->
  crowdContainer db !! segmentKey segment = Some existing ->
  (forall s, stored db s ->
             CrowdSegment.geohash s = TripSegment.geohash segment ->
             s = existing) ->
  let e1 := updateExisting existing segment trip now in
  updateCrowdSegment segment trip now db = inr ((false, true), crowd_put e1 db)
  /\ crowdContainer (crowd_put e1 db) !! segmentKey segment = Some e1
  /\ CrowdSegment.geohash e1 = TripSegment.geohash segment
  /\ (forall s, stored (crowd_put e1 db) s ->
                CrowdSegment.geohash s = TripSegment.geohash segment ->
                s = e1).
Proof.
  intros Hok E Honly e1.
  destruct (Hok _ _ E) as [Hkey _].
  assert (Hkey1 : (CrowdSegment.id e1, CrowdSegment.geohash e1)
                  = segmentKey segment).
  { unfold e1. rewrite updateExisting_key. exact Hkey. }
  split; [apply updateCrowdSegment_present, E|].
  split; [rewrite <- Hkey1; apply crowd_put_lookup|].
  split; [unfold segmentKey in Hkey1; congruence|].
  intros s [k Hk] Hg.
  destruct (decide (k = segmentKey segment)) as [-> | Hne].
  - rewrite <- Hkey1, crowd_put_lookup in Hk. congruence.
  - rewrite crowd_put_lookup_ne in Hk by (rewrite Hkey1; congruence).
    exfalso. apply Hne.
    assert (s = existing) by (apply Honly; [exists k; exact Hk | exact Hg]).
    subst s. destruct (Hok _ _ Hk) as [Hkey' _]. congruence.
Qed.

Lemma cellStore_only s : stored cellStore s -> s = firstSample.
Proof.
  intros [k Hk]. unfold cellStore, crowd_put, empty_db in Hk.
  cbn [crowdContainer] in Hk.
  apply lookup_insert_Some in Hk. destruct Hk as [[_ ->] | [_ Hk]].
  - reflexivity.
  - rewrite lookup_empty in Hk. discriminate.
Qed.

(** X14: what a sync has aggregated can be read back.  When a trip segment
    with a geohash of 4 to 8 characters is ingested into a store (aggregates
    under their own keys) that holds its aggregate as the only record of the
    cell, [GET /api/crowd/geohash/:geohash] for the segment's geohash then
    answers 200 with the updated aggregate: the record under the segment's
    id, with the sample count raised by one and [lastUpdated] set to the
    time of the ingest. *)
Theorem ingested_cell_is_served segment trip now db existing :
  store_ok db -> validGeohash (TripSegment.geohash segment) ->
  crowdContainer db !! segmentKey segment = Some existing ->
  (forall s, stored db s ->
             CrowdSegment.geohash s = TripSegment.geohash segment ->
             s = existing) ->
  exists db' e,
    updateCrowdSegment segment trip now db = inr ((false, true), db')
    /\ getCrowdDataByGeohash (Some (TripSegment.geohash segment)) db'
       = (Ok e, db')
    /\ crowdContainer db' !! segmentKey segment = Some e
    /\ CrowdSegment.sampleCount e
       = (CrowdSegment.sampleCount existing + Fin 1)%num
    /\ CrowdSegment.lastUpdated e = iso now.
Proof.
  intros Hok Hv E Honly.
  destruct (updated_only_record segment trip now db existing Hok E Honly)
    as (Hrun & Hlook & Hgeo & Honly1).
  set (e1 := updateExisting existing segment trip now) in *.
  destruct (getCrowdDataByGeohash_found (TripSegment.geohash segment)
              (crowd_put e1 db) e1 Hv) as (e & Hget & Hst & Hg).
  { exists (segmentKey segment). exact Hlook. }
  { exact Hgeo. }
  assert (e = e1) by (apply Honly1; assumption). subst e.
  exists (crowd_put e1 db), e1. split; [exact Hrun|]. split; [exact Hget|].
  split; [exact Hlook|]. split; reflexivity.
Qed.

(** The theorem at a second sample of the first leg of [commute] and the
    store that holds the aggregate of that leg. *)
Lemma ingested_cell_is_served_witness :
  exists db' e,
    updateCrowdSegment (segmentAt 0 160) commute noon cellStore
    = inr ((false, true), db')
    /\ getCrowdDataByGeohash (Some "tdr1wx") db' = (Ok e, db')
    /\ crowdContainer db' !! ("tdr1wx-0", "tdr1wx") = Some e
    /\ CrowdSegment.sampleCount e
       = (CrowdSegment.sampleCount firstSample + Fin 1)%num
    /\ CrowdSegment.lastUpdated e = iso noon.
Proof.
  apply (ingested_cell_is_served (segmentAt 0 160) commute noon cellStore
           firstSample).
  - apply cellStore_ok.
  - split; [discriminate | cbn; lia].
  - apply cellStore_lookup.
  - intros s Hs _. apply cellStore_only, Hs.
Defined.

Lemma unique_from_elem seen l x :
  x ∈ unique_from seen l <-> x ∈ l /\ x ∉ seen.
Proof.
  revert seen. induction l as [|y l IH]; intros seen; cbn [unique_from].
  - split; [intros H; inversion H | intros [H _]; inversion H].
  - destruct (decide (y ∈ seen)) as [Hin | Hnot].
    + rewrite IH. rewrite elem_of_cons. split.
      * intros [H1 H2]. split; [right; exact H1 | exact H2].
      * intros [[-> | H1] H2]; [contradiction | split; assumption].
    + rewrite !elem_of_cons, IH, elem_of_cons. split.
      * intros [-> | [H1 H2]].
        -- split; [left; reflexivity | exact Hnot].
        -- split; [right; exact H1|]. intros H. apply H2. right. exact H.
      * intros [[-> | H1] H2]; [left; reflexivity|].
        destruct (decide (x = y)) as [-> | Hne]; [left; reflexivity|].
        right. split; [exact H1|]. intros [-> | H]; [congruence | contradiction].
Qed.

Lemma unique_elem l x : x ∈ unique l <-> x ∈ l.
Proof.
  unfold unique. rewrite unique_from_elem. split; [intros [H _]; exact H|].
  intros H. split; [exact H|]. intros H0. inversion H0.
Qed.

Lemma unique_from_length seen l : (length (unique_from seen l) <= length l)%nat.
Proof.
  revert seen. induction l as [|y l IH]; intros seen; cbn [unique_from length].
  - lia.
  - destruct (decide (y ∈ seen)); cbn [length].
    + specialize (IH seen). lia.
    + specialize (IH (y :: seen)). lia.
Qed.

Lemma unique_from_NoDup seen l : NoDup (unique_from seen l).
Proof.
  revert seen. induction l as [|y l IH]; intros seen; cbn [unique_from].
  - constructor.
  - destruct (decide (y ∈ seen)); [apply IH|].
    constructor; [| apply IH].
    rewrite unique_from_elem. intros [_ H]. apply H. left.
Qed.

Lemma geohash6_returns lat lng :
  calculateGeohash lat lng 6 = Some (geohash6 lat lng)
  /\ String.length (geohash6 lat lng) = 6%nat
  /\ uses_alphabet (geohash6 lat lng) = true.
Proof.
  unfold geohash6, calculateGeohash.
  destruct (geohash_loop_total lat lng 6 (5 * Z.to_nat 6) geohash_init 0 0)
    as (h & H & Hlen & Halpha).
  - apply geohash_init_inv.
  - lia.
  - cbn. lia.
  - change (Z.of_nat 6) with 6%Z in H. rewrite H. cbn [default].
    repeat split; assumption.
Qed.

Lemma getRouteSegments_spec coordinates db :
  exists segments,
    getRouteSegments coordinates db = inr (segments, db)
    /\ forall s, s ∈ segments
         <-> stored db s
             /\ exists c, c ∈ coordinates /\ CrowdSegment.geohash s = cellOf c.
Proof.
  unfold getRouteSegments.
  match goal with
  | |- context [getCrowdData ?g db] =>
      destruct (getCrowdData_spec g db) as (segments & H & Hs)
  end.
  exists segments. split; [exact H|].
  intros s. rewrite Hs, unique_elem, list_elem_of_fmap. unfold cellOf.
  split.
  - intros [(c & Hc & Hin) Hst]. split; [exact Hst|]. exists c. auto.
  - intros [Hst (c & Hin & Hc)]. split; [| exact Hst]. exists c. auto.
Qed.

Lemma round2_fin u :
  (Math_round (Fin u * Fin 100) / Fin 100)%num = Fin (round2R u).
Proof.
  rewrite mul_fin, round_fin, div_fin by lra. reflexivity.
Qed.

(** X15: [POST /api/crowd/route] answers 200 without changing the store.
    It returns exactly the stored aggregates that lie in the 6-character
    cell of some coordinate of the route, counts the route points and at
    most as many distinct cells, and reports as coverage the number of
    returned aggregates per distinct cell, rounded to two decimals: a count
    of records, not of covered cells.  For an empty coordinate list the
    coverage is 0 / 0, that is NaN. *)
Theorem getCrowdDataForRoute_statistics coordinates db :
  exists segments stats,
    getCrowdDataForRoute (Some coordinates) db
    = (Ok {| RouteCrowdData.segments := segments;
             RouteCrowdData.statistics := stats |}, db)
    /\ (forall s, s ∈ segments
          <-> stored db s
              /\ exists c, c ∈ coordinates
                           /\ CrowdSegment.geohash s = cellOf c)
    /\ RouteStatistics.totalSegments stats = length segments
    /\ RouteStatistics.totalRoutePoints stats = length coordinates
    /\ (RouteStatistics.uniqueGeohashes stats <= length coordinates)%nat
    /\ (RouteStatistics.highConfidenceSegments stats <= length segments)%nat
    /\ RouteStatistics.coverageRatio stats
       = match coordinates with
         | [] => NaN
         | _ => Fin (round2R (INR (length segments)
                              / INR (RouteStatistics.uniqueGeohashes stats)))
         end.
Proof.
  unfold getCrowdDataForRoute, handle, bind.
  destruct (getRouteSegments_spec coordinates db) as (segments & H & Hs).
  rewrite H. cbn [ret].
  eexists _, _. split; [reflexivity|]. split; [exact Hs|].
  cbn [RouteStatistics.totalSegments RouteStatistics.totalRoutePoints
       RouteStatistics.uniqueGeohashes RouteStatistics.highConfidenceSegments
       RouteStatistics.coverageRatio].
  split; [reflexivity|]. split; [reflexivity|].
  split.
  { etransitivity; [apply unique_from_length|]. rewrite length_map. lia. }
  split; [apply length_filter|].
  rewrite length_map. unfold of_nat.
  destruct coordinates as [|c rest].
  - destruct segments as [|s l].
    + cbn. unfold div. destruct (Req_dec_T 0 0); [| lra]. reflexivity.
    + exfalso. assert (Hin : s ∈ s :: l) by left.
      apply Hs in Hin. destruct Hin as [_ (c & Hc & _)]. inversion Hc.
  - set (u := unique _).
    assert (Hu : (1 <= length u)%nat).
    { unfold u. cbn [map unique unique_from].
      destruct (decide (geohash6 (Coordinate.lat c) (Coordinate.lng c) ∈ [])) as [Hin|_];
        [inversion Hin | cbn; lia]. }
    rewrite div_fin by (apply not_0_INR; lia).
    apply round2_fin.
Qed.

End QueryFacts.

(** ** Distances *)

Section DistanceFacts.

Import Models JsMath Predict PredictApi.

Lemma sin_half_sq x : sin (x / 2) * sin (x / 2) = (1 - cos x) / 2.
Proof.
  pose proof (cos_2a_sin (x / 2)) as H.
  replace (2 * (x / 2)) with x in H by lra. lra.
Qed.

Lemma haversineR_range lat1 lng1 lat2 lng2 :
  0 <= haversineR lat1 lng1 lat2 lng2 <= 1.
Proof.
  unfold haversineR. rewrite !sin_half_sq.
  replace ((lat2 - lat1) * (PI / 180))
    with (lat2 * (PI / 180) - lat1 * (PI / 180)) by lra.
  set (p1 := lat1 * (PI / 180)). set (p2 := lat2 * (PI / 180)).
  pose proof (COS_bound (p2 - p1)) as K1.
  pose proof (COS_bound (p1 + p2)) as K2.
  pose proof (COS_bound ((lng2 - lng1) * (PI / 180))) as K3.
  rewrite cos_minus in *. rewrite cos_plus in K2.
  set (P := cos p1 * cos p2) in *.
  set (S := sin p1 * sin p2) in *.
  replace (cos p2 * cos p1) with P in * by (unfold P; ring).
  replace (sin p2 * sin p1) with S in * by (unfold S; ring).
  set (h := (1 - cos ((lng2 - lng1) * (PI / 180))) / 2).
  assert (Hh : 0 <= h <= 1) by (unfold h; lra).
  destruct (Rle_dec 0 P) as [HP | HP].
  - assert (0 <= P * h <= P) by nra. lra.
  - assert (P <= P * h <= 0) by nra. lra.
Qed.

Lemma haversineR_sym lat1 lng1 lat2 lng2 :
  haversineR lat2 lng2 lat1 lng1 = haversineR lat1 lng1 lat2 lng2.
Proof.
  unfold haversineR.
  replace ((lat1 - lat2) * (PI / 180) / 2)
    with (- ((lat2 - lat1) * (PI / 180) / 2)) by lra.
  replace ((lng1 - lng2) * (PI / 180) / 2)
    with (- ((lng2 - lng1) * (PI / 180) / 2)) by lra.
  rewrite !sin_neg. ring.
Qed.

Lemma haversineR_same lat lng : haversineR lat lng lat lng = 0.
Proof.
  unfold haversineR.
  replace ((lat - lat) * (PI / 180) / 2) with 0 by lra.
  replace ((lng - lng) * (PI / 180) / 2) with 0 by lra.
  rewrite sin_0. ring.
Qed.

Lemma atan2R_quadrant y x :
  0 <= y -> 0 <= x -> 0 <= atan2R y x <= PI / 2.
Proof.
  intros Hy Hx. unfold atan2R. pose proof PI_RGT_0 as Hpi.
  destruct (Rlt_dec 0 x) as [Hpos | Hnpos].
  - pose proof (atan_bound (y / x)) as Hb.
    split; [| lra].
    destruct (Req_dec y 0) as [-> | Hne].
    + unfold Rdiv. rewrite Rmult_0_l, atan_0. lra.
    + assert (0 < y / x) by (apply Rdiv_lt_0_compat; lra).
      pose proof (atan_increasing 0 (y / x) H) as Hi.
      rewrite atan_0 in Hi. lra.
  - destruct (Rlt_dec x 0); [lra|].
    destruct (Rlt_dec 0 y); [lra|].
    destruct (Rlt_dec y 0); lra.
Qed.

Lemma sqrt_fin a : 0 <= a -> Math_sqrt (Fin a) = Fin (sqrt a).
Proof.
  intros H. unfold Math_sqrt. destruct (Rlt_dec a 0); [lra | reflexivity].
Qed.

Lemma toRad_fin x : toRad (Fin x) = Fin (x * (PI / 180)).
Proof. unfold toRad, Math_PI. rewrite div_fin by lra. apply mul_fin. Qed.

Lemma calculateDistance_fin from to lat1 lng1 lat2 lng2 :
  Coordinate.lat from = Fin lat1 -> Coordinate.lng from = Fin lng1 ->
  Coordinate.lat to = Fin lat2 -> Coordinate.lng to = Fin lng2 ->
  calculateDistance from to = Fin (distanceR lat1 lng1 lat2 lng2).
Proof.
  intros H1 H2 H3 H4. unfold calculateDistance, pow2.
  rewrite H1, H2, H3, H4.
  rewrite !sub_fin, !toRad_fin.
  rewrite !div_fin by lra.
  cbn [Math_sin Math_cos].
  rewrite !mul_fin, add_fin.
  fold (haversineR lat1 lng1 lat2 lng2).
  pose proof (haversineR_range lat1 lng1 lat2 lng2) as Hr.
  rewrite sub_fin.
  rewrite !sqrt_fin by lra.
  cbn [Math_atan2]. rewrite !mul_fin. reflexivity.
Qed.

Lemma distanceR_range lat1 lng1 lat2 lng2 :
  0 <= distanceR lat1 lng1 lat2 lng2 <= 6371 * PI.
Proof.
  unfold distanceR.
  pose proof (atan2R_quadrant
                (sqrt (haversineR lat1 lng1 lat2 lng2))
                (sqrt (1 - haversineR lat1 lng1 lat2 lng2))
                (sqrt_pos _) (sqrt_pos _)).
  lra.
Qed.

Lemma distanceR_same lat lng : distanceR lat lng lat lng = 0.
Proof.
  unfold distanceR. rewrite haversineR_same, Rminus_0_r, sqrt_0, sqrt_1.
  unfold atan2R. destruct (Rlt_dec 0 1); [| lra].
  unfold Rdiv. rewrite Rmult_0_l, atan_0. lra.
Qed.

Lemma distanceR_below lat1 lng1 lat2 lng2 :
  haversineR lat1 lng1 lat2 lng2 < 1 ->
  distanceR lat1 lng1 lat2 lng2 < 6371 * PI.
Proof.
  intros Ha. unfold distanceR, atan2R.
  assert (Hx : 0 < sqrt (1 - haversineR lat1 lng1 lat2 lng2))
    by (apply sqrt_lt_R0; lra).
  destruct (Rlt_dec 0 (sqrt (1 - haversineR lat1 lng1 lat2 lng2)));
    [| contradiction].
  match goal with |- context [atan ?q] => pose proof (atan_bound q) end.
  lra.
Qed.

(** X16: [calculateDistance] (Haversine) on finite coordinates of two points
    that are not close to antipodal (haversine term at most 0.999999, that
    is, more than about 13 km away from the antipode) returns a finite
    number that is at least 0 and less than half the circumference of the
    sphere of radius 6371 km; it is the same in both directions, and it is
    0 from a point to itself. *)
Theorem calculateDistance_bounds from to lat1 lng1 lat2 lng2 :
  Coordinate.lat from = Fin lat1 -> Coordinate.lng from = Fin lng1 ->
  Coordinate.lat to = Fin lat2 -> Coordinate.lng to = Fin lng2 ->
  haversineR lat1 lng1 lat2 lng2 <= 0.999999 ->
  exists d,
    calculateDistance from to = Fin d
    /\ 0 <= d < 6371 * PI
    /\ calculateDistance to from = Fin d
    /\ calculateDistance from from = Fin 0.
Proof.
  intros H1 H2 H3 H4 Ha.
  exists (distanceR lat1 lng1 lat2 lng2).
  split; [apply calculateDistance_fin; assumption|].
  split.
  { split; [apply distanceR_range | apply distanceR_below; lra]. }
  split.
  - rewrite (calculateDistance_fin to from lat2 lng2 lat1 lng1) by assumption.
    unfold distanceR. rewrite haversineR_sym. reflexivity.
  - rewrite (calculateDistance_fin from from lat1 lng1 lat1 lng1) by assumption.
    rewrite distanceR_same. reflexivity.
Qed.

(** Two points on one meridian, 90 degrees apart. *)
Lemma haversineR_quarter : haversineR 0 10 90 10 <= 0.999999.
Proof.
  unfold haversineR.
  replace ((10 - 10) * (PI / 180) / 2) with 0 by lra.
  replace ((90 - 0) * (PI / 180) / 2) with (PI / 4) by lra.
  rewrite sin_0, sin_PI4.
  assert (Hs : 1 / sqrt 2 * (1 / sqrt 2) = 1 / 2).
  { pose proof (sqrt_sqrt 2 ltac:(lra)) as Hq.
    assert (sqrt 2 <> 0) by (intros E; rewrite E in Hq; lra).
    field_simplify; [| assumption]. rewrite <- Rsqr_pow2. unfold Rsqr.
    rewrite Hq. lra. }
  rewrite Hs. lra.
Qed.

(** The theorem from the equator to the pole. *)
Lemma calculateDistance_bounds_witness :
  exists d,
    calculateDistance
      {| Coordinate.lat := Fin 0; Coordinate.lng := Fin 10;
         Coordinate.elevation := None |}
      {| Coordinate.lat := Fin 90; Coordinate.lng := Fin 10;
         Coordinate.elevation := None |} = Fin d
    /\ 0 <= d < 6371 * PI
    /\ calculateDistance
         {| Coordinate.lat := Fin 90; Coordinate.lng := Fin 10;
            Coordinate.elevation := None |}
         {| Coordinate.lat := Fin 0; Coordinate.lng := Fin 10;
            Coordinate.elevation := None |} = Fin d
    /\ calculateDistance
         {| Coordinate.lat := Fin 0; Coordinate.lng := Fin 10;
            Coordinate.elevation := None |}
         {| Coordinate.lat := Fin 0; Coordinate.lng := Fin 10;
            Coordinate.elevation := None |} = Fin 0.
Proof.
  apply (calculateDistance_bounds _ _ 0 10 90 10); try reflexivity.
  apply haversineR_quarter.
Defined.

Lemma atan2R_sin_cos h : 0 <= h <= PI / 2 -> atan2R (sin h) (cos h) = h.
Proof.
  intros Hh. unfold atan2R. pose proof PI_RGT_0 as Hpi.
  destruct (Req_dec h (PI / 2)) as [-> | Hne].
  - rewrite cos_PI2, sin_PI2.
    destruct (Rlt_dec 0 0); [lra|]. destruct (Rlt_dec 0 1); [reflexivity | lra].
  - assert (Hc : 0 < cos h) by (apply cos_gt_0; lra).
    destruct (Rlt_dec 0 (cos h)); [| lra].
    change (sin h / cos h) with (tan h). apply atan_tan. lra.
Qed.

Lemma haversineR_meridian lat1 lat2 lng :
  haversineR lat1 lng lat2 lng
  = sin ((lat2 - lat1) * (PI / 180) / 2) * sin ((lat2 - lat1) * (PI / 180) / 2).
Proof.
  unfold haversineR. replace ((lng - lng) * (PI / 180) / 2) with 0 by lra.
  rewrite sin_0. ring.
Qed.

Lemma distanceR_meridian lat1 lat2 lng :
  0 <= lat2 - lat1 <= 180 ->
  distanceR lat1 lng lat2 lng = 6371 * ((lat2 - lat1) * (PI / 180)).
Proof.
  intros Hd. unfold distanceR. rewrite haversineR_meridian.
  set (h := (lat2 - lat1) * (PI / 180) / 2).
  pose proof PI_RGT_0 as Hpi.
  assert (Hh : 0 <= h <= PI / 2).
  { unfold h. split.
    - apply Rmult_le_pos; [| lra]. apply Rmult_le_pos; lra.
    - assert ((lat2 - lat1) * (PI / 180) <= 180 * (PI / 180))
        by (apply Rmult_le_compat_r; lra).
      lra. }
  assert (Hs : 0 <= sin h) by (apply sin_ge_0; lra).
  assert (Hc : 0 <= cos h) by (apply cos_ge_0; lra).
  replace (sin h * sin h) with (Rsqr (sin h)) by reflexivity.
  rewrite sqrt_Rsqr by exact Hs.
  replace (1 - Rsqr (sin h)) with (Rsqr (cos h)).
  2:{ pose proof (sin2_cos2 h). lra. }
  rewrite sqrt_Rsqr by exact Hc.
  rewrite atan2R_sin_cos by exact Hh. unfold h. lra.
Qed.

(** X17: along a meridian [calculateDistance] is the arc length: for two
    points of equal longitude whose latitudes differ by at most 180 degrees,
    the distance is 6371 km times the difference of the latitudes in
    radians (about 111.19 km per degree). *)
Theorem calculateDistance_along_meridian from to lat1 lat2 lng :
  Coordinate.lat from = Fin lat1 -> Coordinate.lat to = Fin lat2 ->
  Coordinate.lng from = Fin lng -> Coordinate.lng to = Fin lng ->
  0 <= lat2 - lat1 <= 180 ->
  calculateDistance from to = Fin (6371 * ((lat2 - lat1) * (PI / 180))).
Proof.
  intros H1 H2 H3 H4 Hd.
  rewrite (calculateDistance_fin from to lat1 lng lat2 lng) by assumption.
  rewrite distanceR_meridian by exact Hd. reflexivity.
Qed.

(** The theorem for one degree of latitude north of [summit]. *)
Lemma calculateDistance_along_meridian_witness :
  calculateDistance summit
    {| Coordinate.lat := Fin 19.52; Coordinate.lng := Fin 73.86;
       Coordinate.elevation := None |}
  = Fin (6371 * ((19.52 - 18.52) * (PI / 180))).
Proof.
  apply (calculateDistance_along_meridian summit
           {| Coordinate.lat := Fin 19.52; Coordinate.lng := Fin 73.86;
              Coordinate.elevation := None |} 18.52 19.52 73.86);
    try reflexivity.
  lra.
Defined.

End DistanceFacts.

(** ** The prediction endpoint *)

Section PredictApiFacts.

Import Models CosmosDb CosmosQueries Http JsMath Predict PredictApi.

Lemma legs_length origin waypoints destination :
  length (legs (origin :: waypoints ++ [destination])) = S (length waypoints).
Proof.
  revert origin. induction waypoints as [|w rest IH]; intros origin.
  - reflexivity.
  - cbn [app legs length]. f_equal. apply (IH w).
Qed.


Lemma predictLeg_fields cm vs variant re date acc from to :
  let r := predictLeg cm vs variant re date acc (from, to) in
  exists wh conf used,
    chooseConsumption (cm !! cellOf from) from to vs variant = (wh, conf, used)
    /\ Totals.totalEnergyWh r
       = (Totals.totalEnergyWh acc
          + (wh + calculateHvacConsumption vs) * calculateDistance from to)%num
    /\ Totals.weatherImpact r = Totals.weatherImpact acc
    /\ Totals.trafficImpact r
       = match cm !! cellOf from with
         | Some crowdData =>
             (Totals.trafficImpact acc
              + estimateTrafficImpact crowdData date
                * calculateDistance from to)%num
         | None => Totals.trafficImpact acc
         end
    /\ Totals.segmentPredictions r
       = Totals.segmentPredictions acc ++
           [ {| SegmentPrediction.geohash := cellOf from;
                SegmentPrediction.distance :=
                  (Math_round (calculateDistance from to * Fin 100)
                   / Fin 100)%num;
                SegmentPrediction.estimatedWhPerKm := Math_round wh;
                SegmentPrediction.confidence :=
                  (Math_round (conf * Fin 100) / Fin 100)%num;
                SegmentPrediction.crowdDataUsed := used;
                SegmentPrediction.trafficLevel :=
                  trafficLevelOf (cm !! cellOf from) |} ]
    /\ Totals.crowdDataUsedCount r
       = (if used then S (Totals.crowdDataUsedCount acc)
          else Totals.crowdDataUsedCount acc).
Proof.
  unfold predictLeg, cellOf.
  destruct (chooseConsumption _ from to vs variant) as [[wh conf] used].
  destruct (elevationStep from to (calculateDistance from to) re _) as [ei rr].
  exists wh, conf, used. repeat split; reflexivity.
Qed.

Lemma countUsed_snoc l s :
  countUsed (l ++ [s])
  = (countUsed l + (if SegmentPrediction.crowdDataUsed s then 1 else 0))%nat.
Proof.
  unfold countUsed. rewrite filter_app, length_app. f_equal.
  rewrite filter_cons, filter_nil. unfold usedCrowd.
  destruct (SegmentPrediction.crowdDataUsed s); reflexivity.
Qed.

Lemma predictLegs_shape cm vs variant re date ls : forall acc,
  let r := fold_left (predictLeg cm vs variant re date) ls acc in
  length (Totals.segmentPredictions r)
  = (length (Totals.segmentPredictions acc) + length ls)%nat
  /\ Totals.weatherImpact r = Totals.weatherImpact acc
  /\ (Totals.crowdDataUsedCount acc = countUsed (Totals.segmentPredictions acc) ->
      Totals.crowdDataUsedCount r = countUsed (Totals.segmentPredictions r)).
Proof.
  induction ls as [|[from to] ls IH]; intros acc; cbn [fold_left].
  - cbn. split; [lia|]. split; [reflexivity | auto].
  - destruct (predictLeg_fields cm vs variant re date acc from to)
      as (wh & conf & used & _ & _ & Ew & _ & Es & Ec).
    destruct (IH (predictLeg cm vs variant re date acc (from, to)))
      as (Hlen & Hw & Hc).
    split; [rewrite Hlen, Es, length_app; cbn; lia|].
    split; [rewrite Hw; exact Ew|].
    intros H0. apply Hc. rewrite Es, Ec, countUsed_snoc. cbn.
    rewrite H0. destruct used; lia.
Qed.

Lemma round2R_30_100 q : 0.3 <= q <= 1 -> 0.3 <= round2R q <= 1.
Proof.
  intros Hq. unfold round2R.
  assert (H1 : (30 <= Zfloor (q * 100 + / 2))%Z) by (apply Zfloor_lub; lra).
  assert (H2 : (Zfloor (q * 100 + / 2) <= 100)%Z).
  { etransitivity; [apply (Zfloor_le _ (100 + / 2)); lra|].
    rewrite (Zfloor_eq 100); [lia | lra]. }
  apply IZR_le in H1, H2. lra.
Qed.

Lemma respond_confidence variant t :
  Totals.crowdDataUsedCount t = countUsed (Totals.segmentPredictions t) ->
  exists q,
    PredictionResponse.confidence (respond variant t) = Fin q
    /\ 0.3 <= q <= 1
    /\ (PredictionResponse.crowdDataAvailable (respond variant t) = false ->
        q = 0.4).
Proof.
  intros Hc. unfold respond.
  cbn [PredictionResponse.confidence PredictionResponse.crowdDataAvailable].
  destruct (0 <? Totals.crowdDataUsedCount t)%nat eqn:E.
  - apply Nat.ltb_lt in E.
    assert (Hle : (Totals.crowdDataUsedCount t
                   <= length (Totals.segmentPredictions t))%nat).
    { rewrite Hc. apply length_filter. }
    set (c := Totals.crowdDataUsedCount t) in *.
    set (n := length (Totals.segmentPredictions t)) in *.
    assert (Hc0 : 0 < INR c) by (apply lt_0_INR; lia).
    assert (Hcn : INR c <= INR n) by (apply le_INR; lia).
    rewrite div_fin by lra. rewrite mul_fin, add_fin, round2_fin.
    eexists. split; [reflexivity|].
    split; [| discriminate].
    apply round2R_30_100.
    assert (0 < INR c / INR n <= 1).
    { split; [apply Rdiv_lt_0_compat; lra|].
      apply (Rmult_le_reg_r (INR n)); [lra|].
      unfold Rdiv. rewrite Rmult_assoc, Rinv_l by lra. lra. }
    lra.
  - rewrite round2_fin. exists (round2R 0.4).
    assert (Hr : round2R 0.4 = 0.4).
    { rewrite (round2R_eq 0.4 40); lra. }
    rewrite Hr. split; [reflexivity|]. split; [lra | reflexivity].
Qed.

(** X18: [POST /api/predict] answers 400 when the origin, the destination or
    the vehicle state is missing, and 200 otherwise; it never changes the
    store.  The response has one segment per leg (one more than there are
    waypoints); its [weatherImpact] is always 0 (nothing ever adds to it);
    [crowdDataAvailable] holds exactly when some segment used crowd data;
    and the overall confidence lies between 0.3 and 1, and is 0.4 when no
    segment used crowd data. *)
Theorem predictConsumption_answers body newDate db :
  match PredictionRequest.origin body, PredictionRequest.destination body,
        PredictionRequest.vehicleState body with
  | Some _, Some _, Some _ =>
      exists response q,
        predictConsumption body newDate db = (Ok response, db)
        /\ length (PredictionResponse.segments response)
           = S (length (default [] (PredictionRequest.waypoints body)))
        /\ Breakdown.weatherImpact (PredictionResponse.breakdown response)
           = Fin 0
        /\ (PredictionResponse.crowdDataAvailable response = true
            <-> Exists usedCrowd (PredictionResponse.segments response))
        /\ PredictionResponse.confidence response = Fin q
        /\ 0.3 <= q <= 1
        /\ (PredictionResponse.crowdDataAvailable response = false -> q = 0.4)
  | _, _, _ =>
      exists msg, predictConsumption body newDate db = (BadRequest msg, db)
  end.
Proof.
  unfold predictConsumption, handle.
  destruct (PredictionRequest.origin body) as [origin|];
    [| eexists; reflexivity].
  destruct (PredictionRequest.destination body) as [destination|];
    [| eexists; reflexivity].
  destruct (PredictionRequest.vehicleState body) as [vehicleState|];
    [| eexists; reflexivity].
  unfold bind.
  match goal with
  | |- context [getRouteSegments ?cs db] =>
      destruct (getRouteSegments_spec cs db) as (crowdSegments & H & _)
  end.
  rewrite H. cbn [ret].
  match goal with
  | |- context [fold_left ?f ?ls Totals.init] =>
      destruct (predictLegs_shape (crowdDataMap crowdSegments) vehicleState
                  (selectVariant vehicleState)
                  (selectRegenEfficiency vehicleState)
                  (newDate (PredictionRequest.departureTime body))
                  ls Totals.init) as (Hlen & Hw & Hc);
      set (t := fold_left f ls Totals.init) in *
  end.
  specialize (Hc eq_refl).
  destruct (respond_confidence (selectVariant vehicleState) t Hc)
    as (q & Hq & Hrange & Hnone).
  eexists _, q. split; [reflexivity|].
  split.
  { cbn [respond PredictionResponse.segments]. rewrite Hlen.
    cbn [Totals.init Totals.segmentPredictions length Nat.add].
    apply legs_length. }
  split.
  { cbn [respond PredictionResponse.breakdown Breakdown.weatherImpact].
    rewrite Hw. cbn [Totals.init Totals.weatherImpact].
    apply (round_fin_eq 0 0). lra. }
  split; [| split; [exact Hq | split; [exact Hrange | exact Hnone]]].
  cbn [respond PredictionResponse.crowdDataAvailable PredictionResponse.segments].
  rewrite Hc. unfold countUsed.
  rewrite Nat.ltb_lt. rewrite Exists_exists.
  split.
  - intros Hpos. destruct (filter usedCrowd (Totals.segmentPredictions t))
      as [|s l] eqn:Ef; [cbn in Hpos; lia|].
    assert (Hin : s ∈ filter usedCrowd (Totals.segmentPredictions t))
      by (rewrite Ef; left).
    apply list_elem_of_filter in Hin. destruct Hin as [Hu Hin].
    exists s. split; [exact Hin | exact Hu].
  - intros (s & Hin & Hu).
    assert (Hf : s ∈ filter usedCrowd (Totals.segmentPredictions t)).
    { apply list_elem_of_filter. split; [exact Hu | exact Hin]. }
    destruct (filter usedCrowd (Totals.segmentPredictions t));
      [inversion Hf | cbn; lia].
Qed.

Lemma crowdDataMap_fold l : forall (m : gmap string CrowdSegment.t) g e,
  fold_left (fun m s => <[CrowdSegment.geohash s := s]> m) l m !! g = Some e ->
  (e ∈ l /\ CrowdSegment.geohash e = g) \/ m !! g = Some e.
Proof.
  induction l as [|s l IH]; intros m g e H; cbn [fold_left] in H.
  - right. exact H.
  - apply IH in H. destruct H as [[Hin Hg] | H].
    + left. split; [right; exact Hin | exact Hg].
    + destruct (decide (CrowdSegment.geohash s = g)) as [Hs | Hne].
      * rewrite <- Hs, lookup_insert_eq in H. inversion H; subst e.
        left. split; [left | exact Hs].
      * rewrite lookup_insert_ne in H by exact Hne. right. exact H.
Qed.

Lemma crowdDataMap_elem l g e :
  crowdDataMap l !! g = Some e -> e ∈ l /\ CrowdSegment.geohash e = g.
Proof.
  intros H. apply crowdDataMap_fold in H. destruct H as [H | H]; [exact H|].
  rewrite lookup_empty in H. discriminate.
Qed.


Lemma round2_03 : (Math_round (Fin 0.3 * Fin 100) / Fin 100)%num = Fin 0.3.
Proof.
  rewrite round2_fin. f_equal. rewrite (round2R_eq 0.3 30); lra.
Qed.












Lemma div_by_zero_of_zero_or_nan a :
  a = Fin 0 \/ a = NaN -> (a / Fin 0)%num = NaN.
Proof.
  intros [-> | ->]; [| reflexivity].
  unfold div. destruct (Req_dec_T 0 0); [| lra]. reflexivity.
Qed.

Lemma mul_zero_cases a : (a * Fin 0)%num = Fin 0 \/ (a * Fin 0)%num = NaN.
Proof.
  destruct a as [x| | |]; cbn.
  - left. f_equal. lra.
  - right. unfold inf_times. destruct (Req_dec_T 0 0); [reflexivity | lra].
  - right. unfold inf_times. destruct (Req_dec_T 0 0); [reflexivity | lra].
  - right. reflexivity.
Qed.

(** X21: a request whose destination is its origin, without waypoints, is
    answered with status 200, one segment of distance 0 and an estimated
    range of NaN: the average consumption is the unguarded quotient of the
    energy by the total distance 0. *)
Theorem predictConsumption_zero_length_route body newDate db point vehicleState :
  PredictionRequest.origin body = Some point ->
  PredictionRequest.destination body = Some point ->
  default [] (PredictionRequest.waypoints body) = [] ->
  PredictionRequest.vehicleState body = Some vehicleState ->
  finiteCoordinate point ->
  exists response segment,
    predictConsumption body newDate db = (Ok response, db)
    /\ PredictionResponse.segments response = [segment]
    /\ SegmentPrediction.distance segment = Fin 0
    /\ (PredictionResponse.estimatedEnergyWh response = Fin 0
        \/ PredictionResponse.estimatedEnergyWh response = NaN)
    /\ PredictionResponse.estimatedRangeKm response = NaN.
Proof.
  intros Ho Hd Hw Hv Hfin.
  unfold predictConsumption, handle. rewrite Ho, Hd, Hv, Hw. unfold bind.
  match goal with
  | |- context [getRouteSegments ?cs db] =>
      destruct (getRouteSegments_spec cs db) as (crowdSegments & H & Hs)
  end.
  rewrite H. cbn [ret app legs fold_left].
  destruct Hfin as [H1 H2]. apply is_finite_inv in H1, H2.
  destruct H1 as [lat H1], H2 as [lng H2].
  assert (Hdist : calculateDistance point point = Fin 0).
  { rewrite (calculateDistance_fin point point lat lng lat lng) by assumption.
    rewrite distanceR_same. reflexivity. }
  match goal with
  | |- context [predictLeg ?cm ?vs ?var ?re ?date Totals.init (point, point)] =>
      destruct (predictLeg_fields cm vs var re date Totals.init point point)
        as (w & conf & used & _ & Ee & _ & _ & Es & _);
      set (t := predictLeg cm vs var re date Totals.init (point, point)) in *
  end.
  rewrite Hdist in Ee, Es. cbn [Totals.init Totals.totalEnergyWh
                                Totals.segmentPredictions app] in Ee, Es.
  assert (Hz : (Math_round (Fin 0 * Fin 100) / Fin 100)%num = Fin 0).
  { rewrite round2_fin. f_equal. rewrite (round2R_eq 0 0); lra. }
  rewrite Hz in Es.
  assert (He : Totals.totalEnergyWh t = Fin 0 \/ Totals.totalEnergyWh t = NaN).
  { rewrite Ee.
    destruct (mul_zero_cases (w + calculateHvacConsumption vehicleState)%num)
      as [-> | ->]; [left; rewrite add_fin; f_equal; lra | right; reflexivity]. }
  eexists _, _. split; [reflexivity|].
  cbn [respond PredictionResponse.segments PredictionResponse.estimatedEnergyWh
       PredictionResponse.estimatedRangeKm].
  split; [exact Es|]. split; [reflexivity|].
  split.
  { destruct He as [-> | ->];
      [left; apply (round_fin_eq 0 0); lra | right; reflexivity]. }
  rewrite Es. cbn [fold_left SegmentPrediction.distance].
  rewrite add_fin. replace (0 + 0) with 0 by lra.
  rewrite (div_by_zero_of_zero_or_nan _ He).
  destruct (batteryCapacity (selectVariant vehicleState) * Fin 1000)%num;
    reflexivity.
Qed.

(** The theorem for a request from [summit] to [summit]. *)
Lemma predictConsumption_zero_length_route_witness :
  exists response segment,
    predictConsumption standingRequest wednesdayMorning empty_db
    = (Ok response, empty_db)
    /\ PredictionResponse.segments response = [segment]
    /\ SegmentPrediction.distance segment = Fin 0
    /\ (PredictionResponse.estimatedEnergyWh response = Fin 0
        \/ PredictionResponse.estimatedEnergyWh response = NaN)
    /\ PredictionResponse.estimatedRangeKm response = NaN.
Proof.
  apply (predictConsumption_zero_length_route standingRequest wednesdayMorning
           empty_db summit (requestState 2)); try reflexivity.
  split; exact I.
Defined.


Lemma crowdDataMap_fold_some l : forall (m : gmap string CrowdSegment.t) g,
  (exists e, e ∈ l /\ CrowdSegment.geohash e = g) \/ is_Some (m !! g) ->
  is_Some (fold_left (fun m s => <[CrowdSegment.geohash s := s]> m) l m !! g).
Proof.
  induction l as [|s l IH]; intros m g H; cbn [fold_left].
  - destruct H as [(e & Hin & _) | H]; [inversion Hin | exact H].
  - apply IH. destruct H as [(e & Hin & Hg) | H].
    + apply elem_of_cons in Hin. destruct Hin as [-> | Hin].
      * right. rewrite <- Hg, lookup_insert_eq. eauto.
      * left. exists e. split; assumption.
    + right. destruct (decide (CrowdSegment.geohash s = g)) as [<- | Hne].
      * rewrite lookup_insert_eq. eauto.
      * rewrite lookup_insert_ne by exact Hne. exact H.
Qed.

(** The predictor sees the only record of a cell. *)
Lemma crowdDataMap_only l g e :
  e ∈ l -> CrowdSegment.geohash e = g ->
  (forall s, s ∈ l -> CrowdSegment.geohash s = g -> s = e) ->
  crowdDataMap l !! g = Some e.
Proof.
  intros Hin Hg Honly.
  destruct (crowdDataMap_fold_some l ∅ g) as [x Hx].
  { left. exists e. split; assumption. }
  fold (crowdDataMap l) in Hx.
  destruct (crowdDataMap_elem _ _ _ Hx) as [Hxin Hxg].
  rewrite Hx. f_equal. apply Honly; assumption.
Qed.

Lemma updateExisting_confidence existing segment trip now n :
  CrowdSegment.sampleCount existing = Fin (INR n) ->
  AggregatedConsumption.stdDeviation (CrowdSegment.aggregatedData existing)
  = Fin 0 ->
  CrowdSegment.confidence (updateExisting existing segment trip now)
  = Fin (confidenceR (INR (n + 1)) 0).
Proof.
  intros Hn Hsd. unfold updateExisting. cbn [CrowdSegment.confidence].
  rewrite Hn, Hsd, add_fin, calculateConfidence_fin.
  rewrite plus_INR. reflexivity.
Qed.

Lemma confidence_threshold (n : nat) :
  (Fin (confidenceR (INR n) 0) >? Fin 0.5)%num = true <-> (36 <= n)%nat.
Proof.
  unfold gtb. destruct (le_lt_dec 36 n) as [Hbig | Hsmall].
  - assert (Hc : 0.51 <= confidenceR (INR n) 0).
    { apply confidenceR_mature. apply (le_INR 36) in Hbig.
      replace 36 with (INR 36) by (cbn; lra). exact Hbig. }
    rewrite ltb_fin_true by lra. split; auto.
  - assert (Hc : confidenceR (INR n) 0 <= 0.5).
    { apply confidenceR_young.
      assert (n <= 35)%nat as Hle by lia.
      apply le_INR in Hle. replace 35 with (INR 35) by (cbn; lra). exact Hle. }
    rewrite ltb_fin_false by lra. split; [discriminate | lia].
Qed.

(** X11: the predictor uses an aggregate from 36 samples on.  It uses crowd
    data for a leg only when the confidence of the record it finds for the
    leg's cell exceeds 0.5, and an update stores the confidence computed
    from the new sample count and the deviation.  So after an ingest has
    updated an aggregate of deviation 0 to [n + 1] samples, a prediction for
    a single leg that starts in its cell, on a store in which the aggregate
    is the only record of that cell, uses crowd data exactly when
    [n + 1 >= 36]; with fewer samples the leg is reported as predicted
    without crowd data, with confidence 0.3. *)
Theorem crowd_data_used_from_36_samples segment trip now db existing n body
    newDate origin destination vehicleState :
  store_ok db ->
  crowdContainer db !! segmentKey segment = Some existing ->
  CrowdSegment.sampleCount existing = Fin (INR n) ->
  AggregatedConsumption.stdDeviation (CrowdSegment.aggregatedData existing)
  = Fin 0 ->
  (forall s, stored db s ->
             CrowdSegment.geohash s = TripSegment.geohash segment ->
             s = existing) ->
  PredictionRequest.origin body = Some origin ->
  PredictionRequest.destination body = Some destination ->
  PredictionRequest.vehicleState body = Some vehicleState ->
  PredictionRequest.waypoints body = None ->
  cellOf origin = TripSegment.geohash segment ->
  exists db1 response s,
    updateCrowdSegment segment trip now db = inr ((false, true), db1)
    /\ predictConsumption body newDate db1 = (Ok response, db1)
    /\ PredictionResponse.segments response = [s]
    /\ (SegmentPrediction.crowdDataUsed s = true <-> (36 <= n + 1)%nat)
    /\ (PredictionResponse.crowdDataAvailable response = true
        <-> (36 <= n + 1)%nat)
    /\ ((n + 1 < 36)%nat ->
        SegmentPrediction.crowdDataUsed s = false
        /\ SegmentPrediction.confidence s = Fin 0.3).
Proof.
  intros Hok E Hn Hsd Honly Ho Hd Hv Hw Hcell.
  destruct (updated_only_record segment trip now db existing Hok E Honly)
    as (Hrun & Hlook & Hgeo & Honly1).
  pose proof (updateExisting_confidence existing segment trip now n Hn Hsd)
    as Hconf.
  set (e1 := updateExisting existing segment trip now) in *.
  set (db1 := crowd_put e1 db) in *.
  exists db1.
  unfold predictConsumption, handle. rewrite Ho, Hd, Hv, Hw. unfold bind.
  match goal with
  | |- context [getRouteSegments ?cs db1] =>
      destruct (getRouteSegments_spec cs db1) as (crowdSegments & H & Hs)
  end.
  cbn [default app] in H, Hs.
  assert (Hcm : crowdDataMap crowdSegments !! cellOf origin = Some e1).
  { apply crowdDataMap_only.
    - apply Hs. split; [exists (segmentKey segment); exact Hlook|].
      exists origin. split; [left | congruence].
    - congruence.
    - intros s Hin Hg. apply Hs in Hin. destruct Hin as [Hst _].
      apply Honly1; [exact Hst | congruence]. }
  cbn [default app] in *. rewrite H. cbn [ret legs fold_left].
  match goal with
  | |- context [predictLeg ?cm ?vs ?var ?re ?date Totals.init
                  (origin, destination)] =>
      destruct (predictLeg_fields cm vs var re date Totals.init origin
                  destination)
        as (wh & conf & used & Hch & _ & _ & _ & Es & Ec)
  end.
  rewrite Hcm in Hch. unfold chooseConsumption in Hch. rewrite Hconf in Hch.
  pose proof (confidence_threshold (n + 1)) as Hth.
  eexists _, _. split; [exact Hrun|]. split; [reflexivity|].
  cbn [respond PredictionResponse.segments
       PredictionResponse.crowdDataAvailable].
  rewrite Ec. cbn [Totals.init Totals.crowdDataUsedCount].
  split; [exact Es|].
  cbn [SegmentPrediction.crowdDataUsed].
  destruct (Fin (confidenceR (INR (n + 1)) 0) >? Fin 0.5)%num eqn:Eg.
  - injection Hch as <- <- <-.
    assert (36 <= n + 1)%nat by (apply Hth; reflexivity).
    split; [tauto|]. split; [cbn; tauto | lia].
  - injection Hch as <- <- <-.
    assert (~ (36 <= n + 1)%nat) by (intros Hge; apply Hth in Hge; discriminate).
    split; [split; [discriminate | tauto]|].
    split; [cbn; split; [discriminate | tauto]|].
    intros _. split; [reflexivity | apply round2_03].
Qed.

Example cellOf_bengaluru : cellOf bengaluru = "tdr1wx".
Proof.
  unfold cellOf, geohash6, calculateGeohash, bengaluru.
  cbn [Coordinate.lat Coordinate.lng]. js_norm.
  do 30 (rewrite geohash_loop_S; js_norm; js_arith). reflexivity.
Qed.

(** The theorem at a second sample of the first leg of [commute], the store
    that holds the aggregate of that leg, and a request that starts in its
    cell. *)
Lemma crowd_data_used_from_36_samples_witness :
  exists db1 response s,
    updateCrowdSegment (segmentAt 0 160) commute noon cellStore
    = inr ((false, true), db1)
    /\ predictConsumption cityRequest wednesdayMorning db1 = (Ok response, db1)
    /\ PredictionResponse.segments response = [s]
    /\ (SegmentPrediction.crowdDataUsed s = true <-> (36 <= 1 + 1)%nat)
    /\ (PredictionResponse.crowdDataAvailable response = true
        <-> (36 <= 1 + 1)%nat)
    /\ ((1 + 1 < 36)%nat ->
        SegmentPrediction.crowdDataUsed s = false
        /\ SegmentPrediction.confidence s = Fin 0.3).
Proof.
  apply (crowd_data_used_from_36_samples (segmentAt 0 160) commute noon
           cellStore firstSample 1 cityRequest wednesdayMorning bengaluru
           summit (requestState 2)).
  - apply cellStore_ok.
  - apply cellStore_lookup.
  - reflexivity.
  - reflexivity.
  - intros s Hs _. apply cellStore_only, Hs.
  - reflexivity.
  - reflexivity.
  - reflexivity.
  - reflexivity.
  - apply cellOf_bengaluru.
Defined.

End PredictApiFacts.

(** ** The whole-route prediction, its profiles and the range estimates *)

Section RouteProfileFacts.

Import EnergyPrediction Models JsMath RouteProfile VehicleStore.

Lemma breakdown_detail route vehicle weather traffic d g l t b e p :
  totalDistance route = Fin d -> totalElevationGain route = Fin g ->
  totalElevationLoss route = Fin l -> estimatedDuration route = Fin t ->
  baseConsumption (variant vehicle) = Fin b ->
  recoveryEfficiency (regenLevel vehicle) = Fin e ->
  payload vehicle = Fin p ->
  finite_weather weather ->
  exists te sf tf : R,
    breakdown (predictTripEnergy route vehicle weather traffic) =
    {| baseConsumptionWh := Fin (b * d);
       elevationCost := Fin ((1560 + p) * 9.81 * g / 3600 * 1000);
       temperatureCost := Fin (b * d * (1 - te));
       speedCost := Fin (b * d * (sf - 1));
       trafficCost := Fin (b * d * (tf - 1));
       hvacCost :=
         Fin (hvacPowerR (hvacOn vehicle) (hvacMode vehicle) * (t / 60) * 1000);
       auxiliaryCost := Fin (0.15 * (t / 60) * 1000);
       regenRecovery := Fin ((1560 + p) * 9.81 * l / 3600 * e * 1000);
       totalConsumption :=
         Fin (b * d + (1560 + p) * 9.81 * g / 3600 * 1000 + b * d * (1 - te)
              + b * d * (sf - 1) + b * d * (tf - 1)
              + hvacPowerR (hvacOn vehicle) (hvacMode vehicle) * (t / 60) * 1000
              + 0.15 * (t / 60) * 1000 + b * d * windShareR weather
              - (1560 + p) * 9.81 * l / 3600 * e * 1000) |}.
Proof.
  intros Hd Hg Hl Ht Hb He Hp Hw.
  unfold predictTripEnergy, calculateElevationEnergy, GRAVITY, NEXON_MASS_BASE.
  rewrite Hd, Hg, Hl, Ht, Hb, He, Hp.
  cbn [breakdown].
  destruct (temperature_efficiency_finite
              (match weather with Some w => temperature w | None => Fin 25 end))
    as (te & ->).
  set (spd := match traffic with Some t0 => _ | None => _ end).
  destruct (speed_factor_finite spd) as (sf & ->).
  assert (exists tf,
             match traffic with
             | Some t0 => TRAFFIC_CONSUMPTION_FACTOR (density t0)
             | None => Fin 1
             end = Fin tf) as (tf & ->).
  { destruct traffic; [apply traffic_factor_finite | eexists; reflexivity]. }
  exists te, sf, tf.
  assert (Hhp : (if hvacOn vehicle then HVAC_POWER (hvacMode vehicle) else Fin 0)
                = Fin (hvacPowerR (hvacOn vehicle) (hvacMode vehicle))).
  { unfold hvacPowerR. destruct (hvacOn vehicle); [| reflexivity].
    destruct (hvacMode vehicle); reflexivity. }
  rewrite Hhp.
  unfold windShareR.
  destruct weather as [w|].
  - destruct Hw as [_ Hws]. apply is_finite_inv in Hws as [ws Hws].
    unfold calculateHeadwind. rewrite Hws, (mul_fin ws 0.5). unfold gtb.
    destruct (Rlt_dec 20 ws).
    + rewrite ltb_fin_true by lra. fin_simpl.
      f_equal; try reflexivity; apply f_equal; lra.
    + rewrite ltb_fin_false by lra. fin_simpl.
      f_equal; try reflexivity; apply f_equal; lra.
  - unfold gtb. rewrite ltb_fin_false by lra. fin_simpl.
    f_equal; try reflexivity; apply f_equal; lra.
Qed.

(** X22: on finite inputs the total of the breakdown is finite, and it is
    the sum of the seven costs minus the regen recovery plus a wind
    adjustment that the breakdown does not list: 8 % of the base consumption
    per 30 km/h of headwind (half the wind speed) once the wind exceeds
    20 km/h.  Without weather data, or with wind up to 20 km/h, the listed
    entries add up to the total exactly. *)
Theorem breakdown_omits_wind route vehicle weather traffic :
  finite_route route -> finite_vehicle vehicle -> finite_weather weather ->
  let bd := breakdown (predictTripEnergy route vehicle weather traffic) in
  is_finite (totalConsumption bd)
  /\ amount (totalConsumption bd)
     = amount (baseConsumptionWh bd) + amount (elevationCost bd)
       + amount (temperatureCost bd) + amount (speedCost bd)
       + amount (trafficCost bd) + amount (hvacCost bd)
       + amount (auxiliaryCost bd) - amount (regenRecovery bd)
       + amount (baseConsumptionWh bd) * windShareR weather.
Proof.
  intros (Hd & Hg & Hl & Ht) (_ & Hb & _ & _ & He & Hp) Hw.
  apply is_finite_inv in Hd, Hg, Hl, Ht, Hb, He, Hp.
  destruct Hd as [d Hd], Hg as [g Hg], Hl as [l Hl], Ht as [t Ht],
    Hb as [b Hb], He as [e He], Hp as [p Hp].
  destruct (breakdown_detail route vehicle weather traffic d g l t b e p
              Hd Hg Hl Ht Hb He Hp Hw) as (te & sf & tf & Hbd).
  cbv zeta. rewrite Hbd. cbn [totalConsumption baseConsumptionWh elevationCost
    temperatureCost speedCost trafficCost hvacCost auxiliaryCost regenRecovery
    amount is_finite].
  split; [exact I | lra].
Qed.

(** The theorem on [climb] with the default vehicle and no weather data. *)
Lemma breakdown_omits_wind_witness :
  let bd := breakdown (predictTripEnergy climb DEFAULT_VEHICLE_STATE None None) in
  is_finite (totalConsumption bd)
  /\ amount (totalConsumption bd)
     = amount (baseConsumptionWh bd) + amount (elevationCost bd)
       + amount (temperatureCost bd) + amount (speedCost bd)
       + amount (trafficCost bd) + amount (hvacCost bd)
       + amount (auxiliaryCost bd) - amount (regenRecovery bd)
       + amount (baseConsumptionWh bd) * windShareR None.
Proof.
  apply (breakdown_omits_wind climb DEFAULT_VEHICLE_STATE None None).
  - repeat split; exact I.
  - repeat split; exact I.
  - exact I.
Defined.

(** X23: [canComplete] agrees with the end state of charge that is shown:
    when the trip can be completed the rounded [predictedEndSoC] is at least
    5, and when it cannot, it is below 6 (the test is made on the unrounded
    value, which is below 5).  This holds for every input, finite or not. *)
Theorem canComplete_matches_end_soc route vehicle weather traffic :
  let p := predictTripEnergy route vehicle weather traffic in
  if canComplete p then (Fin 5 <= predictedEndSoC p)%num
  else ~ (Fin 6 <= predictedEndSoC p)%num.
Proof.
  cbv zeta.
  assert (Hc : exists e,
             canComplete (predictTripEnergy route vehicle weather traffic)
             = (Fin 5 <=? e)%num
             /\ predictedEndSoC (predictTripEnergy route vehicle weather traffic)
                = Math_round e).
  { eexists. split; reflexivity. }
  destruct Hc as (e & -> & ->).
  destruct e as [x| | |]; cbn [Math_round].
  - destruct (Rle_dec 5 x) as [Hx | Hx].
    + rewrite leb_fin_true by exact Hx. apply le_fin.
      assert (H : (5 <= Zfloor (x + / 2))%Z) by (apply Zfloor_lub; lra).
      apply IZR_le in H. exact H.
    + rewrite leb_fin_false by lra. rewrite le_fin.
      pose proof (Zfloor_bound (x + / 2)) as [Hb _].
      intros H6. lra.
  - reflexivity.
  - cbn. discriminate.
  - cbn. discriminate.
Qed.

(** X24: [setHvac] keeps the HVAC state consistent, and the prediction
    charges for it accordingly.  After [setHvac(on, mode, temp)] the mode is
    [off] exactly when the HVAC is off (switching on without a mode, or with
    mode [off], selects cooling), the temperature is [temp] or 24; and the
    HVAC cost of a prediction for that state is the duration in hours times
    4 kW for heating, 2.5 kW for cooling, and 0 when the HVAC is off. *)
Theorem setHvac_drives_hvac_cost on mode temp state route weather traffic :
  finite_route route -> finite_vehicle state -> finite_weather weather ->
  let state' := setHvac on mode temp state in
  hvacOn state' = on
  /\ (hvacMode state' = hvac_off <-> on = false)
  /\ hvacTemperature state' = default (Fin 24) temp
  /\ exists t,
       estimatedDuration route = Fin t
       /\ hvacCost (breakdown (predictTripEnergy route state' weather traffic))
          = Fin ((if on
                  then match mode with Some hvac_heating => 4 | _ => 2.5 end
                  else 0) * (t / 60) * 1000).
Proof.
  intros (Hd & Hg & Hl & Ht) (_ & Hb & _ & _ & He & Hp) Hw. cbv zeta.
  split; [reflexivity|].
  split.
  { unfold setHvac, merge; cbn. destruct on.
    - split; [| discriminate]. destruct mode as [[]|]; discriminate.
    - split; reflexivity. }
  split; [reflexivity|].
  apply is_finite_inv in Hd, Hg, Hl, Ht, Hb, He, Hp.
  destruct Hd as [d Hd], Hg as [g Hg], Hl as [l Hl], Ht as [t Ht],
    Hb as [b Hb], He as [e He], Hp as [p Hp].
  exists t. split; [exact Ht|].
  destruct (breakdown_detail route (setHvac on mode temp state) weather traffic
              d g l t b e p Hd Hg Hl Ht Hb He Hp Hw) as (te & sf & tf & Hbd).
  rewrite Hbd. cbn [hvacCost]. f_equal.
  unfold setHvac, merge, hvacPowerR; cbn.
  destruct on; [| reflexivity]. destruct mode as [[]|]; reflexivity.
Qed.

(** The theorem for switching the HVAC on without a mode, on [climb]. *)
Lemma setHvac_drives_hvac_cost_witness :
  let state' := setHvac true None None DEFAULT_VEHICLE_STATE in
  hvacOn state' = true
  /\ (hvacMode state' = hvac_off <-> true = false)
  /\ hvacTemperature state' = default (Fin 24) None
  /\ exists t,
       estimatedDuration climb = Fin t
       /\ hvacCost (breakdown (predictTripEnergy climb state' None None))
          = Fin ((if true
                  then match (None : option HvacMode) with
                       | Some hvac_heating => 4
                       | _ => 2.5
                       end
                  else 0) * (t / 60) * 1000).
Proof.
  apply (setHvac_drives_hvac_cost true None None DEFAULT_VEHICLE_STATE climb
           None None).
  - repeat split; exact I.
  - repeat split; exact I.
  - exact I.
Defined.

(** X25: the three simple range estimates agree and are bounded.  For a
    vehicle with a positive base consumption, a non-negative capacity and
    state of charge and battery health within [0, 100], the estimate of the
    vehicle types and the [getSimpleRange] of the store are the same finite
    number, at most the range of the full battery; the estimate of the
    prediction service equals it when the HVAC is off and is never above it
    (and never negative) when the HVAC is on. *)
Theorem simple_range_estimates vehicle C s h b :
  batteryCapacity (variant vehicle) = Fin C -> currentSoC vehicle = Fin s ->
  batteryHealth vehicle = Fin h -> baseConsumption (variant vehicle) = Fin b ->
  0 <= C -> 0 <= s <= 100 -> 0 <= h <= 100 -> 0 < b ->
  exists full plain withHvac,
    Math_round (Fin C / (Fin b / Fin 1000))%num = Fin full
    /\ VehicleRange.getSimpleRangeEstimate vehicle = Fin plain
    /\ VehicleRange.getSimpleRange vehicle = Fin plain
    /\ getSimpleRangeEstimate vehicle = Fin withHvac
    /\ 0 <= withHvac <= plain /\ plain <= full
    /\ (hvacOn vehicle = false -> withHvac = plain).
Proof.
  intros HC Hs Hh Hb HC0 Hs0 Hh0 Hb0.
  unfold VehicleRange.getSimpleRangeEstimate, VehicleRange.getSimpleRange,
    getSimpleRangeEstimate, getAvailableEnergy.
  rewrite HC, Hs, Hh, Hb.
  set (A := C * s * h / 10000).
  assert (HA : 0 <= A <= C).
  { unfold A. split.
    - apply Rmult_le_pos; [| lra]. apply Rmult_le_pos; [| lra].
      apply Rmult_le_pos; lra.
    - assert (C * s <= C * 100) by (apply Rmult_le_compat_l; lra).
      assert (0 <= C * s) by (apply Rmult_le_pos; lra).
      assert (C * s * h <= C * s * 100) by (apply Rmult_le_compat_l; lra).
      lra. }
  rewrite !mul_fin, !div_fin by lra. fold A.
  assert (Hr : forall f, 1 <= f ->
             0 <= IZR (Zfloor (A / (b / 1000 * f) + / 2))
                <= IZR (Zfloor (A / (b / 1000) + / 2))).
  { intros f Hf.
    assert (Hq : 0 <= A / (b / 1000 * f) <= A / (b / 1000)).
    { assert (0 < b / 1000) by lra.
      assert (0 < b / 1000 * f) by nra.
      split; [apply Rmult_le_pos; [lra | left; apply Rinv_0_lt_compat; lra]|].
      apply Rmult_le_compat_l; [lra|].
      apply Rinv_le_contravar; nra. }
    split; [| apply round_mono; lra].
    assert (H0 : (0 <= Zfloor (A / (b / 1000 * f) + / 2))%Z)
      by (apply Zfloor_lub; lra).
    apply IZR_le in H0. exact H0. }
  assert (Hfull : IZR (Zfloor (A / (b / 1000) + / 2))
                  <= IZR (Zfloor (C / (b / 1000) + / 2))).
  { apply round_mono. apply Rmult_le_compat_r; [| lra].
    left. apply Rinv_0_lt_compat. lra. }
  destruct (hvacOn vehicle).
  - set (f := match hvacMode vehicle with hvac_heating => 1.25 | _ => 1.15 end).
    assert (Hf : (match hvacMode vehicle with
                  | hvac_heating => Fin 1.25 | _ => Fin 1.15 end) = Fin f)
      by (unfold f; destruct (hvacMode vehicle); reflexivity).
    rewrite Hf, mul_fin. rewrite div_fin.
    2:{ assert (1 <= f) by (unfold f; destruct (hvacMode vehicle); lra). nra. }
    rewrite !round_fin.
    eexists _, _, _. do 4 (split; [reflexivity|]).
    assert (1 <= f) by (unfold f; destruct (hvacMode vehicle); lra).
    split; [apply Hr; assumption|]. split; [exact Hfull | discriminate].
  - rewrite div_fin by lra. rewrite !round_fin.
    eexists _, _, _. do 4 (split; [reflexivity|]).
    pose proof (Hr 1 ltac:(lra)) as H1.
    replace (b / 1000 * 1) with (b / 1000) in H1 by lra.
    split; [lra|]. split; [exact Hfull | reflexivity].
Qed.

(** The theorem at the default vehicle state. *)
Lemma simple_range_estimates_witness :
  exists full plain withHvac,
    Math_round (Fin 45 / (Fin 140 / Fin 1000))%num = Fin full
    /\ VehicleRange.getSimpleRangeEstimate DEFAULT_VEHICLE_STATE = Fin plain
    /\ VehicleRange.getSimpleRange DEFAULT_VEHICLE_STATE = Fin plain
    /\ getSimpleRangeEstimate DEFAULT_VEHICLE_STATE = Fin withHvac
    /\ 0 <= withHvac <= plain /\ plain <= full
    /\ (hvacOn DEFAULT_VEHICLE_STATE = false -> withHvac = plain).
Proof.
  apply (simple_range_estimates DEFAULT_VEHICLE_STATE 45 80 98 140);
    try reflexivity; lra.
Defined.

Lemma rangePointsLoop_stops np d soc cpk cap :
  (forall i, (21 <= i)%nat -> (Fin (INR i) <=? np)%num = false) ->
  forall fuel i,
    (21 - i <= fuel)%nat ->
    exists points,
      rangePointsLoop fuel i np d soc cpk cap = Some points
      /\ (length points <= 21 - i)%nat.
Proof.
  intros Hstop. induction fuel as [|fuel IH]; intros i Hi.
  - cbn [rangePointsLoop]. rewrite Hstop by lia.
    exists []. split; [reflexivity | cbn; lia].
  - cbn [rangePointsLoop].
    destruct (Fin (INR i) <=? np)%num eqn:E.
    + assert (i < 21)%nat.
      { destruct (le_lt_dec 21 i) as [Hge|]; [| assumption].
        rewrite Hstop in E by exact Hge. discriminate. }
      destruct (IH (S i)) as (rest & Hr & Hlen); [lia|].
      rewrite Hr. eexists. split; [reflexivity|]. cbn [length]. lia.
    + exists []. split; [reflexivity | cbn; lia].
Qed.

Lemma numPoints_small d i :
  (21 <= i)%nat ->
  (Fin (INR i) <=? Math_min (Fin 20) (Math_ceil d))%num = false.
Proof.
  intros Hi. apply le_INR in Hi.
  replace (INR 21) with 21 in Hi by (cbn; lra).
  destruct d as [x| | |]; cbn [Math_ceil].
  - rewrite min_fin. apply leb_fin_false.
    pose proof (Rmin_l 20 (IZR (Zceil x))). lra.
  - cbn. destruct (Rlt_dec 20 20); [lra|].
    destruct (Rle_dec (INR i) 20); [lra | reflexivity].
  - reflexivity.
  - reflexivity.
Qed.

Lemma rangePointsLoop_run (N : nat) d soc cpk cap :
  forall fuel i,
    (i <= S N)%nat -> (S N - i <= fuel)%nat ->
    rangePointsLoop fuel i (Fin (INR N)) d soc cpk cap
    = Some (map (fun j => rangePoint (Fin (INR j)) (Fin (INR N)) d soc cpk cap)
              (seq i (S N - i))).
Proof.
  induction fuel as [|fuel IH]; intros i Hi Hf.
  - assert (i = S N) by lia. subst i. cbn [rangePointsLoop].
    rewrite leb_fin_false by (apply lt_INR; lia).
    rewrite Nat.sub_diag. reflexivity.
  - cbn [rangePointsLoop].
    destruct (le_lt_dec i N) as [Hle | Hgt].
    + rewrite leb_fin_true by (apply le_INR; exact Hle).
      rewrite IH by lia.
      replace (S N - i)%nat with (S (S N - S i)) by lia.
      reflexivity.
    + assert (i = S N) by lia. subst i.
      rewrite leb_fin_false by (apply lt_INR; lia).
      rewrite Nat.sub_diag. reflexivity.
Qed.

Lemma numPoints_positive d :
  0 < d ->
  exists N, (1 <= N <= 20)%nat
            /\ N = Z.to_nat (Z.min 20 (Zceil d))
            /\ Math_min (Fin 20) (Math_ceil (Fin d)) = Fin (INR N).
Proof.
  intros Hd.
  assert (Hc : (1 <= Zceil d)%Z).
  { pose proof (Zceil_bound d) as [_ Hb].
    destruct (Z_lt_le_dec (Zceil d) 1) as [Hlt | Hge]; [| exact Hge].
    assert (Zceil d <= 0)%Z as Hle by lia. apply IZR_le in Hle. lra. }
  exists (Z.to_nat (Z.min 20 (Zceil d))).
  split; [lia|]. split; [reflexivity|].
  cbn [Math_ceil]. rewrite min_fin. f_equal.
  rewrite INR_IZR_INZ, Z2Nat.id by lia.
  unfold Rmin. destruct (Rle_dec 20 (IZR (Zceil d))) as [H | H].
  - apply le_IZR in H. rewrite Z.min_l by exact H. reflexivity.
  - assert (Zceil d < 20)%Z.
    { destruct (Z_lt_le_dec (Zceil d) 20) as [|Hge]; [assumption|].
      apply IZR_le in Hge. lra. }
    rewrite Z.min_r by lia. reflexivity.
Qed.

Lemma generateRangePoints_positive route d startSoC consumptionPerKm
    batteryCapacityKwh :
  totalDistance route = Fin d -> 0 < d ->
  exists N,
    (1 <= N <= 20)%nat
    /\ N = Z.to_nat (Z.min 20 (Zceil d))
    /\ generateRangePoints route startSoC consumptionPerKm batteryCapacityKwh
       = Some (map (fun j => rangePoint (Fin (INR j)) (Fin (INR N)) (Fin d)
                              startSoC consumptionPerKm batteryCapacityKwh)
                 (seq 0 (S N))).
Proof.
  intros Hd Hpos. unfold generateRangePoints. rewrite Hd.
  destruct (numPoints_positive d Hpos) as (N & HN & HNz & Hnp).
  exists N. split; [exact HN|]. split; [exact HNz|].
  rewrite Hnp. rewrite (rangePointsLoop_run N) by lia.
  rewrite Nat.sub_0_r. reflexivity.
Qed.

(** X26: [generateRangePoints] returns for every input, with at most 21
    points.  For a route of finite positive length d it returns
    min(20, ceil d) + 1 points, the first at distance 0 and the last at
    distance d; for a route of length 0 it returns a single point whose
    distance is 0 / 0, that is NaN. *)
Theorem generateRangePoints_count route startSoC consumptionPerKm
    batteryCapacityKwh :
  exists points,
    generateRangePoints route startSoC consumptionPerKm batteryCapacityKwh
    = Some points
    /\ (length points <= 21)%nat
    /\ (forall d, totalDistance route = Fin d -> 0 < d ->
          length points = S (Z.to_nat (Z.min 20 (Zceil d)))
          /\ (exists first, head points = Some first
                            /\ RangePoint.distance first = Fin 0)
          /\ (exists final, last points = Some final
                            /\ RangePoint.distance final = Fin d))
    /\ (totalDistance route = Fin 0 ->
        exists only, points = [only] /\ RangePoint.distance only = NaN).
Proof.
  destruct (rangePointsLoop_stops
              (Math_min (Fin 20) (Math_ceil (totalDistance route)))
              (totalDistance route) startSoC consumptionPerKm
              batteryCapacityKwh (numPoints_small (totalDistance route)) 21 0)
    as (points & H & Hlen); [lia|].
  fold (generateRangePoints route startSoC consumptionPerKm batteryCapacityKwh)
    in H.
  exists points. split; [exact H|]. split; [lia|].
  split.
  - intros d Hd Hpos.
    destruct (generateRangePoints_positive route d startSoC consumptionPerKm
                batteryCapacityKwh Hd Hpos) as (N & HN & HNz & Hrun).
    set (f := fun j : nat => rangePoint (Fin (INR j)) (Fin (INR N)) (Fin d)
                               startSoC consumptionPerKm batteryCapacityKwh)
      in Hrun.
    assert (Hp : points = map f (seq 0 (S N))) by congruence.
    rewrite Hp, <- HNz.
    assert (HN0 : INR N <> 0) by (apply not_0_INR; lia).
    split; [rewrite length_map, length_seq; reflexivity|].
    split.
    + exists (f 0%nat). split; [reflexivity|].
      unfold f. cbn [rangePoint RangePoint.distance INR].
      rewrite div_fin by exact HN0. rewrite mul_fin. f_equal.
      unfold Rdiv. rewrite !Rmult_0_l. reflexivity.
    + replace (S N) with (N + 1)%nat by lia.
      rewrite seq_app, map_app. cbn [seq map Nat.add].
      rewrite last_snoc. exists (f N). split; [reflexivity|].
      unfold f. cbn [rangePoint RangePoint.distance].
      rewrite div_fin by exact HN0. rewrite mul_fin. f_equal.
      field. exact HN0.
  - intros Hd. unfold generateRangePoints in H. rewrite Hd in H.
    cbn [Math_ceil] in H.
    assert (Hz : Zceil 0 = 0%Z) by (apply Zceil_eq; cbn; lra).
    rewrite Hz, min_fin in H.
    rewrite Rmin_right in H by lra.
    change 0 with (INR 0) in H at 1.
    rewrite (rangePointsLoop_run 0) in H by lia.
    inversion H. eexists. split; [reflexivity|].
    cbn [rangePoint RangePoint.distance INR].
    unfold div at 1. destruct (Req_dec_T 0 0); [| lra]. reflexivity.
Qed.

Lemma range_curve_last_point route vehicle weather traffic d :
  finite_route route -> finite_vehicle vehicle -> finite_weather weather ->
  totalDistance route = Fin d -> 0 < d ->
  exists points final,
    rangeAtPoints route vehicle weather traffic = Some points
    /\ last points = Some final
    /\ RangePoint.distance final = totalDistance route
    /\ RangePoint.predictedSoC final
       = predictedEndSoC (predictTripEnergy route vehicle weather traffic).
Proof.
  intros (_ & Hg & Hl & Ht) (_ & Hb & _ & _ & He & Hp) Hw Hd Hpos.
  apply is_finite_inv in Hg, Hl, Ht, Hb, He, Hp.
  destruct Hg as [g Hg], Hl as [l Hl], Ht as [t Ht], Hb as [b Hb],
    He as [e He], Hp as [p Hp].
  destruct (breakdown_shape route vehicle weather traffic d g l t b e p
              Hd Hg Hl Ht Hb He Hp Hw) as (te & sf & tf & hp & w & Hbd).
  unfold rangeAtPoints.
  rewrite predictedEndSoC_eq, consumptionPerKm_eq.
  rewrite Hbd. cbn [totalConsumption]. rewrite Hd.
  match goal with
  | |- context [(Fin ?X / Fin d)%num] => set (T := X)
  end.
  rewrite !div_fin by lra.
  match goal with
  | |- context [generateRangePoints route ?soc ?cpk ?cap] =>
      destruct (generateRangePoints_positive route d soc cpk cap Hd Hpos)
        as (N & HN & _ & Hrun)
  end.
  rewrite Hrun.
  assert (HN0 : INR N <> 0) by (apply not_0_INR; lia).
  replace (S N) with (N + 1)%nat by lia.
  rewrite seq_app, map_app. cbn [seq map Nat.add].
  eexists _, _. split; [reflexivity|]. split; [apply last_snoc|].
  cbn [rangePoint RangePoint.distance RangePoint.predictedSoC].
  rewrite div_fin by exact HN0. rewrite !mul_fin, !div_fin by lra.
  replace (INR N / INR N * d) with d by (field; exact HN0).
  split; [reflexivity|].
  replace (d * (T / d) / 1000) with (T / 1000) by (field; lra).
  reflexivity.
Qed.

Lemma predictedEndSoC_percent route vehicle weather traffic :
  finite_route route -> finite_vehicle vehicle -> finite_weather weather ->
  (Fin 0 < batteryCapacity (variant vehicle))%num ->
  (Fin 0 < batteryHealth vehicle)%num ->
  (currentSoC vehicle <= Fin 100)%num ->
  (Fin 0 <= totalConsumption
              (breakdown (predictTripEnergy route vehicle weather traffic)))%num ->
  exists s,
    predictedEndSoC (predictTripEnergy route vehicle weather traffic) = Fin s
    /\ 0 <= s <= 100.
Proof.
  intros (Hd & Hg & Hl & Ht) (Hc & Hb & Hs & Hh & He & Hp) Hw Hcpos Hhpos Hsle.
  apply is_finite_inv in Hd as [d Hd], Hg as [g Hg], Hl as [l Hl], Ht as [t Ht],
    Hc as [c Hc], Hb as [b Hb], Hs as [s Hs], Hh as [h Hh], He as [e He],
    Hp as [pl Hp].
  destruct (breakdown_shape route vehicle weather traffic d g l t b e pl)
    as (te & sf & tf & hp & w & Hshape); auto.
  rewrite predictedEndSoC_eq. cbv zeta. rewrite Hshape.
  cbn [totalConsumption].
  match goal with |- context [(Fin ?X / Fin 1000)%num] => set (T := X) end.
  rewrite Hc, Hh, Hs in *.
  apply lt_fin in Hcpos, Hhpos. apply le_fin in Hsle.
  intros HT. apply le_fin in HT.
  assert (0 < c * (h / 100)) by nra.
  fin_simpl. rewrite max_fin, round_fin.
  eexists. split; [reflexivity|].
  assert (0 <= T / 1000 / (c * (h / 100)) * 100).
  { apply Rmult_le_pos; [| lra]. unfold Rdiv.
    apply Rmult_le_pos; [lra |]. left. now apply Rinv_0_lt_compat. }
  pose proof (Rmax_l 0 (s - T / 1000 / (c * (h / 100)) * 100)).
  assert (Rmax 0 (s - T / 1000 / (c * (h / 100)) * 100) <= 100)
    by (apply Rmax_lub; lra).
  split.
  - apply (IZR_le 0). apply Zfloor_lub. simpl. lra.
  - apply (IZR_le _ 100).
    etransitivity; [apply (Zfloor_le _ (100 + / 2)); lra |].
    rewrite (Zfloor_eq 100); [reflexivity | lra].
Qed.

(** X27: the range curve ends where the summary says.  On finite inputs with
    a route of positive length, a positive usable battery, a start SoC of at
    most 100 and a total consumption that is not negative, the last point of
    [rangeAtPoints] lies at the total distance, and its [predictedSoC] and
    the [predictedEndSoC] of the prediction are whole percentages between 0
    and 100 that differ by at most 1: the two are roundings of the same
    quantity, computed along different paths. *)
Theorem range_curve_ends_at_predicted_soc route vehicle weather traffic d :
  finite_route route -> finite_vehicle vehicle -> finite_weather weather ->
  totalDistance route = Fin d -> 0 < d ->
  (Fin 0 < batteryCapacity (variant vehicle))%num ->
  (Fin 0 < batteryHealth vehicle)%num ->
  (currentSoC vehicle <= Fin 100)%num ->
  (Fin 0 <= totalConsumption
              (breakdown (predictTripEnergy route vehicle weather traffic)))%num ->
  exists points final s1 s2,
    rangeAtPoints route vehicle weather traffic = Some points
    /\ last points = Some final
    /\ RangePoint.distance final = totalDistance route
    /\ RangePoint.predictedSoC final = Fin s1
    /\ predictedEndSoC (predictTripEnergy route vehicle weather traffic)
       = Fin s2
    /\ 0 <= s1 <= 100 /\ 0 <= s2 <= 100
    /\ Rabs (s1 - s2) <= 1.
Proof.
  intros Hr Hv Hw Hd Hpos Hc Hh Hs HT.
  destruct (range_curve_last_point route vehicle weather traffic d
              Hr Hv Hw Hd Hpos) as (points & final & Hrun & Hlast & Hdist & Hsoc).
  destruct (predictedEndSoC_percent route vehicle weather traffic
              Hr Hv Hw Hc Hh Hs HT) as (s & Hend & Hrange).
  exists points, final, s, s. split; [exact Hrun|]. split; [exact Hlast|].
  split; [exact Hdist|]. split; [rewrite Hsoc; exact Hend|].
  split; [exact Hend|]. split; [exact Hrange|]. split; [exact Hrange|].
  replace (s - s) with 0 by lra. rewrite Rabs_R0. lra.
Qed.

Lemma climb_consumption_positive :
  (Fin 0 <= totalConsumption
              (breakdown (predictTripEnergy climb DEFAULT_VEHICLE_STATE
                            None None)))%num.
Proof. js_eval. reflexivity. Qed.

(** The theorem on [climb] with the default vehicle. *)
Lemma range_curve_ends_at_predicted_soc_witness :
  exists points final s1 s2,
    rangeAtPoints climb DEFAULT_VEHICLE_STATE None None = Some points
    /\ last points = Some final
    /\ RangePoint.distance final = totalDistance climb
    /\ RangePoint.predictedSoC final = Fin s1
    /\ predictedEndSoC (predictTripEnergy climb DEFAULT_VEHICLE_STATE None None)
       = Fin s2
    /\ 0 <= s1 <= 100 /\ 0 <= s2 <= 100
    /\ Rabs (s1 - s2) <= 1.
Proof.
  apply (range_curve_ends_at_predicted_soc climb DEFAULT_VEHICLE_STATE None
           None 10).
  - repeat split; exact I.
  - repeat split; exact I.
  - exact I.
  - reflexivity.
  - lra.
  - apply lt_fin. lra.
  - apply lt_fin. lra.
  - apply le_fin. lra.
  - apply climb_consumption_positive.
Defined.

Lemma profile_fold segs : forall c pts,
  exists new,
    snd (fold_left profileStep segs (c, pts)) = pts ++ new
    /\ length new = length segs
    /\ (forall c0, c = Fin c0 -> Forall measured segs ->
        exists ds,
          map ElevationPoint.distance new = map Fin ds
          /\ ascending (c0 :: ds)
          /\ last (c0 :: ds) = Some (c0 + totalMetres segs / 1000)).
Proof.
  induction segs as [|s segs IH]; intros c pts.
  - exists []. cbn. rewrite app_nil_r. split; [reflexivity|].
    split; [reflexivity|]. intros c0 _ _. exists [].
    split; [reflexivity|]. split.
    + intros i x y _ H. destruct i; discriminate.
    + cbn. f_equal. lra.
  - cbn [fold_left]. unfold profileStep at 2.
    match goal with
    | |- context [fold_left profileStep segs (?c1, pts ++ [?p])] =>
        destruct (IH c1 (pts ++ [p])) as (new & Hn & Hlen & Hfin);
        exists (p :: new)
    end.
    split; [rewrite Hn, <- app_assoc; reflexivity|].
    split; [cbn; rewrite Hlen; reflexivity|].
    intros c0 Hc Hall. inversion Hall as [|? ? (r & Hr & Hr0) Hrest]; subst.
    rewrite Hr in Hfin. rewrite div_fin, add_fin in Hfin by lra.
    destruct (Hfin _ eq_refl Hrest) as (ds & Hds & Hasc & Hlast).
    exists ((c0 + r / 1000) :: ds).
    split.
    { cbn [map ElevationPoint.distance]. rewrite Hr, div_fin, add_fin by lra.
      f_equal. exact Hds. }
    split.
    + intros i x y Hx Hy. destruct i as [|i].
      * cbn in Hx, Hy. inversion Hx; inversion Hy; subst.
        assert (0 <= r / 1000) by (apply Rmult_le_pos; lra). lra.
      * apply (Hasc i x y); assumption.
    + change (last (c0 :: (c0 + r / 1000) :: ds))
        with (last ((c0 + r / 1000) :: ds)).
      rewrite Hlast. cbn [totalMetres]. unfold metres. rewrite Hr.
      cbn [amount]. f_equal. lra.
Qed.

(** X28: [generateElevationProfile] returns the starting point, at distance 0
    with the elevation of the origin (0 when it has none), followed by one
    point per segment.  When every segment has a finite, non-negative
    length, the distances of the points are finite and never decrease, and
    the last one is the sum of the segment lengths in km. *)
Theorem generateElevationProfile_shape route :
  exists first rest,
    generateElevationProfile route = first :: rest
    /\ length rest = length (segments route)
    /\ ElevationPoint.distance first = Fin 0
    /\ ElevationPoint.elevation first
       = default (Fin 0) (Coordinate.elevation (origin route))
    /\ (Forall measured (segments route) ->
        exists ds,
          map ElevationPoint.distance (first :: rest) = map Fin ds
          /\ ascending ds
          /\ last ds = Some (totalMetres (segments route) / 1000)).
Proof.
  unfold generateElevationProfile.
  match goal with
  | |- context [fold_left profileStep _ (Fin 0, [?p])] =>
      destruct (profile_fold (segments route) (Fin 0) [p])
        as (new & Hn & Hlen & Hfin);
      exists p, new
  end.
  split; [exact Hn|]. split; [exact Hlen|].
  split; [reflexivity|]. split; [reflexivity|].
  intros Hall. destruct (Hfin 0 eq_refl Hall) as (ds & Hds & Hasc & Hlast).
  exists (0 :: ds). split; [cbn [map ElevationPoint.distance]; f_equal; exact Hds|].
  split; [exact Hasc|]. rewrite Hlast. f_equal. lra.
Qed.

End RouteProfileFacts.

(** ** Geohash cells *)

Section GeohashCellFacts.

Import Models Int32 GeohashCells.

Lemma string_app_empty (s : string) : s +:+ EmptyString = s.
Proof.
  induction s as [|c s IH]; [reflexivity|].
  change (String c s +:+ EmptyString) with (String c (s +:+ EmptyString)).
  rewrite IH. reflexivity.
Qed.

Lemma string_app_assoc3 (s t u : string) : (s +:+ t) +:+ u = s +:+ (t +:+ u).
Proof.
  induction s as [|c s IH]; [reflexivity|].
  change ((String c s +:+ t) +:+ u) with (String c ((s +:+ t) +:+ u)).
  change (String c s +:+ (t +:+ u)) with (String c (s +:+ (t +:+ u))).
  rewrite IH. reflexivity.
Qed.

Lemma geohash_step_extends lat lng st :
  exists t, hash (geohash_step lat lng st) = hash st +:+ t.
Proof.
  unfold geohash_step.
  destruct (geohash_bisect lat lng st) as [[[[a1 a2] a3] a4] c].
  destruct (bit st + 1 =? 5)%Z; cbn [hash].
  - unfold append_char_at. destruct (char_at base32 c); eexists; reflexivity.
  - exists EmptyString. symmetry. apply string_app_empty.
Qed.

Lemma geohash_iter_extends lat lng n : forall st,
  exists t, hash (Nat.iter n (geohash_step lat lng) st) = hash st +:+ t.
Proof.
  induction n as [|n IH]; intros st.
  - exists EmptyString. symmetry. apply string_app_empty.
  - rewrite Nat.iter_succ. destruct (IH st) as (t & Ht).
    destruct (geohash_step_extends lat lng
                (Nat.iter n (geohash_step lat lng) st)) as (u & Hu).
    exists (t +:+ u). rewrite Hu, Ht. apply string_app_assoc3.
Qed.

Lemma geohash_loop_iter lat lng (p : nat) : forall fuel st q b,
  geohash_inv st q b -> (q <= p)%nat -> (5 * (p - q) - b <= fuel)%nat ->
  geohash_loop fuel lat lng (Z.of_nat p) st
  = Some (hash (Nat.iter (5 * (p - q) - b) (geohash_step lat lng) st)).
Proof.
  induction fuel as [|fuel IH]; intros st q b Hinv Hq Hf.
  - assert (Hinv' := Hinv). unfold geohash_inv in Hinv'.
    destruct Hinv' as (Hlen & _ & _ & Hb & _).
    assert (Hqp : q = p) by lia. rewrite Hqp in *.
    cbn [geohash_loop]. rewrite Hlen.
    rewrite (proj2 (Z.ltb_ge _ _)) by lia.
    replace (5 * (p - p) - b)%nat with 0%nat by lia. reflexivity.
  - assert (Hinv' := Hinv). unfold geohash_inv in Hinv'.
    destruct Hinv' as (Hlen & _ & _ & Hb & _).
    rewrite geohash_loop_S, Hlen.
    destruct (decide (q = p)) as [Hqp | Hne].
    + rewrite Hqp in *. rewrite (proj2 (Z.ltb_ge _ _)) by lia.
      replace (5 * (p - p) - b)%nat with 0%nat by lia. reflexivity.
    + rewrite (proj2 (Z.ltb_lt _ _)) by lia.
      pose proof (geohash_step_inv lat lng st q b Hinv) as Hstep.
      destruct (Nat.eq_dec b 4%nat) as [Hb4e | Hb4]; [rewrite Hb4e in * |].
      * rewrite (IH _ (S q) 0%nat Hstep) by lia.
        replace (5 * (p - q) - 4)%nat with (S (5 * (p - S q) - 0)) by lia.
        rewrite Nat.iter_succ_r. reflexivity.
      * rewrite (IH _ q (S b) Hstep) by lia.
        replace (5 * (p - q) - b)%nat with (S (5 * (p - q) - S b)) by lia.
        rewrite Nat.iter_succ_r. reflexivity.
Qed.

Lemma calculateGeohash_iter lat lng (p : nat) :
  calculateGeohash lat lng (Z.of_nat p)
  = Some (hash (Nat.iter (5 * p) (geohash_step lat lng) geohash_init)).
Proof.
  unfold calculateGeohash. rewrite Nat2Z.id.
  rewrite (geohash_loop_iter lat lng p (5 * p) geohash_init 0 0
             geohash_init_inv) by lia.
  replace (5 * (p - 0) - 0)%nat with (5 * p)%nat by lia. reflexivity.
Qed.

Lemma calculateGeohash_length lat lng (p : nat) h :
  calculateGeohash lat lng (Z.of_nat p) = Some h -> String.length h = p.
Proof.
  unfold calculateGeohash. rewrite Nat2Z.id.
  destruct (geohash_loop_total lat lng p (5 * p) geohash_init 0 0
              geohash_init_inv) as (h' & Hh & Hlen & _); [lia | lia |].
  rewrite Hh. intros [= <-]. exact Hlen.
Qed.

(** X29: geohashes are hierarchical.  For every latitude and longitude and
    all precisions p <= q, the geohash of precision q starts with the geohash
    of precision p: it is that geohash followed by q - p further
    characters. *)
Theorem geohash_prefix lat lng (p q : nat) :
  (p <= q)%nat ->
  exists h t,
    calculateGeohash lat lng (Z.of_nat p) = Some h
    /\ calculateGeohash lat lng (Z.of_nat q) = Some (h +:+ t)
    /\ String.length h = p
    /\ String.length t = (q - p)%nat.
Proof.
  intros Hpq.
  pose proof (calculateGeohash_iter lat lng p) as Hp.
  pose proof (calculateGeohash_iter lat lng q) as Hq.
  replace (5 * q)%nat with (5 * (q - p) + 5 * p)%nat in Hq by lia.
  rewrite Nat.iter_add in Hq.
  set (st := Nat.iter (5 * p) (geohash_step lat lng) geohash_init) in *.
  destruct (geohash_iter_extends lat lng (5 * (q - p)) st) as (t & Ht).
  rewrite Ht in Hq.
  exists (hash st), t. split; [exact Hp|]. split; [exact Hq|].
  pose proof (calculateGeohash_length _ _ _ _ Hp) as Lp.
  pose proof (calculateGeohash_length _ _ _ _ Hq) as Lq.
  rewrite string_length_app in Lq. split; [exact Lp | lia].
Qed.

(** The theorem for precisions 4 and 6 at a point in Jutland. *)
Lemma geohash_prefix_witness :
  exists h t,
    calculateGeohash (Fin 57.64911) (Fin 10.40744) (Z.of_nat 4) = Some h
    /\ calculateGeohash (Fin 57.64911) (Fin 10.40744) (Z.of_nat 6)
       = Some (h +:+ t)
    /\ String.length h = 4%nat
    /\ String.length t = (6 - 4)%nat.
Proof.
  apply (geohash_prefix (Fin 57.64911) (Fin 10.40744) 4 6). lia.
Defined.

Lemma ch_small st q b : geohash_inv st q b -> (0 <= ch st < 16)%Z.
Proof.
  intros (_ & _ & _ & Hb & Hc).
  assert (2 ^ Z.of_nat b <= 2 ^ 4)%Z by (apply Z.pow_le_mono_r; lia).
  change (2 ^ 4)%Z with 16%Z in H. lia.
Qed.

Lemma step_is_stepWith lat lng st q b :
  geohash_inv st q b ->
  geohash_step lat lng st = stepWith (upperHalf lat lng st) st.
Proof.
  intros Hinv. pose proof (ch_small st q b Hinv) as Hc.
  unfold geohash_step, geohash_bisect, upperHalf, stepWith.
  destruct (isLng st).
  - destruct (lng >=? (minLng st + maxLng st) / Fin 2)%num.
    + rewrite (bor_shl_one _ Hc).
      destruct (bit st + 1 =? 5)%Z; reflexivity.
    + rewrite (shl_one _ Hc). rewrite Z.add_0_r.
      destruct (bit st + 1 =? 5)%Z; reflexivity.
  - destruct (lat >=? (minLat st + maxLat st) / Fin 2)%num.
    + rewrite (bor_shl_one _ Hc).
      destruct (bit st + 1 =? 5)%Z; reflexivity.
    + rewrite (shl_one _ Hc). rewrite Z.add_0_r.
      destruct (bit st + 1 =? 5)%Z; reflexivity.
Qed.

Lemma cell_init lat lng :
  -90 <= lat <= 90 -> -180 <= lng <= 180 ->
  cellOfPoint geohash_init lat lng 0 0.
Proof.
  intros Hlat Hlng. exists (-90), 90, (-180), 180.
  cbn. repeat split; try reflexivity; lra.
Qed.

Lemma cell_step st lat lng kl kt :
  cellOfPoint st lat lng kl kt ->
  cellOfPoint (stepWith (upperHalf (Fin lat) (Fin lng) st) st) lat lng
    (if isLng st then S kl else kl) (if isLng st then kt else S kt).
Proof.
  intros (a & b & c & d & Ha & Hb & Hc & Hd & Hlat & Hlng & Wt & Wl & Hk).
  assert (P2l : 0 < 2 ^ kl) by (apply pow_lt; lra).
  assert (P2t : 0 < 2 ^ kt) by (apply pow_lt; lra).
  unfold upperHalf, stepWith, geb. rewrite Ha, Hb, Hc, Hd.
  rewrite !add_fin, !div_fin by lra.
  destruct (isLng st) eqn:El; rewrite ?El in Hk;
    cbn [minLat maxLat minLng maxLng isLng negb].
  - destruct (Rle_dec ((c + d) / 2) lng) as [Hm | Hm].
    + rewrite leb_fin_true by exact Hm.
      exists a, b, ((c + d) / 2), d.
      repeat split; try reflexivity; try lra.
      * cbn [pow]. replace (d - (c + d) / 2) with ((d - c) / 2) by lra.
        rewrite Wl. field. lra.
      * cbn. lia.
    + rewrite leb_fin_false by lra.
      exists a, b, c, ((c + d) / 2).
      repeat split; try reflexivity; try lra.
      * cbn [pow]. replace ((c + d) / 2 - c) with ((d - c) / 2) by lra.
        rewrite Wl. field. lra.
      * cbn. lia.
  - destruct (Rle_dec ((a + b) / 2) lat) as [Hm | Hm].
    + rewrite leb_fin_true by exact Hm.
      exists ((a + b) / 2), b, c, d.
      repeat split; try reflexivity; try lra.
      * cbn [pow]. replace (b - (a + b) / 2) with ((b - a) / 2) by lra.
        rewrite Wt. field. lra.
      * cbn. lia.
    + rewrite leb_fin_false by lra.
      exists a, ((a + b) / 2), c, d.
      repeat split; try reflexivity; try lra.
      * cbn [pow]. replace ((a + b) / 2 - a) with ((b - a) / 2) by lra.
        rewrite Wt. field. lra.
      * cbn. lia.
Qed.

Lemma string_get_lookup (s : string) n :
  String.get n s = list_ascii_of_string s !! n.
Proof.
  revert n. induction s as [|c s IH]; intros [|n]; cbn; auto.
Qed.

Lemma base32_NoDup : NoDup (list_ascii_of_string base32).
Proof. apply (bool_decide_unpack _). vm_compute. exact I. Qed.

Lemma base32_char_inj (c1 c2 : Z) (a : ascii) :
  (0 <= c1 < 32)%Z -> (0 <= c2 < 32)%Z ->
  char_at base32 c1 = Some a -> char_at base32 c2 = Some a -> c1 = c2.
Proof.
  intros H1 H2. unfold char_at.
  rewrite (proj2 (Z.ltb_ge _ _)) by lia.
  rewrite (proj2 (Z.ltb_ge _ _)) by lia.
  rewrite !string_get_lookup. intros E1 E2.
  pose proof (NoDup_lookup _ _ _ _ base32_NoDup E1 E2). lia.
Qed.

Lemma string_app_inj (h1 h2 t1 t2 : string) :
  String.length h1 = String.length h2 ->
  h1 +:+ t1 = h2 +:+ t2 -> h1 = h2 /\ t1 = t2.
Proof.
  revert h2. induction h1 as [|c h1 IH]; intros [|c2 h2] Hlen E;
    try discriminate.
  - split; [reflexivity | exact E].
  - change (String c h1 +:+ t1) with (String c (h1 +:+ t1)) in E.
    change (String c2 h2 +:+ t2) with (String c2 (h2 +:+ t2)) in E.
    inversion E as [[Hc Ht]]. cbn in Hlen.
    destruct (IH h2) as [-> ->]; [lia | exact Ht |]. split; reflexivity.
Qed.

Lemma append_differ h1 h2 c1 c2 :
  String.length h1 = String.length h2 ->
  (0 <= c1 < 32)%Z -> (0 <= c2 < 32)%Z ->
  h1 <> h2 \/ c1 <> c2 ->
  append_char_at h1 base32 c1 <> append_char_at h2 base32 c2.
Proof.
  intros Hlen H1 H2 Hd E. unfold append_char_at in E.
  destruct (base32_char c1 H1) as (a1 & E1 & _).
  destruct (base32_char c2 H2) as (a2 & E2 & _).
  rewrite E1, E2 in E.
  apply string_app_inj in E; [| exact Hlen]. destruct E as [Eh Et].
  destruct Hd as [Hd | Hd]; [exact (Hd Eh)|].
  apply Hd. apply (base32_char_inj c1 c2 a1); [assumption | assumption | exact E1 |].
  rewrite E2. inversion Et. reflexivity.
Qed.

Lemma stepWith_apart up1 up2 st1 st2 q b :
  geohash_inv st1 q b -> geohash_inv st2 q b ->
  (st1 = st2 /\ up1 <> up2) \/ apart st1 st2 ->
  apart (stepWith up1 st1) (stepWith up2 st2).
Proof.
  intros I1 I2 Hd.
  pose proof (ch_small _ _ _ I1) as C1. pose proof (ch_small _ _ _ I2) as C2.
  destruct I1 as (L1 & _ & B1 & Hb & _). destruct I2 as (L2 & _ & B2 & _ & _).
  assert (Hch : hash st1 = hash st2 ->
                (2 * ch st1 + (if up1 then 1 else 0)
                 <> 2 * ch st2 + (if up2 then 1 else 0))%Z).
  { intros Eh. destruct Hd as [[-> Hup] | [Hh | Hc]].
    - destruct up1, up2; try congruence; lia.
    - contradiction.
    - destruct up1, up2; lia. }
  unfold apart, stepWith. cbn [hash ch]. rewrite B1, B2.
  destruct (Z.of_nat b + 1 =? 5)%Z eqn:Eb.
  - left. apply append_differ.
    + congruence.
    + destruct up1; lia.
    + destruct up2; lia.
    + destruct (string_dec (hash st1) (hash st2)) as [Eh | Nh];
        [right; apply Hch, Eh | left; exact Nh].
  - destruct (string_dec (hash st1) (hash st2)) as [Eh | Nh];
      [right; apply Hch, Eh | left; exact Nh].
Qed.

Lemma geohash_runs lat1 lng1 lat2 lng2 :
  -90 <= lat1 <= 90 -> -180 <= lng1 <= 180 ->
  -90 <= lat2 <= 90 -> -180 <= lng2 <= 180 ->
  forall n,
    let st1 := Nat.iter n (geohash_step (Fin lat1) (Fin lng1)) geohash_init in
    let st2 := Nat.iter n (geohash_step (Fin lat2) (Fin lng2)) geohash_init in
    exists q b kl kt,
      geohash_inv st1 q b /\ geohash_inv st2 q b
      /\ n = (5 * q + b)%nat /\ (kl + kt = n)%nat
      /\ cellOfPoint st1 lat1 lng1 kl kt /\ cellOfPoint st2 lat2 lng2 kl kt
      /\ (st1 = st2 \/ apart st1 st2).
Proof.
  intros Ha1 Ho1 Ha2 Ho2. induction n as [|n IH]; cbv zeta.
  - exists 0%nat, 0%nat, 0%nat, 0%nat. cbn [Nat.iter].
    split; [apply geohash_init_inv|]. split; [apply geohash_init_inv|].
    split; [reflexivity|]. split; [reflexivity|].
    split; [apply cell_init; assumption|].
    split; [apply cell_init; assumption|]. left. reflexivity.
  - rewrite !Nat.iter_succ. cbv zeta in IH.
    set (st1 := Nat.iter n (geohash_step (Fin lat1) (Fin lng1)) geohash_init)
      in *.
    set (st2 := Nat.iter n (geohash_step (Fin lat2) (Fin lng2)) geohash_init)
      in *.
    destruct IH as (q & b & kl & kt & I1 & I2 & Hn & Hk & K1 & K2 & Hd).
    pose proof (geohash_step_inv (Fin lat1) (Fin lng1) st1 q b I1) as S1.
    pose proof (geohash_step_inv (Fin lat2) (Fin lng2) st2 q b I2) as S2.
    rewrite (step_is_stepWith _ _ _ _ _ I1) in *.
    rewrite (step_is_stepWith _ _ _ _ _ I2) in *.
    pose proof (cell_step _ _ _ _ _ K1) as K1'.
    pose proof (cell_step _ _ _ _ _ K2) as K2'.
    assert (Hl : isLng st1 = isLng st2).
    { destruct K1 as (? & ? & ? & ? & _ & _ & _ & _ & _ & _ & _ & _ & E1).
      destruct K2 as (? & ? & ? & ? & _ & _ & _ & _ & _ & _ & _ & _ & E2).
      destruct (isLng st1), (isLng st2); try reflexivity; lia. }
    rewrite <- Hl in K2'.
    assert (Hd' : stepWith (upperHalf (Fin lat1) (Fin lng1) st1) st1
                  = stepWith (upperHalf (Fin lat2) (Fin lng2) st2) st2
                  \/ apart (stepWith (upperHalf (Fin lat1) (Fin lng1) st1) st1)
                       (stepWith (upperHalf (Fin lat2) (Fin lng2) st2) st2)).
    { destruct Hd as [E | Hap].
      - destruct (bool_decide (upperHalf (Fin lat1) (Fin lng1) st1
                               = upperHalf (Fin lat2) (Fin lng2) st2)) eqn:Eu.
        + apply bool_decide_eq_true in Eu. left. rewrite Eu, E. reflexivity.
        + apply bool_decide_eq_false in Eu. right.
          apply (stepWith_apart _ _ _ _ q b I1 I2). left. split; assumption.
      - right. apply (stepWith_apart _ _ _ _ q b I1 I2). right. exact Hap. }
    destruct (Nat.eq_dec b 4%nat) as [Hb4 | Hb4].
    + exists (S q), 0%nat, (if isLng st1 then S kl else kl),
        (if isLng st1 then kt else S kt).
      split; [exact S1|]. split; [exact S2|]. split; [lia|].
      split; [destruct (isLng st1); lia|].
      split; [exact K1'|]. split; [exact K2' | exact Hd'].
    + exists q, (S b), (if isLng st1 then S kl else kl),
        (if isLng st1 then kt else S kt).
      split; [exact S1|]. split; [exact S2|]. split; [lia|].
      split; [destruct (isLng st1); lia|].
      split; [exact K1'|]. split; [exact K2' | exact Hd'].
Qed.

Lemma same_interval (a b x y w : R) :
  a <= x <= b -> a <= y <= b -> b - a = w -> Rabs (x - y) <= w.
Proof. intros Hx Hy Hw. apply Rabs_le. lra. Qed.

(** X30: geohashes are local.  Two points (latitudes within [-90, 90],
    longitudes within [-180, 180]) that [calculateGeohash] maps to the same
    hash of precision p lie in one cell: their latitudes differ by at most
    180 / 2^floor(5p/2) degrees and their longitudes by at most
    360 / 2^ceil(5p/2) degrees. *)
Theorem geohash_cell lat1 lng1 lat2 lng2 (p : nat) :
  -90 <= lat1 <= 90 -> -180 <= lng1 <= 180 ->
  -90 <= lat2 <= 90 -> -180 <= lng2 <= 180 ->
  calculateGeohash (Fin lat1) (Fin lng1) (Z.of_nat p)
  = calculateGeohash (Fin lat2) (Fin lng2) (Z.of_nat p) ->
  Rabs (lat1 - lat2) <= cellHeight p /\ Rabs (lng1 - lng2) <= cellWidth p.
Proof.
  intros Ha1 Ho1 Ha2 Ho2 E.
  rewrite !calculateGeohash_iter in E. injection E as E.
  destruct (geohash_runs lat1 lng1 lat2 lng2 Ha1 Ho1 Ha2 Ho2 (5 * p))
    as (q & b & kl & kt & I1 & I2 & Hn & Hk & K1 & K2 & Hd).
  set (st1 := Nat.iter (5 * p) (geohash_step (Fin lat1) (Fin lng1))
                geohash_init) in *.
  set (st2 := Nat.iter (5 * p) (geohash_step (Fin lat2) (Fin lng2))
                geohash_init) in *.
  assert (Hb : b = 0%nat).
  { destruct I1 as (_ & _ & _ & Hb & _). lia. }
  assert (Hst : st1 = st2).
  { destruct Hd as [Hd | [Hd | Hd]]; [exact Hd | contradiction |].
    destruct I1 as (_ & _ & _ & _ & C1). destruct I2 as (_ & _ & _ & _ & C2).
    rewrite Hb in C1, C2. change (2 ^ Z.of_nat 0)%Z with 1%Z in C1, C2.
    exfalso. apply Hd. lia. }
  destruct K1 as (a1 & b1 & c1 & d1 & Ea1 & Eb1 & Ec1 & Ed1 & Ha & Ho & Hh
                  & Hw & Hpar).
  destruct K2 as (a2 & b2 & c2 & d2 & Ea2 & Eb2 & Ec2 & Ed2 & Ha' & Ho' & _
                  & _ & _).
  rewrite Hst in Ea1, Eb1, Ec1, Ed1.
  assert (a1 = a2) by congruence. assert (b1 = b2) by congruence.
  assert (c1 = c2) by congruence. assert (d1 = d2) by congruence.
  subst a2 b2 c2 d2.
  assert (Hkt : kt = latBits p /\ kl = lngBits p).
  { unfold latBits, lngBits.
    pose proof (Nat.div_mod_eq (5 * p) 2) as Hdm.
    pose proof (Nat.mod_upper_bound (5 * p) 2) as Hm.
    destruct (isLng st1); lia. }
  destruct Hkt as [-> ->].
  split; [apply (same_interval a1 b1) | apply (same_interval c1 d1)];
    assumption.
Qed.

(** A second point of the cell of 57.64911 N, 10.40744 E. *)
Example geohash_jutland_nearby :
  calculateGeohash (Fin 57.6495) (Fin 10.41) 6 = Some "u4pruy".
Proof.
  unfold calculateGeohash. js_norm.
  do 30 (rewrite geohash_loop_S; js_norm; js_arith). reflexivity.
Qed.

(** The theorem for these two points at precision 6. *)
Lemma geohash_cell_witness :
  Rabs (57.64911 - 57.6495) <= cellHeight 6
  /\ Rabs (10.40744 - 10.41) <= cellWidth 6.
Proof.
  apply (geohash_cell 57.64911 10.40744 57.6495 10.41 6);
    [lra | lra | lra | lra |].
  change (Z.of_nat 6) with 6%Z.
  rewrite geohash_jutland, geohash_jutland_nearby. reflexivity.
Defined.

End GeohashCellFacts.
